(** * MCP-PRIME: signature extraction and tool-schema synthesis

    A shallow embedding of package [repository] (the scanners of
    Python and JavaScript/TypeScript declarations, the documentation
    associators, the parameter normalizers and the handlers of the tools
    [get_file_list], [get_file_content], [extract_signatures] and
    [emit_tool_json]) and of the flag normalization of the command,
    followed by the properties of the specification that were checked
    against it and by further properties of the code.  The Go library
    functions the package calls ([strings], [regexp], [encoding/json],
    [path/filepath]) are modelled first.

    Go strings are byte sequences: they are modelled as [string], whose
    characters are the 256 values of [ascii].  Go maps are [gmap]s, slices
    are lists, an [interface{}] holding decoded JSON is a [json] value. *)

From Stdlib Require Import ZArith Ascii String List Lia.
From stdpp Require Import gmap strings list fin_maps sorting.

#[local] Set Warnings "-register-all".
#[local] Open Scope Z_scope.

(* ===================================================================== *)
(** * Package [strings] of the Go library *)
(* ===================================================================== *)

Module Strings.

Definition bytes (s : string) : list ascii := String.list_ascii_of_string s.
Definition str (l : list ascii) : string := String.string_of_list_ascii l.
Definition len (s : string) : nat := String.length s.
Definition code (c : ascii) : nat := nat_of_ascii c.

(** [s[lo:hi]] and [s[lo:]].  Every slice expression of the package is
    guarded by a length or prefix test, so that none can go out of
    range; [String.substring] is total. *)
Definition slice (s : string) (lo hi : nat) : string :=
  String.substring lo (hi - lo) s.
Definition sliceFrom (s : string) (lo : nat) : string :=
  String.substring lo (len s - lo) s.

Definition HasPrefix (s prefix : string) : bool := String.prefix prefix s.

Definition HasSuffix (s suffix : string) : bool :=
  (len suffix <=? len s)%nat
  && String.eqb (sliceFrom s (len s - len suffix)) suffix.

Definition TrimSuffix (s suffix : string) : string :=
  if HasSuffix s suffix then slice s 0 (len s - len suffix) else s.

(** [strings.Index]: the byte offset of the first occurrence, or -1. *)
Fixpoint Index (s substr : string) : Z :=
  if HasPrefix s substr then 0
  else match s with
       | EmptyString => -1
       | String _ s' => let i := Index s' substr in
                        if i <? 0 then -1 else i + 1
       end.

Definition Contains (s substr : string) : bool := 0 <=? Index s substr.

(** [strings.Split] for a non-empty separator (the package only splits
    on the one-byte separators "\n" and ","): [skip] counts the bytes of
    a separator occurrence that are still to be passed over, [cur] is
    the current piece, reversed. *)
Fixpoint splitGo (sep s : string) (skip : nat) (cur : list ascii)
  : list string :=
  match s with
  | EmptyString => [str (rev cur)]
  | String c s' =>
      match skip with
      | S k => splitGo sep s' k cur
      | O => if HasPrefix s sep
             then str (rev cur) :: splitGo sep s' (len sep - 1) []
             else splitGo sep s' 0 (c :: cur)
      end
  end.
Definition Split (s sep : string) : list string := splitGo sep s 0 [].

Definition Join (elems : list string) (sep : string) : string :=
  String.concat sep elems.

(** ** White space, as [unicode.IsSpace] sees it through UTF-8

    [strings.TrimSpace] removes leading and trailing runes that satisfy
    [unicode.IsSpace].  The six ASCII spaces are single bytes; the other
    white-space runes are U+0085, U+00A0 (two bytes) and U+1680,
    U+2000..U+200A, U+2028, U+2029, U+202F, U+205F, U+3000 (three
    bytes).  A byte that does not start one of these encodings decodes
    to some other rune (or to the error rune), which is not a space. *)
Definition asciiSpace (c : ascii) : bool :=
  let n := code c in
  ((9 <=? n) && (n <=? 13) || (n =? 32))%nat.

Definition space2 (c1 c2 : ascii) : bool :=
  ((code c1 =? 194) && ((code c2 =? 133) || (code c2 =? 160)))%nat.

Definition space3 (c1 c2 c3 : ascii) : bool :=
  let '(a, b, c) := (code c1, code c2, code c3) in
  ((a =? 225) && (b =? 154) && (c =? 128)
   || (a =? 226) && (b =? 128)
      && ((128 <=? c) && (c <=? 138) || (c =? 168) || (c =? 169) || (c =? 175))
   || (a =? 226) && (b =? 129) && (c =? 159)
   || (a =? 227) && (b =? 128) && (c =? 128))%nat.

(** Leading white space: decode one rune at the front, drop it when it
    is a space. *)
Fixpoint trimLeftSpace (s : list ascii) : list ascii :=
  match s with
  | [] => []
  | c1 :: r1 =>
      if asciiSpace c1 then trimLeftSpace r1 else
      match r1 with
      | [] => s
      | c2 :: r2 =>
          if space2 c1 c2 then trimLeftSpace r2 else
          match r2 with
          | [] => s
          | c3 :: r3 => if space3 c1 c2 c3 then trimLeftSpace r3 else s
          end
      end
  end.

(** Trailing white space, on the reversed bytes: [utf8.DecodeLastRune]
    walks back to the nearest byte that starts a rune and accepts the
    rune when its encoding ends exactly at the end of the string. *)
Fixpoint trimLeftSpaceRev (s : list ascii) : list ascii :=
  match s with
  | [] => []
  | c1 :: r1 =>
      if asciiSpace c1 then trimLeftSpaceRev r1 else
      match r1 with
      | [] => s
      | c2 :: r2 =>
          if space2 c2 c1 then trimLeftSpaceRev r2 else
          match r2 with
          | [] => s
          | c3 :: r3 => if space3 c3 c2 c1 then trimLeftSpaceRev r3 else s
          end
      end
  end.
Definition trimRightSpace (s : list ascii) : list ascii :=
  rev (trimLeftSpaceRev (rev s)).

Definition TrimSpace (s : string) : string :=
  str (trimRightSpace (trimLeftSpace (bytes s))).

(** [strings.Trim] with a cutset of ASCII bytes (the package passes
    " \t"): bytes of the cutset are removed at both ends. *)
Definition inCutset (cutset : string) (c : ascii) : bool :=
  bool_decide (c ∈ bytes cutset).
Fixpoint dropWhile (p : ascii → bool) (l : list ascii) : list ascii :=
  match l with
  | c :: l' => if p c then dropWhile p l' else l
  | [] => []
  end.
Definition Trim (s cutset : string) : string :=
  str (rev (dropWhile (inCutset cutset)
         (rev (dropWhile (inCutset cutset) (bytes s))))).

End Strings.
Import Strings.

(* ===================================================================== *)
(** * Package [regexp] of the Go library *)
(* ===================================================================== *)

(** The five patterns of the scanners use literals, the Perl classes [\s]
    and [\w], [.], concatenation, greedy and lazy repetition, optional
    non-capturing groups, capturing groups and the anchor [^].  Go's
    [regexp] returns the leftmost match and, among the leftmost ones, the
    one a backtracking matcher finds first; the matcher below is that
    backtracking matcher, in continuation-passing style.

    The matcher works on bytes where Go works on runes.  The submatches
    are the same: every repetition of [.] in the patterns is followed by
    an ASCII literal or ends the pattern, an ASCII byte never lies inside
    the encoding of another rune, and the lines matched contain no
    newline. *)

Module Regexp.

Inductive regex :=
| Empty
| Bol                                  (* ^ *)
| Class (p : ascii → bool)             (* one byte of a class *)
| Lit (s : string)
| Cat (r1 r2 : regex)
| Star (greedy : bool) (r : regex)     (* r* and r*? *)
| Quest (r : regex)                    (* (?:r)? *)
| Cap (n : nat) (r : regex).           (* the n-th capturing group *)

Definition Plus (r : regex) : regex := Cat r (Star true r).

(** A capture is the pair of the offsets where the group starts and
    ends; a continuation takes the offset reached, the rest of the input
    and the captures made so far. *)
Definition cont := nat → string → gmap nat (nat * nat)
                   → option (gmap nat (nat * nat)).

(** [rx r pos s caps k]: match [r] at offset [pos], where [s] is the rest
    of the input, then go on with [k].  An iteration of a repetition has
    to consume a byte; the loop of [Star] therefore runs at most
    [len s] times, and its counter never reaches 0 with an iteration
    still possible. *)
Fixpoint rx (r : regex) (pos : nat) (s : string)
    (caps : gmap nat (nat * nat)) (k : cont)
  : option (gmap nat (nat * nat)) :=
  match r with
  | Empty => k pos s caps
  | Bol => if (pos =? 0)%nat then k pos s caps else None
  | Class p =>
      match s with
      | String c s' => if p c then k (S pos) s' caps else None
      | EmptyString => None
      end
  | Lit l =>
      if HasPrefix s l then k (pos + len l)%nat (sliceFrom s (len l)) caps
      else None
  | Cat r1 r2 => rx r1 pos s caps (λ pos' s' caps', rx r2 pos' s' caps' k)
  | Star greedy r' =>
      (fix loop (n pos : nat) (s : string) (caps : gmap nat (nat * nat))
         {struct n} : option (gmap nat (nat * nat)) :=
         let more :=
           match n with
           | O => None
           | S n' =>
               rx r' pos s caps (λ pos' s' caps',
                 if (len s' <? len s)%nat then loop n' pos' s' caps'
                 else None)
           end in
         if greedy
         then match more with Some c => Some c | None => k pos s caps end
         else match k pos s caps with Some c => Some c | None => more end)
        (S (len s)) pos s caps
  | Quest r' =>
      match rx r' pos s caps k with
      | Some c => Some c
      | None => k pos s caps
      end
  | Cap n r' =>
      rx r' pos s caps (λ pos' s' caps', k pos' s' (<[n := (pos, pos')]> caps'))
  end.

(** The leftmost match: the offsets are tried in increasing order. *)
Fixpoint search (r : regex) (pos : nat) (s : string)
  : option (gmap nat (nat * nat)) :=
  match rx (Cap 0 r) pos s ∅ (λ _ _ caps, Some caps) with
  | Some caps => Some caps
  | None => match s with
            | String _ s' => search r (S pos) s'
            | EmptyString => None
            end
  end.

Fixpoint numSubexp (r : regex) : nat :=
  match r with
  | Cat r1 r2 => numSubexp r1 `max` numSubexp r2
  | Star _ r' | Quest r' => numSubexp r'
  | Cap n r' => n `max` numSubexp r'
  | _ => 0
  end.

(** [FindStringSubmatch]: [None] is the nil slice of "no match";
    otherwise the text of the match and of every group, the empty string
    for a group that took no part in the match. *)
Definition FindStringSubmatch (r : regex) (s : string)
  : option (list string) :=
  caps ← search r 0 s;
  Some ((λ n, match caps !! n with
              | Some (lo, hi) => slice s lo hi
              | None => ""
              end) <$> seq 0 (S (numSubexp r))).

(** [m[i]] on a submatch slice; the scanners only read groups their
    pattern has. *)
Definition group (m : list string) (i : nat) : string := default "" (m !! i).

Definition perlSpace (c : ascii) : bool :=       (* \s = [\t\n\f\r ] *)
  let n := code c in
  ((n =? 9) || (n =? 10) || (n =? 12) || (n =? 13) || (n =? 32))%nat.
Definition perlWord (c : ascii) : bool :=        (* \w = [0-9A-Za-z_] *)
  let n := code c in
  ((48 <=? n) && (n <=? 57) || (65 <=? n) && (n <=? 90)
   || (97 <=? n) && (n <=? 122) || (n =? 95))%nat.
Definition anyChar (c : ascii) : bool :=         (* . : not a newline *)
  negb (code c =? 10)%nat.

Definition s_ := Class perlSpace.
Definition w_ := Class perlWord.
Definition dot := Class anyChar.

End Regexp.
Import Regexp.

#[local] Infix "⋅" := Cat (at level 41, right associativity).

(** [^def\s+(\w+)\s*\((.*?)\)\s*(?:->.*?)?:] *)
Definition pyFuncRe : regex :=
  Bol ⋅ Lit "def" ⋅ Plus s_ ⋅ Cap 1 (Plus w_) ⋅ Star true s_ ⋅ Lit "("
  ⋅ Cap 2 (Star false dot) ⋅ Lit ")" ⋅ Star true s_
  ⋅ Quest (Lit "->" ⋅ Star false dot) ⋅ Lit ":".

(** [^class\s+(\w+)(?:\(.*?\))?:] *)
Definition pyClassRe : regex :=
  Bol ⋅ Lit "class" ⋅ Plus s_ ⋅ Cap 1 (Plus w_)
  ⋅ Quest (Lit "(" ⋅ Star false dot ⋅ Lit ")") ⋅ Lit ":".

(** [^(?:export\s+)?(?:async\s+)?function\s+(\w+)\s*\((.*?)\)(?:\s*:\s*.*?)?] *)
Definition jsFuncRe : regex :=
  Bol ⋅ Quest (Lit "export" ⋅ Plus s_) ⋅ Quest (Lit "async" ⋅ Plus s_)
  ⋅ Lit "function" ⋅ Plus s_ ⋅ Cap 1 (Plus w_) ⋅ Star true s_ ⋅ Lit "("
  ⋅ Cap 2 (Star false dot) ⋅ Lit ")"
  ⋅ Quest (Star true s_ ⋅ Lit ":" ⋅ Star true s_ ⋅ Star false dot).

(** [^(?:export\s+)?const\s+(\w+)\s*=\s*(?:async\s+)?\((.*?)\)(?:\s*:\s*.*?)?\s*=>] *)
Definition jsArrowRe : regex :=
  Bol ⋅ Quest (Lit "export" ⋅ Plus s_) ⋅ Lit "const" ⋅ Plus s_
  ⋅ Cap 1 (Plus w_) ⋅ Star true s_ ⋅ Lit "=" ⋅ Star true s_
  ⋅ Quest (Lit "async" ⋅ Plus s_) ⋅ Lit "(" ⋅ Cap 2 (Star false dot)
  ⋅ Lit ")"
  ⋅ Quest (Star true s_ ⋅ Lit ":" ⋅ Star true s_ ⋅ Star false dot)
  ⋅ Star true s_ ⋅ Lit "=>".

(** [^(?:export\s+)?(?:abstract\s+)?class\s+(\w+)(?:\s+extends\s+\w+)?(?:\s+implements\s+.*?)?] *)
Definition jsClassRe : regex :=
  Bol ⋅ Quest (Lit "export" ⋅ Plus s_) ⋅ Quest (Lit "abstract" ⋅ Plus s_)
  ⋅ Lit "class" ⋅ Plus s_ ⋅ Cap 1 (Plus w_)
  ⋅ Quest (Plus s_ ⋅ Lit "extends" ⋅ Plus s_ ⋅ Plus w_)
  ⋅ Quest (Plus s_ ⋅ Lit "implements" ⋅ Plus s_ ⋅ Star false dot).

(* ===================================================================== *)
(** * Data model (part_002) *)
(* ===================================================================== *)

(** A value of type [interface{}] that holds decoded JSON.  Numbers are
    carried along and never inspected by the code modelled here. *)
Inductive json :=
| JNull
| JBool (b : bool)
| JNum (n : Z)
| JStr (s : string)
| JArr (l : list json)
| JObj (m : gmap string json).

(** A field of type [map[string]interface{}] is an optional [gmap]: [None]
    is the nil map. *)

Module FunctionSignature.
Record t := mk {
  Name : string;
  Type_ : string;                          (* "function" or "class" *)
  Signature : string;
  Description : string;
  Parameters : option (gmap string json);
  Required : list string
}.
End FunctionSignature.

Module FunctionDescriptor.
Record t := mk {
  Name : string;
  Description : string;
  Parameters : option (gmap string json);
  Required : list string
}.
Definition zero : t := mk "" "" None [].
End FunctionDescriptor.

Module FunctionDef.
Record t := mk {
  Name : string;
  Description : string;
  Parameters : option (gmap string json)
}.
Definition zero : t := mk "" "" None.
End FunctionDef.

Module ToolDefinition.
Record t := mk {
  Type_ : string;
  Function : FunctionDef.t
}.
Definition zero : t := mk "" FunctionDef.zero.
End ToolDefinition.

(** [for i, x := range l { st = body i x st }] *)
Fixpoint forRange {A St : Type} (body : nat → A → St → St)
    (i : nat) (l : list A) (st : St) : St :=
  match l with
  | [] => st
  | x :: l' => forRange body (S i) l' (body i x st)
  end.

(* ===================================================================== *)
(** * Documentation associators (part_000) *)
(* ===================================================================== *)

Definition tripleDouble : string := str (replicate 3 (ascii_of_nat 34)).
Definition tripleSingle : string := "'''".

(** The loop of [extractPythonDocstring] over the lines that follow the
    opening one. *)
Fixpoint docstringLoop (quote : string) (rest docLines : list string)
  : list string :=
  match rest with
  | [] => docLines
  | line :: rest' =>
      if Contains line quote then
        (* Found end quote *)
        let endIdx := Index line quote in
        if 0 <? endIdx
        then docLines ++ [slice line 0 (Z.to_nat endIdx)]
        else docLines
      else docstringLoop quote rest' (docLines ++ [line])
  end.

Definition extractPythonDocstring (lines : list string) (startLine : nat)
  : string :=
  match lines !! startLine with
  | None => ""                              (* startLine >= len(lines) *)
  | Some raw =>
      let line := TrimSpace raw in
      (* Check for triple-quoted docstring *)
      if HasPrefix line tripleDouble || HasPrefix line tripleSingle then
        let quote := slice line 0 3 in
        (* Single line docstring *)
        if (6 <? len line)%nat && HasSuffix line quote
        then Trim (slice line 3 (len line - 3)) (str [" "%char; ascii_of_nat 9])
        else
          (* Multi-line docstring *)
          let docLines := if (3 <? len line)%nat then [sliceFrom line 3] else [] in
          let docLines := docstringLoop quote (drop (S startLine) lines) docLines in
          TrimSpace (Join docLines (str [ascii_of_nat 10]))
      else ""
  end.

(** The backward loop of [extractJSDocComment]: [above] holds the lines
    [lines[i]] for [i = lineNum-1, ..., 0], in the order the loop visits
    them. *)
Fixpoint jsdocLoop (above commentLines : list string) : list string :=
  match above with
  | [] => commentLines
  | raw :: above' =>
      let line := TrimSpace raw in
      if String.eqb line "" then jsdocLoop above' commentLines
      else if HasPrefix line "*/" then
        (* Found end of comment block, continue looking backwards *)
        jsdocLoop above' commentLines
      else if HasPrefix line "*" then
        (* Comment line *)
        let content := TrimSpace (sliceFrom line 1) in
        jsdocLoop above'
          (if negb (String.eqb content "") then content :: commentLines
           else commentLines)
      else if HasPrefix line "/**" then
        (* Found start of JSDoc comment *)
        let content := TrimSpace (sliceFrom line 3) in
        if negb (String.eqb content "") && negb (HasSuffix content "*/")
        then content :: commentLines
        else commentLines
      else
        (* Not a comment line, stop looking *)
        commentLines
  end.

(** [lineNum] is the index of a line of [lines] at every call (the header
    line under examination), so that [lines[i]] is in range for every
    [i < lineNum]; the lines visited are the reversed prefix. *)
Definition extractJSDocComment (lines : list string) (lineNum : nat)
  : string :=
  Join (jsdocLoop (rev (take lineNum lines)) []) " ".

(* ===================================================================== *)
(** * Parameter normalizers (part_000) *)
(* ===================================================================== *)

(** [{"type": "string", "description": "Parameter <name>"}] *)
Definition paramProperty (paramName : string) : json :=
  JObj {[ "type" := JStr "string";
          "description" := JStr ("Parameter " +:+ paramName) ]}.

(** [{"type": "object", "properties": properties}] *)
Definition objectSchema (properties : gmap string json)
  : gmap string json :=
  {[ "type" := JStr "object"; "properties" := JObj properties ]}.

(** The body of the loop of [parsePythonParameters]; the state is the
    pair of [properties] and [required]. *)
Definition pyParamBody (st : gmap string json * list string)
    (param : string) : gmap string json * list string :=
  let '(properties, required) := st in
  let param := TrimSpace param in
  if String.eqb param "" || String.eqb param "self" then st
  else
    (* Skip *args and **kwargs *)
    if HasPrefix param "*" then st
    else
      (* Remove type hints for parsing *)
      let idx := Index param ":" in
      let paramName :=
        if 0 <=? idx then TrimSpace (slice param 0 (Z.to_nat idx))
        else param in
      (* Check if parameter has default value *)
      let hasDefault := Contains param "=" in
      let required :=
        if negb hasDefault then required ++ [paramName] else required in
      let properties :=
        if negb (String.eqb paramName "")
        then <[paramName := paramProperty paramName]> properties
        else properties in
      (properties, required).

(** The rest of [parsePythonParameters] once [params] is split. *)
Definition pyParamLoop (paramList : list string)
  : gmap string json * list string :=
  let '(properties, required) := foldl pyParamBody (∅, []) paramList in
  (objectSchema properties, required).

Definition parsePythonParameters (params : string)
  : gmap string json * list string :=
  if String.eqb params "" then (objectSchema ∅, [])
  else
    (* Split parameters by comma (simple approach) *)
    let paramList := Split params "," in
    pyParamLoop paramList.

Definition jsParamBody (st : gmap string json * list string)
    (param : string) : gmap string json * list string :=
  let '(properties, required) := st in
  let param := TrimSpace param in
  if String.eqb param "" then st
  else
    (* Skip rest/spread parameters *)
    if HasPrefix param "..." then st
    else
      (* Remove type annotations for parsing *)
      let idx := Index param ":" in
      let paramName :=
        if 0 <=? idx then TrimSpace (slice param 0 (Z.to_nat idx))
        else param in
      (* Handle optional parameters (ending with ?) *)
      let isOptional := HasSuffix paramName "?" in
      let paramName :=
        if isOptional then TrimSuffix paramName "?" else paramName in
      (* Check if parameter has default value *)
      let hasDefault := Contains param "=" in
      let required :=
        if negb isOptional && negb hasDefault then required ++ [paramName]
        else required in
      let properties :=
        if negb (String.eqb paramName "")
        then <[paramName := paramProperty paramName]> properties
        else properties in
      (properties, required).

(** The rest of [parseJavaScriptParameters] once [params] is split. *)
Definition jsParamLoop (paramList : list string)
  : gmap string json * list string :=
  let '(properties, required) := foldl jsParamBody (∅, []) paramList in
  (objectSchema properties, required).

Definition parseJavaScriptParameters (params : string)
  : gmap string json * list string :=
  if String.eqb params "" then (objectSchema ∅, [])
  else
    (* Split parameters by comma (simple approach) *)
    let paramList := Split params "," in
    jsParamLoop paramList.

(* ===================================================================== *)
(** * Declaration scanners (part_000) *)
(* ===================================================================== *)

Definition newline : string := str [ascii_of_nat 10].

(** Go's [error] results: [None] is [nil]. *)
Definition error := option string.

(** The second [if] of the loop body of [extractPythonSignatures]. *)
Definition pyClassPart (lines : list string) (i : nat) (line : string)
    (signatures : list FunctionSignature.t) : list FunctionSignature.t :=
  match FindStringSubmatch pyClassRe line with
  | Some classMatch =>
      let name := group classMatch 1 in
      (* Skip private classes (starting with _) *)
      if HasPrefix name "_" then signatures
      else
        let docstring := extractPythonDocstring lines (i + 1) in
        signatures ++ [FunctionSignature.mk name "class" line docstring None []]
  | None => signatures
  end.

(** The loop body of [extractPythonSignatures]; [continue] leaves the
    body with the signatures collected so far. *)
Definition pyBody (lines : list string) (i : nat) (raw : string)
    (signatures : list FunctionSignature.t) : list FunctionSignature.t :=
  let line := TrimSpace raw in
  match FindStringSubmatch pyFuncRe line with
  | Some funcMatch =>
      let name := group funcMatch 1 in
      let params := group funcMatch 2 in
      (* Skip private functions (starting with _) *)
      if HasPrefix name "_" then signatures
      else
        let docstring := extractPythonDocstring lines (i + 1) in
        let '(parameters, required) := parsePythonParameters params in
        pyClassPart lines i line
          (signatures ++ [FunctionSignature.mk name "function" line docstring
                            (Some parameters) required])
  | None => pyClassPart lines i line signatures
  end.

Definition extractPythonSignatures (code : string)
  : list FunctionSignature.t * error :=
  let lines := Split code newline in
  (forRange (pyBody lines) 0 lines [], None).

(** The third [if] of the loop body of [extractJavaScriptSignatures]. *)
Definition jsClassPart (lines : list string) (i : nat) (line : string)
    (signatures : list FunctionSignature.t) : list FunctionSignature.t :=
  match FindStringSubmatch jsClassRe line with
  | Some classMatch =>
      let name := group classMatch 1 in
      (* Skip private classes (starting with _) *)
      if HasPrefix name "_" then signatures
      else
        let jsdoc := extractJSDocComment lines i in
        signatures ++ [FunctionSignature.mk name "class" line jsdoc None []]
  | None => signatures
  end.

(** The second [if]: arrow functions bound by [const]. *)
Definition jsArrowPart (lines : list string) (i : nat) (line : string)
    (signatures : list FunctionSignature.t) : list FunctionSignature.t :=
  match FindStringSubmatch jsArrowRe line with
  | Some arrowMatch =>
      let name := group arrowMatch 1 in
      let params := group arrowMatch 2 in
      (* Skip private functions (starting with _) *)
      if HasPrefix name "_" then signatures
      else
        let jsdoc := extractJSDocComment lines i in
        let '(parameters, required) := parseJavaScriptParameters params in
        jsClassPart lines i line
          (signatures ++ [FunctionSignature.mk name "function" line jsdoc
                            (Some parameters) required])
  | None => jsClassPart lines i line signatures
  end.

Definition jsBody (lines : list string) (i : nat) (raw : string)
    (signatures : list FunctionSignature.t) : list FunctionSignature.t :=
  let line := TrimSpace raw in
  match FindStringSubmatch jsFuncRe line with
  | Some funcMatch =>
      let name := group funcMatch 1 in
      let params := group funcMatch 2 in
      (* Skip private functions (starting with _) *)
      if HasPrefix name "_" then signatures
      else
        let jsdoc := extractJSDocComment lines i in
        let '(parameters, required) := parseJavaScriptParameters params in
        jsArrowPart lines i line
          (signatures ++ [FunctionSignature.mk name "function" line jsdoc
                            (Some parameters) required])
  | None => jsArrowPart lines i line signatures
  end.

Definition extractJavaScriptSignatures (code : string)
  : list FunctionSignature.t * error :=
  let lines := Split code newline in
  (forRange (jsBody lines) 0 lines [], None).

(* ===================================================================== *)
(** * Package [encoding/json] of the Go library *)
(* ===================================================================== *)

(** A function that can fail returns a [result]: the value, or the text of
    the error. *)
Inductive result (A : Type) :=
| Ok (a : A)
| Err (e : string).
Arguments Ok {A} a.
Arguments Err {A} e.

Module Json.

(** [json.Marshal] writes the members of a map sorted by key. *)
Definition members (m : gmap string json) : list (string * json) :=
  merge_sort (λ a b : string * json, String.leb a.1 b.1) (map_to_list m).

(** The case folding under which a member key designates a struct
    field: ASCII letters are folded to upper case, and so are the two
    other runes whose fold orbit holds an ASCII letter, U+017F (long s,
    bytes C5 BF) and U+212A (Kelvin sign, bytes E2 84 AA).  Every other
    byte is kept: a key that holds one never equals the folded name of a
    field, which is ASCII. *)
Fixpoint foldBytes (l : list ascii) : list ascii :=
  match l with
  | [] => []
  | c :: l' =>
      let n := code c in
      if ((97 <=? n) && (n <=? 122))%nat
      then ascii_of_nat (n - 32) :: foldBytes l'
      else match l' with
           | c2 :: l2 =>
               if ((n =? 197) && (code c2 =? 191))%nat
               then "S"%char :: foldBytes l2
               else match l2 with
                    | c3 :: l3 =>
                        if ((n =? 226) && (code c2 =? 132)
                            && (code c3 =? 170))%nat
                        then "K"%char :: foldBytes l3
                        else c :: foldBytes l'
                    | [] => c :: foldBytes l'
                    end
           | [] => c :: foldBytes l'
           end
  end.
Definition foldName (s : string) : string := str (foldBytes (bytes s)).

(** [key] designates the field tagged [name]: the names are equal, or
    equal after folding. *)
Definition designates (key name : string) : bool :=
  String.eqb (foldName key) (foldName name).

(** The [Value] of an [UnmarshalTypeError]. *)
Definition kind (v : json) : string :=
  match v with
  | JNull => "null"
  | JBool _ => "bool"
  | JNum _ => "number"
  | JStr _ => "string"
  | JArr _ => "array"
  | JObj _ => "object"
  end.

(** The [Error] method of [UnmarshalTypeError]; [field] is empty
    outside a struct. *)
Definition typeError (v : json) (type field : string) : string :=
  if String.eqb field ""
  then "json: cannot unmarshal " +:+ kind v
       +:+ " into Go value of type " +:+ type
  else "json: cannot unmarshal " +:+ kind v
       +:+ " into Go struct field FunctionDescriptor." +:+ field
       +:+ " of type " +:+ type.

(** Decoding into a field of type [string]: [null] leaves it as it is. *)
Definition intoString (field : string) (v : json) (cur : string)
  : result string :=
  match v with
  | JNull => Ok cur
  | JStr s => Ok s
  | _ => Err (typeError v "string" field)
  end.

(** Decoding into a field of type [map[string]interface{}]: [null] sets
    the nil map, an object adds its members to the map already there. *)
Definition intoMap (field : string) (v : json)
    (cur : option (gmap string json)) : result (option (gmap string json)) :=
  match v with
  | JNull => Ok None
  | JObj m => Ok (Some (m ∪ default ∅ cur))
  | _ => Err (typeError v "map[string]interface {}" field)
  end.

(** Decoding into a field of type [[]string]: the elements are decoded
    in place, one after the other. *)
Fixpoint intoStrings (field : string) (l : list json) (cur : list string)
  : result (list string) :=
  match l with
  | [] => Ok []
  | v :: l' =>
      match intoString field v (default "" (head cur)) with
      | Err e => Err e
      | Ok s => match intoStrings field l' (tail cur) with
                | Err e => Err e
                | Ok ss => Ok (s :: ss)
                end
      end
  end.
Definition intoSlice (field : string) (v : json) (cur : list string)
  : result (list string) :=
  match v with
  | JNull => Ok []
  | JArr l => intoStrings field l cur
  | _ => Err (typeError v "[]string" field)
  end.

(** One member of an object decoded into a [FunctionDescriptor]; a key
    that designates no field is skipped. *)
Definition intoField (fn : FunctionDescriptor.t) (member : string * json)
  : result FunctionDescriptor.t :=
  let '(key, v) := member in
  let '(FunctionDescriptor.mk name description parameters required) := fn in
  if designates key "name" then
    match intoString "name" v name with
    | Ok name => Ok (FunctionDescriptor.mk name description parameters required)
    | Err e => Err e
    end
  else if designates key "description" then
    match intoString "description" v description with
    | Ok description =>
        Ok (FunctionDescriptor.mk name description parameters required)
    | Err e => Err e
    end
  else if designates key "parameters" then
    match intoMap "parameters" v parameters with
    | Ok parameters =>
        Ok (FunctionDescriptor.mk name description parameters required)
    | Err e => Err e
    end
  else if designates key "required" then
    match intoSlice "required" v required with
    | Ok required =>
        Ok (FunctionDescriptor.mk name description parameters required)
    | Err e => Err e
    end
  else Ok fn.

Fixpoint intoFields (fn : FunctionDescriptor.t)
    (ms : list (string * json)) : result FunctionDescriptor.t :=
  match ms with
  | [] => Ok fn
  | member :: ms' =>
      match intoField fn member with
      | Ok fn' => intoFields fn' ms'
      | Err e => Err e
      end
  end.

(** An element of the array, decoded into a fresh [FunctionDescriptor]. *)
Definition intoDescriptor (v : json) : result FunctionDescriptor.t :=
  match v with
  | JNull => Ok FunctionDescriptor.zero
  | JObj m => intoFields FunctionDescriptor.zero (members m)
  | _ => Err (typeError v "repository.FunctionDescriptor" "")
  end.

Fixpoint intoDescriptors (l : list json)
  : result (list FunctionDescriptor.t) :=
  match l with
  | [] => Ok []
  | v :: l' =>
      match intoDescriptor v with
      | Err e => Err e
      | Ok fn => match intoDescriptors l' with
                 | Err e => Err e
                 | Ok fns => Ok (fn :: fns)
                 end
      end
  end.

(** [json.Unmarshal(data, &functions)] for [functions] of type
    [[]FunctionDescriptor], where [data] is the text of [v].  The
    decoder goes on after a type error and reports the first one it
    met. *)
Definition Unmarshal (v : json) : result (list FunctionDescriptor.t) :=
  match v with
  | JNull => Ok []
  | JArr l => intoDescriptors l
  | _ => Err (typeError v "[]repository.FunctionDescriptor" "")
  end.

(** The values that [json.MarshalIndent] renders. *)
Definition ofMap (m : option (gmap string json)) : json :=
  match m with
  | None => JNull
  | Some m => JObj m
  end.

Definition ofFunctionSignature (s : FunctionSignature.t) : json :=
  let base : gmap string json :=
    {[ "name" := JStr (FunctionSignature.Name s);
       "type" := JStr (FunctionSignature.Type_ s);
       "signature" := JStr (FunctionSignature.Signature s);
       "description" := JStr (FunctionSignature.Description s) ]} in
  let withParameters :=                                   (* omitempty *)
    match FunctionSignature.Parameters s with
    | Some m => if (size m =? 0)%nat then base
                else <["parameters" := JObj m]> base
    | None => base
    end in
  match FunctionSignature.Required s with                 (* omitempty *)
  | [] => JObj withParameters
  | required => JObj (<["required" := JArr (JStr <$> required)]> withParameters)
  end.

Definition ofFunctionDef (f : FunctionDef.t) : json :=
  JObj {[ "name" := JStr (FunctionDef.Name f);
          "description" := JStr (FunctionDef.Description f);
          "parameters" := ofMap (FunctionDef.Parameters f) ]}.

Definition ofToolDefinition (t : ToolDefinition.t) : json :=
  JObj {[ "type" := JStr (ToolDefinition.Type_ t);
          "function" := ofFunctionDef (ToolDefinition.Function t) ]}.

End Json.

(* ===================================================================== *)
(** * Package [path/filepath] of the Go library, on Unix *)
(* ===================================================================== *)

Module Filepath.

(** One path element met by [Clean]; [stack] holds the elements kept so
    far, the last one first. *)
Definition cleanStep (rooted : bool) (stack : list string) (elem : string)
  : list string :=
  if String.eqb elem "" || String.eqb elem "." then stack
  else if String.eqb elem ".." then
    match stack with
    | top :: below =>
        if String.eqb top ".." then elem :: stack else below
    | [] => if rooted then [] else [elem]
    end
  else elem :: stack.

(** [filepath.Clean]: the shortest equivalent path, by purely lexical
    processing. *)
Definition Clean (path : string) : string :=
  if String.eqb path "" then "."
  else
    let rooted := HasPrefix path "/" in
    let body := Join (rev (foldl (cleanStep rooted) [] (Split path "/"))) "/" in
    if rooted then "/" +:+ body
    else if String.eqb body "" then "." else body.

(** [filepath.Join]: the elements from the first non-empty one onwards,
    separated by slashes, then cleaned. *)
Fixpoint Join (elem : list string) : string :=
  match elem with
  | [] => ""
  | e :: elem' =>
      if String.eqb e "" then Join elem'
      else Clean (Strings.Join elem "/")
  end.

Definition IsAbs (path : string) : bool := HasPrefix path "/".

End Filepath.

(* ===================================================================== *)
(** * Tool handlers (part_001) *)
(* ===================================================================== *)

(** What the handlers see of the operating system. *)
Record OS := {
  Getwd : result string;
  ReadFile : string → result string
}.

(** [filepath.Abs] *)
Definition Abs (os : OS) (path : string) : result string :=
  if Filepath.IsAbs path then Ok (Filepath.Clean path)
  else match Getwd os with
       | Err e => Err e
       | Ok wd => Ok (Filepath.Join [wd; path])
       end.

(** The text of a successful result: a string as it is, or the rendering
    by [json.MarshalIndent] of a value (the rendering itself, with its
    indentation and escapes, is not modelled). *)
Inductive text :=
| Plain (s : string)
| Indented (v : json).

(** The handlers return a [*mcp.CallToolResult] and a nil [error]. *)
Inductive CallToolResult :=
| ToolResultText (t : text)
| ToolResultError (msg : string).

(** [RequiredParam[string]] over the arguments of the request. *)
Definition RequiredParam (args : gmap string json) (p : string)
  : result string :=
  match args !! p with
  | None => Err ("missing required parameter: " +:+ p)
  | Some (JStr val) =>
      if String.eqb val "" then Err ("missing required parameter: " +:+ p)
      else Ok val
  | Some _ => Err ("parameter " +:+ p +:+ " is not of type string")
  end.

Definition handleGetFileContent (os : OS) (args : gmap string json)
  : CallToolResult :=
  match RequiredParam args "path" with
  | Err e => ToolResultError e
  | Ok path =>
  (* Get current working directory as repository root *)
  match Getwd os with
  | Err e => ToolResultError ("failed to get working directory: " +:+ e)
  | Ok repoRoot =>
  (* Resolve the full path *)
  let fullPath := Filepath.Join [repoRoot; path] in
  (* Security: ensure the path is within the repository *)
  match Abs os fullPath with
  | Err e => ToolResultError ("failed to resolve path: " +:+ e)
  | Ok cleanPath =>
  match Abs os repoRoot with
  | Err e => ToolResultError ("failed to resolve repository root: " +:+ e)
  | Ok cleanRepoRoot =>
  if negb (HasPrefix cleanPath cleanRepoRoot)
  then ToolResultError "path is outside repository bounds"
  else
    (* Read file content *)
    match ReadFile os cleanPath with
    | Err e => ToolResultError ("failed to read file: " +:+ e)
    | Ok content => ToolResultText (Plain content)
    end
  end end end end.

(** A nil slice is rendered as [null]; [signatures] is nil until the first
    [append]. *)
Definition signaturesJSON (signatures : list FunctionSignature.t) : json :=
  match signatures with
  | [] => JNull
  | _ => JArr (Json.ofFunctionSignature <$> signatures)
  end.

Definition handleExtractSignatures (args : gmap string json)
  : CallToolResult :=
  match RequiredParam args "code" with
  | Err e => ToolResultError e
  | Ok code =>
  match RequiredParam args "language" with
  | Err e => ToolResultError e
  | Ok language =>
  let extracted : option (list FunctionSignature.t * error) :=
    if String.eqb language "python"
    then Some (extractPythonSignatures code)
    else if String.eqb language "javascript" || String.eqb language "typescript"
    then Some (extractJavaScriptSignatures code)
    else None in
  match extracted with
  | None => ToolResultError ("unsupported language: " +:+ language)
  | Some (_, Some e) =>
      ToolResultError ("failed to extract signatures: " +:+ e)
  | Some (signatures, None) =>
      ToolResultText (Indented (signaturesJSON signatures))
  end
  end end.

(** The loop of [handleEmitToolJSON] that fills [tools]. *)
Definition emitBody (i : nat) (fn : FunctionDescriptor.t)
    (tools : list ToolDefinition.t) : list ToolDefinition.t :=
  <[i := ToolDefinition.mk "function"
           (FunctionDef.mk (FunctionDescriptor.Name fn)
                           (FunctionDescriptor.Description fn)
                           (FunctionDescriptor.Parameters fn))]> tools.

Definition emitTools (functions : list FunctionDescriptor.t)
  : list ToolDefinition.t :=
  let tools := replicate (length functions) ToolDefinition.zero in
  forRange emitBody 0 functions tools.

(** [functionsParam] was decoded from JSON: [json.Marshal] cannot fail on
    it, and [json.Unmarshal] reads back the value it stands for. *)
Definition handleEmitToolJSON (args : gmap string json) : CallToolResult :=
  match args !! "functions" with
  | None => ToolResultError "functions parameter is required"
  | Some functionsParam =>
      match Json.Unmarshal functionsParam with
      | Err e => ToolResultError ("failed to unmarshal functions: " +:+ e)
      | Ok functions =>
          if (length functions =? 0)%nat
          then ToolResultError "functions parameter cannot be empty"
          else
            let tools := emitTools functions in
            ToolResultText (Indented (JArr (Json.ofToolDefinition <$> tools)))
      end
  end.

(* ===================================================================== *)
(** * Vocabulary of the specification *)
(* ===================================================================== *)

(** A record is public when its name does not begin with the private
    marker. *)
Definition public (s : FunctionSignature.t) : Prop :=
  HasPrefix (FunctionSignature.Name s) "_" = false.

(** The two parameter normalizers, by dialect. *)
Inductive dialect := Python | JavaScript.

Definition normalize (d : dialect) (params : string)
  : gmap string json * list string :=
  match d with
  | Python => parsePythonParameters params
  | JavaScript => parseJavaScriptParameters params
  end.

Definition normalizeTokens (d : dialect) (tokens : list string)
  : gmap string json * list string :=
  match d with
  | Python => pyParamLoop tokens
  | JavaScript => jsParamLoop tokens
  end.

(** The body of the loop, by dialect. *)
Definition paramBody (d : dialect)
  : gmap string json * list string → string → gmap string json * list string :=
  match d with
  | Python => pyParamBody
  | JavaScript => jsParamBody
  end.

(** The marker of a variadic parameter, and the tokens that carry it. *)
Definition variadicMarker (d : dialect) : string :=
  match d with
  | Python => "*"
  | JavaScript => "..."
  end.

Definition variadic (d : dialect) (token : string) : bool :=
  HasPrefix (TrimSpace token) (variadicMarker d).

(** No name recorded in a state of the loop begins with the variadic
    marker. *)
Definition markerFree (d : dialect) (st : gmap string json * list string)
  : Prop :=
  ∀ name, is_Some (st.1 !! name) ∨ name ∈ st.2 →
          HasPrefix name (variadicMarker d) = false.

(** A token is retained when the normalizer does not skip it. *)
Definition retained (d : dialect) (token : string) : bool :=
  let param := TrimSpace token in
  match d with
  | Python =>
      negb (String.eqb param "" || String.eqb param "self")
      && negb (HasPrefix param "*")
  | JavaScript =>
      negb (String.eqb param "") && negb (HasPrefix param "...")
  end.

Definition hasDefault (token : string) : bool :=
  Contains (TrimSpace token) "=".

(** The [properties] member of a parameter schema. *)
Definition propertiesOf (schema : gmap string json) : gmap string json :=
  match schema !! "properties" with
  | Some (JObj properties) => properties
  | _ => ∅
  end.

(** Lines as the backward scan of [extractJSDocComment] classifies
    them. *)
Definition blank (raw : string) : bool := String.eqb (TrimSpace raw) "".

Definition opener (raw : string) : bool := HasPrefix (TrimSpace raw) "/**".

Definition commentLine (raw : string) : bool :=
  HasPrefix (TrimSpace raw) "*" || opener raw.

(** A non-comment non-blank line. *)
Definition terminator (raw : string) : bool :=
  negb (blank raw) && negb (commentLine raw).

(** A line that begins with [*], is not a block end and has content. *)
Definition contentLine (raw : string) : bool :=
  let line := TrimSpace raw in
  HasPrefix line "*" && negb (HasPrefix line "*/")
  && negb (String.eqb (TrimSpace (sliceFrom line 1)) "").

(** A block comment opened and closed on one line. *)
Definition oneLineJSDoc (raw : string) : Prop :=
  ∃ body : string, TrimSpace raw = "/**" +:+ body +:+ "*/".

(** [path] lies in the directory [root] or is [root] itself; both are
    clean absolute paths. *)
Definition inside (root path : string) : bool :=
  String.eqb path root || String.eqb root "/" || HasPrefix path (root +:+ "/").

(** The languages the facade dispatches on. *)
Definition supported (language : string) : bool :=
  String.eqb language "python" || String.eqb language "javascript"
  || String.eqb language "typescript".

(** The tool definition that corresponds to a descriptor. *)
Definition toolOf (fn : FunctionDescriptor.t) : ToolDefinition.t :=
  ToolDefinition.mk "function"
    (FunctionDef.mk (FunctionDescriptor.Name fn)
                    (FunctionDescriptor.Description fn)
                    (FunctionDescriptor.Parameters fn)).

(** A descriptor as a caller writes it, with its four members. *)
Definition ofFunctionDescriptor (fn : FunctionDescriptor.t) : json :=
  JObj {[ "name" := JStr (FunctionDescriptor.Name fn);
          "description" := JStr (FunctionDescriptor.Description fn);
          "parameters" := Json.ofMap (FunctionDescriptor.Parameters fn);
          "required" := JArr (JStr <$> FunctionDescriptor.Required fn) ]}.

(** An object has no member that designates the field [name]. *)
Definition lacks (m : gmap string json) (name : string) : Prop :=
  ∀ key, is_Some (m !! key) → Json.designates key name = false.

(** Inputs used to exercise the statements below. *)
Definition unlines (lines : list string) : string := Join lines newline.

Definition addDescriptor : FunctionDescriptor.t :=
  FunctionDescriptor.mk "add" "Adds." (Some (objectSchema ∅)) ["a"].

Definition subDescriptor : FunctionDescriptor.t :=
  FunctionDescriptor.mk "sub" "Subtracts." None [].

Definition sampleFunctions : json :=
  JArr [ofFunctionDescriptor addDescriptor; ofFunctionDescriptor subDescriptor].

Definition namelessDescriptor : gmap string json :=
  {[ "description" := JStr "Adds."; "parameters" := JObj ∅ ]}.

Definition strayLines : list string :=
  ["let x = 1;"; " * stray"; "function add(a, b) {"].

(** An operating system with the working directory [/srv/repo] and one
    file, which lies outside of it. *)
Definition sampleOS : OS := {|
  Getwd := Ok "/srv/repo";
  ReadFile p :=
    if String.eqb p "/srv/repo-private/secret.txt" then Ok "secret"
    else Err ("open " +:+ p +:+ ": no such file or directory")
|}.

(* ===================================================================== *)
(** * The rest of the package: listing the files of the repository *)
(* ===================================================================== *)

(** [strings.TrimPrefix] *)
Definition TrimPrefix (s prefix : string) : string :=
  if HasPrefix s prefix then sliceFrom s (len prefix) else s.

Definition isSlash (c : ascii) : bool := (code c =? 47)%nat.

Fixpoint takeWhile (p : ascii → bool) (l : list ascii) : list ascii :=
  match l with
  | c :: l' => if p c then c :: takeWhile p l' else []
  | [] => []
  end.

(** [filepath.Base]: the last element of the path, trailing slashes
    removed first; [.] for the empty path, [/] for a path of slashes. *)
Definition Base (path : string) : string :=
  if String.eqb path "" then "."
  else
    let stripped := dropWhile isSlash (rev (bytes path)) in
    match rev (takeWhile (λ c, negb (isSlash c)) stripped) with
    | [] => "/"
    | last => str last
    end.

(** The loop of [filepath.Ext], from the last byte backwards: [seen] holds
    the bytes passed, in the order of the path. *)
Fixpoint extLoop (back seen : list ascii) : list ascii :=
  match back with
  | [] => []
  | c :: back' =>
      if isSlash c then []
      else if (code c =? 46)%nat then c :: seen
      else extLoop back' (c :: seen)
  end.

(** [filepath.Ext]: the suffix that begins at the last dot of the last
    element, empty when there is no dot. *)
Definition Ext (path : string) : string :=
  str (extLoop (rev (bytes path)) []).

(** [OptionalParam[float64]] and [OptionalParam[string]].  The numbers of
    [json] are the integers: what follows is about requests whose
    [per_page] and [page], when given, are whole numbers. *)
Definition goType (v : json) : string :=
  match v with
  | JNull => "<nil>"
  | JBool _ => "bool"
  | JNum _ => "float64"
  | JStr _ => "string"
  | JArr _ => "[]interface {}"
  | JObj _ => "map[string]interface {}"
  end.

Definition OptionalParamNumber (args : gmap string json) (p : string)
  : result Z :=
  match args !! p with
  | None => Ok 0
  | Some (JNum n) => Ok n
  | Some v => Err ("parameter " +:+ p +:+ " is not of type float64, is "
                   +:+ goType v)
  end.

Definition OptionalParamString (args : gmap string json) (p : string)
  : result string :=
  match args !! p with
  | None => Ok ""
  | Some (JStr s) => Ok s
  | Some v => Err ("parameter " +:+ p +:+ " is not of type string, is "
                   +:+ goType v)
  end.

(** What [filepath.WalkDir] finds at a path: a file (anything that is not
    a directory), a directory with its entries in the order [os.ReadDir]
    gives them, or a directory that cannot be read. *)
Inductive node :=
| File (name : string)
| Dir (name : string) (entries : list node)
| Unreadable (name : string) (e : string).

Definition nodeName (d : node) : string :=
  match d with
  | File name | Dir name _ | Unreadable name _ => name
  end.

(** The directories the callback answers [filepath.SkipDir] for. *)
Definition skipped (name : string) : bool :=
  HasPrefix name "." && negb (String.eqb name ".")
  || String.eqb name "node_modules" || String.eqb name "vendor"
  || String.eqb name "__pycache__" || String.eqb name "dist"
  || String.eqb name "build".

(** [filepath.Rel(repoRoot, path)] for a path that [WalkDir] built from
    [repoRoot] and the names [rel] of directory entries. *)
Definition relPathOf (rel : list string) : string :=
  match rel with
  | [] => "."
  | _ => Join rel "/"
  end.

(** The callback on an entry that is not a directory. *)
Definition visitFile (extension relPath : string) (allFiles : list string)
  : list string :=
  (* Skip hidden files *)
  if HasPrefix (Base relPath) "." then allFiles
  else
    (* Filter by extension if specified *)
    if negb (String.eqb extension "")
       && negb (String.eqb (TrimPrefix (Ext relPath) ".") extension)
    then allFiles
    else allFiles ++ [relPath].

(** [walkDir] with the callback of [handleGetFileList]: an error ends the
    walk, a skipped directory is not read. *)
Fixpoint walkDir (extension : string) (rel : list string) (d : node)
    (allFiles : list string) : result (list string) :=
  match d with
  | File _ => Ok (visitFile extension (relPathOf rel) allFiles)
  | Dir name entries =>
      if skipped name then Ok allFiles
      else
        (fix each (dirs : list node) (allFiles : list string)
           : result (list string) :=
           match dirs with
           | [] => Ok allFiles
           | d1 :: dirs' =>
               match walkDir extension (rel ++ [nodeName d1]) d1 allFiles with
               | Ok allFiles => each dirs' allFiles
               | Err e => Err e
               end
           end) entries allFiles
  | Unreadable name e =>
      if skipped name then Ok allFiles else Err e
  end.

(** [filepath.WalkDir(repoRoot, ...)]; [root] is what [os.Lstat] gives for
    the working directory, whose last element is the name of the node. *)
Definition WalkDir (extension : string) (root : result node)
  : result (list string) :=
  match root with
  | Err e => Err e
  | Ok d => walkDir extension [] d []
  end.

(** Arithmetic on [int], 64 bits wide. *)
Definition wrap (z : Z) : Z := (z + 2 ^ 63) mod 2 ^ 64 - 2 ^ 63.

Section GetFileList.

(** The conversion from [float64] to [int]: exact on the whole numbers
    that an [int] holds, left to the implementation on the others. *)
Variable int : Z → Z.

(** The end of [handleGetFileList]; [None] is the run-time panic of a
    slice expression out of range. *)
Definition paginate (page perPage : Z) (allFiles : list string)
  : option CallToolResult :=
  (* Calculate pagination *)
  let start := wrap (wrap (int page - 1) * int perPage) in
  let end_ := wrap (start + int perPage) in
  let n := Z.of_nat (length allFiles) in
  if n <=? start then Some (ToolResultText (Plain "[]"))
  else
    let end_ := if n <? end_ then n else end_ in
    if (start <? 0) || (end_ <? start) then None
    else
      let pageFiles :=
        take (Z.to_nat (end_ - start)) (drop (Z.to_nat start) allFiles) in
      Some (ToolResultText (Indented (JArr (JStr <$> pageFiles)))).

Definition handleGetFileList (os : OS) (root : result node)
    (args : gmap string json) : option CallToolResult :=
  match OptionalParamNumber args "per_page" with
  | Err e => Some (ToolResultError e)
  | Ok perPage =>
  let perPage := if perPage =? 0 then 100 else perPage in
  match OptionalParamNumber args "page" with
  | Err e => Some (ToolResultError e)
  | Ok page =>
  let page := if page =? 0 then 1 else page in
  match OptionalParamString args "extension" with
  | Err e => Some (ToolResultError e)
  | Ok extension =>
  (* Set limits *)
  let perPage := if 100 <? perPage then 100 else perPage in
  let perPage := if perPage <=? 0 then 100 else perPage in
  let page := if page <=? 0 then 1 else page in
  (* Get current working directory as repository root *)
  match Getwd os with
  | Err e =>
      Some (ToolResultError ("failed to get working directory: " +:+ e))
  | Ok repoRoot =>
  (* Walk through all files in the repository *)
  match WalkDir extension root with
  | Err e => Some (ToolResultError ("failed to walk directory: " +:+ e))
  | Ok allFiles => paginate page perPage allFiles
  end end end end end.

End GetFileList.

(* ===================================================================== *)
(** * The command line (cmd/mcp-prime/main.go) *)
(* ===================================================================== *)

(** [strings.ReplaceAll] for a non-empty [old]: the occurrences are taken
    from the left and do not overlap; [skip] counts the bytes of an
    occurrence still to be passed over. *)
Fixpoint replaceGo (old new s : string) (skip : nat) : string :=
  match s with
  | EmptyString => ""
  | String c s' =>
      match skip with
      | S k => replaceGo old new s' k
      | O => if HasPrefix s old
             then new +:+ replaceGo old new s' (len old - 1)
             else String c (replaceGo old new s' 0)
      end
  end.
Definition ReplaceAll (s old new : string) : string := replaceGo old new s 0.

Definition wordSepNormalizeFunc (name : string) : string :=
  let from := ["_"] in
  let to := "-" in
  foldl (λ name sep, ReplaceAll name sep to) name from.

(* ===================================================================== *)
(** * Vocabulary for the file listing *)
(* ===================================================================== *)





(** A path passes the filters of the callback. *)
Definition shown (extension relPath : string) : Prop :=
  HasPrefix (Base relPath) "." = false
  ∧ (extension = "" ∨ TrimPrefix (Ext relPath) "." = extension).

(** [reaches d names]: below [d], the entries named [names] lead to a
    file, through directories that the walk does not skip. *)
Inductive reaches : node → list string → Prop :=
| reaches_file name : reaches (File name) []
| reaches_dir name entries d names :
    skipped name = false → d ∈ entries → reaches d names →
    reaches (Dir name entries) (nodeName d :: names).

(** [blocked d]: below [d], directories that the walk does not skip lead
    to a directory that cannot be read. *)
Inductive blocked : node → Prop :=
| blocked_here name e : skipped name = false → blocked (Unreadable name e)
| blocked_dir name entries d :
    skipped name = false → d ∈ entries → blocked d →
    blocked (Dir name entries).

(** A tree and an operating system to exercise the statements on. *)
Definition sampleTree : node :=
  Dir "repo" [File ".gitignore"; File "README.md";
              Dir "build" [File "x.py"];
              Dir "src" [File "a.py"; File "b.js";
                         Dir ".cache" [Unreadable "z" "permission denied"]];
              File "z.py"].

Definition blockedTree : node :=
  Dir "repo" [File "README.md"; Dir "src" [Unreadable "gen" "permission denied"]].

(** The byte that stands for [c] in a normalized flag name. *)
Definition hyphenate (c : ascii) : ascii :=
  if (code c =? 95)%nat then "-"%char else c.

(** A state of the loop of a normalizer is coherent: every property
    describes its own key, which is not empty, and every required name
    that is not empty is a property. *)
Definition coherent (st : gmap string json * list string) : Prop :=
  (∀ name v, st.1 !! name = Some v → name ≠ "" ∧ v = paramProperty name)
  ∧ (∀ name, name ∈ st.2 → name ≠ "" → is_Some (st.1 !! name)).

(** The two delimiters of a docstring. *)
Definition docQuote (quote : string) : Prop :=
  quote = tripleDouble ∨ quote = tripleSingle.

(** What the closing line of a docstring contributes: the text before
    the delimiter, when there is some. *)
Definition closingText (quote closing : string) : list string :=
  if 0 <? Index closing quote
  then [slice closing 0 (Z.to_nat (Index closing quote))] else [].

(** What the opening line contributes: the text after the delimiter,
    when there is some. *)
Definition openingText (first : string) : list string :=
  if String.eqb first "" then [] else [first].

(** The opening line [quote ++ first] is not a docstring on one line. *)
Definition staysOpen (quote first : string) : Prop :=
  (6 <? len (quote +:+ first))%nat && HasSuffix (quote +:+ first) quote = false.

(** The text of a comment line: what follows its [*]. *)
Definition starText (raw : string) : string :=
  TrimSpace (sliceFrom (TrimSpace raw) 1).

(** What the opening line of a block comment contributes: the text after
    [/**], unless there is none or the block is closed on that line. *)
Definition openerText (raw : string) : list string :=
  let content := TrimSpace (sliceFrom (TrimSpace raw) 3) in
  if negb (String.eqb content "") && negb (HasSuffix content "*/")
  then [content] else [].

(** A JSON value that can be read as a descriptor: an object, or [null]
    (which leaves the descriptor with its zero value). *)
Definition descriptorLike (v : json) : Prop :=
  v = JNull ∨ ∃ m, v = JObj m.

(** The signatures that the facade extracts for a supported language. *)
Definition extracted (language code : string) : list FunctionSignature.t :=
  if String.eqb language "python" then (extractPythonSignatures code).1
  else (extractJavaScriptSignatures code).1.

(* ===================================================================== *)
(** * What a match of the patterns is *)
(* ===================================================================== *)

(** A state of the matcher: the offset reached, the rest of the input
    and the captures made so far. *)
Definition state : Type := nat * string * gmap nat (nat * nat).

(** [run r a b]: the pattern [r] leads from the state [a] to the state
    [b].  The relation says which matches there are; which one the
    matcher finds first is for [rx] to say. *)
Inductive run : regex → state → state → Prop :=
| run_Empty a : run Empty a a
| run_Bol s caps : run Bol (0%nat, s, caps) (0%nat, s, caps)
| run_Class p pos c s caps :
    p c = true → run (Class p) (pos, String c s, caps) (S pos, s, caps)
| run_Lit l pos s caps :
    HasPrefix s l = true →
    run (Lit l) (pos, s, caps) ((pos + len l)%nat, sliceFrom s (len l), caps)
| run_Cat r1 r2 a b c : run r1 a b → run r2 b c → run (Cat r1 r2) a c
| run_Star_stop greedy r a : run (Star greedy r) a a
| run_Star_more greedy r a b c :
    run r a b → (len b.1.2 < len a.1.2)%nat → run (Star greedy r) b c →
    run (Star greedy r) a c
| run_Quest_skip r a : run (Quest r) a a
| run_Quest_take r a b : run r a b → run (Quest r) a b
| run_Cap n r pos s caps pos' s' caps' :
    run r (pos, s, caps) (pos', s', caps') →
    run (Cap n r) (pos, s, caps) (pos', s', <[n := (pos, pos')]> caps').

(** The capturing groups of a pattern. *)
Fixpoint groups (r : regex) : list nat :=
  match r with
  | Cat r1 r2 => groups r1 ++ groups r2
  | Star _ r' | Quest r' => groups r'
  | Cap n r' => n :: groups r'
  | _ => []
  end.

(** A name as [\w+] reads it: letters, digits and underscores, at least
    one. *)
Definition word (name : string) : Prop :=
  name ≠ "" ∧ Forall (λ c, perlWord c = true) (bytes name).

(** The two bytes that begin a JavaScript header once a leading
    [export] and the white space after it are passed. *)
Definition lead (line : string) : list ascii :=
  take 2 (if HasPrefix line "export"
          then dropWhile perlSpace (drop 6 (bytes line))
          else bytes line).

(** The input [t] does not go on with a byte of the class [p]. *)
Definition stops (p : ascii → bool) (t : string) : Prop :=
  match t with
  | String c _ => p c = false
  | EmptyString => True
  end.

(** A run of white space as [\s+] reads it. *)
Definition spaces (sp : string) : Prop :=
  sp ≠ "" ∧ Forall (λ c, perlSpace c = true) (bytes sp).

(** A parameter list that holds no newline and no closing
    parenthesis. *)
Definition notClose (c : ascii) : bool := negb (code c =? 41)%nat.

Definition plainParameters (params : string) : Prop :=
  Forall (λ c, anyChar c = true ∧ notClose c = true) (bytes params).

(** An optional keyword of a header, with the white space after it. *)
Definition optional (keyword pre : string) : Prop :=
  pre = "" ∨ ∃ sp, spaces sp ∧ pre = keyword +:+ sp.

(** The base classes of a Python class header, when there are some. *)
Definition inherits (bases : string) : Prop :=
  bases = "" ∨ ∃ b, plainParameters b ∧ bases = "(" +:+ b +:+ ")".

(** White space that may be missing, as [\s*] reads it. *)
Definition blanks (sp : string) : Prop :=
  Forall (λ c, perlSpace c = true) (bytes sp).

(** An element of a path that [Clean] keeps as it is: a name without a
    slash that is not empty, [.] or [..]. *)
Definition slashFree (elem : string) : Prop := "/"%char ∉ bytes elem.

Definition plain (elem : string) : Prop :=
  elem ≠ "" ∧ elem ≠ "." ∧ elem ≠ ".." ∧ slashFree elem.

(** A comparison of byte codes that the context refutes. *)
Ltac never test :=
  replace test with false
    by (symmetry; first [apply Nat.eqb_neq | apply Nat.leb_gt]; lia).

(* ===================================================================== *)
(** * Loops *)
(* ===================================================================== *)

Section ForRange.
Context {A St : Type} (body : nat → A → St → St).

(** An invariant of the body is an invariant of the loop. *)
Lemma forRange_invariant (P : St → Prop) :
  (∀ i x st, P st → P (body i x st)) →
  ∀ l i st, P st → P (forRange body i l st).
Proof.
  intros Hbody l. induction l as [|x l IH]; intros i st Hst; simpl.
  - exact Hst.
  - apply IH, Hbody, Hst.
Qed.
End ForRange.

(* ===================================================================== *)
(** * The privacy filter *)
(* ===================================================================== *)

Lemma Forall_public_snoc sigs name type line doc params required :
  Forall public sigs → HasPrefix name "_" = false →
  Forall public
    (sigs ++ [FunctionSignature.mk name type line doc params required]).
Proof.
  intros Hsigs Hname. apply Forall_app. split; [exact Hsigs|].
  constructor; [exact Hname | constructor].
Qed.

Lemma pyClassPart_public lines i line sigs :
  Forall public sigs → Forall public (pyClassPart lines i line sigs).
Proof.
  intros Hsigs. unfold pyClassPart.
  destruct (FindStringSubmatch pyClassRe line) as [m|]; [|exact Hsigs].
  destruct (HasPrefix (group m 1) "_") eqn:Hname; [exact Hsigs|].
  by apply Forall_public_snoc.
Qed.

Lemma pyBody_public lines i raw sigs :
  Forall public sigs → Forall public (pyBody lines i raw sigs).
Proof.
  intros Hsigs. unfold pyBody.
  destruct (FindStringSubmatch pyFuncRe (TrimSpace raw)) as [m|].
  - destruct (HasPrefix (group m 1) "_") eqn:Hname; [exact Hsigs|].
    destruct (parsePythonParameters (group m 2)) as [parameters required].
    by apply pyClassPart_public, Forall_public_snoc.
  - by apply pyClassPart_public.
Qed.

Lemma jsClassPart_public lines i line sigs :
  Forall public sigs → Forall public (jsClassPart lines i line sigs).
Proof.
  intros Hsigs. unfold jsClassPart.
  destruct (FindStringSubmatch jsClassRe line) as [m|]; [|exact Hsigs].
  destruct (HasPrefix (group m 1) "_") eqn:Hname; [exact Hsigs|].
  by apply Forall_public_snoc.
Qed.

Lemma jsArrowPart_public lines i line sigs :
  Forall public sigs → Forall public (jsArrowPart lines i line sigs).
Proof.
  intros Hsigs. unfold jsArrowPart.
  destruct (FindStringSubmatch jsArrowRe line) as [m|].
  - destruct (HasPrefix (group m 1) "_") eqn:Hname; [exact Hsigs|].
    destruct (parseJavaScriptParameters (group m 2)) as [parameters required].
    by apply jsClassPart_public, Forall_public_snoc.
  - by apply jsClassPart_public.
Qed.

Lemma jsBody_public lines i raw sigs :
  Forall public sigs → Forall public (jsBody lines i raw sigs).
Proof.
  intros Hsigs. unfold jsBody.
  destruct (FindStringSubmatch jsFuncRe (TrimSpace raw)) as [m|].
  - destruct (HasPrefix (group m 1) "_") eqn:Hname; [exact Hsigs|].
    destruct (parseJavaScriptParameters (group m 2)) as [parameters required].
    by apply jsArrowPart_public, Forall_public_snoc.
  - by apply jsArrowPart_public.
Qed.

(** A function header with a private name leaves the loop body at once:
    the line gives no record, whatever else it could match. *)
Lemma private_python_function_is_skipped lines i raw sigs m :
  FindStringSubmatch pyFuncRe (TrimSpace raw) = Some m →
  HasPrefix (group m 1) "_" = true →
  pyBody lines i raw sigs = sigs.
Proof. intros Hm Hname. unfold pyBody. by rewrite Hm, Hname. Qed.

Lemma private_javascript_function_is_skipped lines i raw sigs m :
  FindStringSubmatch jsFuncRe (TrimSpace raw) = Some m →
  HasPrefix (group m 1) "_" = true →
  jsBody lines i raw sigs = sigs.
Proof. intros Hm Hname. unfold jsBody. by rewrite Hm, Hname. Qed.

(** C1.  Whatever the source text, Python or JavaScript/TypeScript, no
    record returned by the extraction, function or class, has a name that
    begins with [_]: a header with such a name is left without a record
    where it is recognized.  The extraction itself never fails. *)
Theorem extraction_is_public (code : string) :
  (∃ sigs, extractPythonSignatures code = (sigs, None) ∧ Forall public sigs)
  ∧ (∃ sigs, extractJavaScriptSignatures code = (sigs, None)
             ∧ Forall public sigs).
Proof.
  split; eexists; (split; [reflexivity|]);
    apply forRange_invariant; try constructor; intros i x st.
  - apply pyBody_public.
  - apply jsBody_public.
Qed.

(* ===================================================================== *)
(** * Facts about strings *)
(* ===================================================================== *)

Lemma bytes_str l : bytes (str l) = l.
Proof. apply String.list_ascii_of_string_of_list_ascii. Qed.

Lemma str_bytes s : str (bytes s) = s.
Proof. apply String.string_of_list_ascii_of_string. Qed.

Lemma bytes_inj s t : bytes s = bytes t → s = t.
Proof. intros H. rewrite <- (str_bytes s), <- (str_bytes t). by f_equal. Qed.

Lemma bytes_app s t : bytes (s +:+ t) = bytes s ++ bytes t.
Proof. induction s as [|c s IH]; simpl; [done|]. by f_equal. Qed.

Lemma len_bytes s : len s = length (bytes s).
Proof. induction s as [|c s IH]; simpl; [done|]. by f_equal. Qed.

Lemma bytes_substring s : ∀ n m,
  bytes (String.substring n m s) = take m (drop n (bytes s)).
Proof.
  induction s as [|c s IH]; intros [|n] [|m]; simpl; try done.
  f_equal. apply (IH 0%nat m).
Qed.

Lemma bytes_slice0 s n : bytes (slice s 0 n) = take n (bytes s).
Proof. unfold slice. rewrite bytes_substring, Nat.sub_0_r. by rewrite drop_0. Qed.

Lemma bytes_sliceFrom s n : bytes (sliceFrom s n) = drop n (bytes s).
Proof.
  unfold sliceFrom. rewrite bytes_substring, len_bytes.
  apply take_ge. rewrite length_drop. lia.
Qed.

Lemma eqb_empty s : String.eqb s "" = true ↔ s = "".
Proof. apply String.eqb_eq. Qed.

Lemma HasPrefix_spec s p : HasPrefix s p = true ↔ bytes p `prefix_of` bytes s.
Proof.
  unfold HasPrefix. revert s.
  induction p as [|a p IH]; intros s; simpl.
  - split; [intros _; apply prefix_nil | by destruct s].
  - destruct s as [|b s]; simpl.
    + split; [done|]. intros [k Hk]. discriminate.
    + destruct (ascii_dec a b) as [->|Hab].
      * rewrite IH. split; [apply prefix_cons|].
        intros H. by eapply prefix_cons_inv_2.
      * split; [done|]. intros H. by apply prefix_cons_inv_1 in H.
Qed.

Lemma HasPrefix_false_mono s t p :
  bytes t `prefix_of` bytes s → HasPrefix s p = false → HasPrefix t p = false.
Proof.
  intros Hts Hs. destruct (HasPrefix t p) eqn:Ht; [|done].
  apply HasPrefix_spec in Ht.
  assert (HasPrefix s p = true) as Hs'; [|congruence].
  apply HasPrefix_spec. by etrans.
Qed.

Lemma HasSuffix_app s suffix : HasSuffix (s +:+ suffix) suffix = true.
Proof.
  unfold HasSuffix. apply andb_true_iff. split.
  - apply Nat.leb_le. rewrite !len_bytes, bytes_app, length_app. lia.
  - apply String.eqb_eq, bytes_inj.
    rewrite bytes_sliceFrom, !len_bytes, bytes_app, length_app.
    replace (length (bytes s) + length (bytes suffix) - length (bytes suffix))%nat
      with (length (bytes s)) by lia.
    by rewrite drop_app_length.
Qed.

Lemma TrimSuffix_prefix s suffix :
  bytes (TrimSuffix s suffix) `prefix_of` bytes s.
Proof.
  unfold TrimSuffix. destruct (HasSuffix s suffix); [|done].
  rewrite bytes_slice0. apply prefix_take.
Qed.

(** ** White space *)

Lemma trimLeftSpace_eq l :
  trimLeftSpace l =
  match l with
  | [] => []
  | c1 :: r1 =>
      if asciiSpace c1 then trimLeftSpace r1 else
      match r1 with
      | [] => l
      | c2 :: r2 =>
          if space2 c1 c2 then trimLeftSpace r2 else
          match r2 with
          | [] => l
          | c3 :: r3 => if space3 c1 c2 c3 then trimLeftSpace r3 else l
          end
      end
  end.
Proof. by destruct l. Qed.

Lemma trimLeftSpaceRev_eq l :
  trimLeftSpaceRev l =
  match l with
  | [] => []
  | c1 :: r1 =>
      if asciiSpace c1 then trimLeftSpaceRev r1 else
      match r1 with
      | [] => l
      | c2 :: r2 =>
          if space2 c2 c1 then trimLeftSpaceRev r2 else
          match r2 with
          | [] => l
          | c3 :: r3 => if space3 c3 c2 c1 then trimLeftSpaceRev r3 else l
          end
      end
  end.
Proof. by destruct l. Qed.

(** Induction on lists where the hypothesis holds for every shorter
    list: the trimming functions recurse one, two or three bytes down. *)
Lemma list_length_ind {A} (P : list A → Prop) :
  (∀ l, (∀ k, (length k < length l)%nat → P k) → P l) → ∀ l, P l.
Proof.
  intros Hstep l. remember (length l) as n eqn:Hn.
  revert l Hn. induction (lt_wf n) as [n _ IH]. intros l ->.
  apply Hstep. intros k Hk. by eapply IH.
Qed.

Lemma trimLeftSpace_suffix l : trimLeftSpace l `suffix_of` l.
Proof.
  induction l as [l IH] using list_length_ind.
  rewrite trimLeftSpace_eq. destruct l as [|c1 [|c2 [|c3 r3]]]; [done|..];
    repeat match goal with |- context [if ?b then _ else _] => destruct b end;
    try done;
    match goal with
    | |- trimLeftSpace ?k `suffix_of` _ =>
        trans k; [apply IH; simpl; lia|];
        solve [repeat first [done | apply suffix_cons_r]]
    end.
Qed.

Lemma trimLeftSpaceRev_suffix l : trimLeftSpaceRev l `suffix_of` l.
Proof.
  induction l as [l IH] using list_length_ind.
  rewrite trimLeftSpaceRev_eq. destruct l as [|c1 [|c2 [|c3 r3]]]; [done|..];
    repeat match goal with |- context [if ?b then _ else _] => destruct b end;
    try done;
    match goal with
    | |- trimLeftSpaceRev ?k `suffix_of` _ =>
        trans k; [apply IH; simpl; lia|];
        solve [repeat first [done | apply suffix_cons_r]]
    end.
Qed.

Lemma trimRightSpace_prefix l : trimRightSpace l `prefix_of` l.
Proof.
  unfold trimRightSpace.
  destruct (trimLeftSpaceRev_suffix (rev l)) as [k Hk].
  exists (rev k). apply (f_equal (@rev ascii)) in Hk.
  by rewrite rev_involutive, rev_app_distr in Hk.
Qed.

(** A list is trimmed on the left when trimming leaves it as it is. *)
Lemma trimLeftSpace_idem l : trimLeftSpace (trimLeftSpace l) = trimLeftSpace l.
Proof.
  induction l as [l IH] using list_length_ind.
  rewrite (trimLeftSpace_eq l). destruct l as [|c1 [|c2 [|c3 r3]]]; [done|..].
  - destruct (asciiSpace c1) eqn:H1; [done|].
    rewrite trimLeftSpace_eq. by rewrite H1.
  - destruct (asciiSpace c1) eqn:H1; [apply IH; simpl; lia|].
    destruct (space2 c1 c2) eqn:H2; [done|].
    rewrite trimLeftSpace_eq. by rewrite H1, H2.
  - destruct (asciiSpace c1) eqn:H1; [apply IH; simpl; lia|].
    destruct (space2 c1 c2) eqn:H2; [apply IH; simpl; lia|].
    destruct (space3 c1 c2 c3) eqn:H3; [apply IH; simpl; lia|].
    rewrite trimLeftSpace_eq. by rewrite H1, H2, H3.
Qed.

Lemma suffix_shorter {A} (k l : list A) x :
  k `suffix_of` l → k ≠ x :: l.
Proof.
  intros Hsuf ->. apply suffix_length in Hsuf. simpl in Hsuf. lia.
Qed.

Lemma trimLeftSpace_drop l n :
  (0 < n)%nat → (n ≤ length l)%nat → trimLeftSpace (drop n l) ≠ l.
Proof.
  intros Hn Hl Heq.
  pose proof (suffix_length _ _ (trimLeftSpace_suffix (drop n l))) as Hlen.
  rewrite Heq, length_drop in Hlen. lia.
Qed.

(** A prefix of a list trimmed on the left is trimmed on the left. *)
Lemma trimLeftSpace_prefix_fixed l p :
  trimLeftSpace l = l → p `prefix_of` l → trimLeftSpace p = p.
Proof.
  intros Hl [k ->]. rewrite trimLeftSpace_eq in Hl. rewrite trimLeftSpace_eq.
  destruct p as [|c1 [|c2 [|c3 r3]]]; [done|..]; simpl in Hl.
  - destruct (asciiSpace c1); [|done].
    by apply (trimLeftSpace_drop (c1 :: k) 1) in Hl; simpl; try lia.
  - destruct (asciiSpace c1).
    { by apply (trimLeftSpace_drop (c1 :: c2 :: k) 1) in Hl; simpl; try lia. }
    destruct (space2 c1 c2); [|done].
    by apply (trimLeftSpace_drop (c1 :: c2 :: k) 2) in Hl; simpl; try lia.
  - destruct (asciiSpace c1).
    { by apply (trimLeftSpace_drop (c1 :: c2 :: c3 :: r3 ++ k) 1) in Hl;
        simpl; try lia. }
    destruct (space2 c1 c2).
    { by apply (trimLeftSpace_drop (c1 :: c2 :: c3 :: r3 ++ k) 2) in Hl;
        simpl; try lia. }
    destruct (space3 c1 c2 c3); [|done].
    by apply (trimLeftSpace_drop (c1 :: c2 :: c3 :: r3 ++ k) 3) in Hl;
      simpl; try lia.
Qed.

Lemma bytes_TrimSpace s :
  bytes (TrimSpace s) = trimRightSpace (trimLeftSpace (bytes s)).
Proof. unfold TrimSpace. apply bytes_str. Qed.

(** What [TrimSpace] returns is trimmed on the left. *)
Lemma TrimSpace_left_fixed s :
  trimLeftSpace (bytes (TrimSpace s)) = bytes (TrimSpace s).
Proof.
  rewrite bytes_TrimSpace.
  eapply trimLeftSpace_prefix_fixed; [apply trimLeftSpace_idem|].
  apply trimRightSpace_prefix.
Qed.

(** Trimming a prefix of a trimmed string only shortens it at the end. *)
Lemma TrimSpace_of_prefix s q :
  bytes q `prefix_of` bytes (TrimSpace s) →
  bytes (TrimSpace q) `prefix_of` bytes (TrimSpace s).
Proof.
  intros Hq. etrans; [|exact Hq].
  rewrite (bytes_TrimSpace q).
  rewrite (trimLeftSpace_prefix_fixed _ _ (TrimSpace_left_fixed s) Hq).
  apply trimRightSpace_prefix.
Qed.

(* ===================================================================== *)
(** * The parameter normalizers *)
(* ===================================================================== *)

Lemma normalizeTokens_eq d tokens :
  normalizeTokens d tokens =
  (objectSchema (foldl (paramBody d) (∅, []) tokens).1,
   (foldl (paramBody d) (∅, []) tokens).2).
Proof.
  destruct d; simpl; unfold pyParamLoop, jsParamLoop;
    by destruct (foldl _ _ _).
Qed.

Lemma normalize_nonempty d params :
  params ≠ "" → normalize d params = normalizeTokens d (Split params ",").
Proof.
  intros Hne. destruct d; simpl;
    unfold parsePythonParameters, parseJavaScriptParameters;
    by destruct (String.eqb_spec params "").
Qed.

Lemma normalize_empty d : normalize d "" = (objectSchema ∅, []).
Proof. by destruct d. Qed.

Lemma propertiesOf_objectSchema properties :
  propertiesOf (objectSchema properties) = properties.
Proof.
  unfold propertiesOf, objectSchema.
  rewrite lookup_insert_ne by done. by rewrite lookup_singleton_eq.
Qed.

(** ** Parameters with a default value are not required *)

Lemma paramBody_required_nil d properties token :
  (retained d token = true → hasDefault token = true) →
  (paramBody d (properties, []) token).2 = [].
Proof.
  unfold retained, hasDefault. intros Hdef.
  destruct d; simpl; unfold pyParamBody, jsParamBody.
  - destruct (String.eqb _ "" || String.eqb _ "self"); [done|].
    destruct (HasPrefix _ "*"); [done|].
    by rewrite Hdef.
  - destruct (String.eqb _ ""); [done|].
    destruct (HasPrefix _ "..."); [done|].
    rewrite Hdef by done. by rewrite andb_false_r.
Qed.

Lemma paramLoop_required_nil d tokens : ∀ properties,
  (∀ token, token ∈ tokens → retained d token = true → hasDefault token = true) →
  (foldl (paramBody d) (properties, []) tokens).2 = [].
Proof.
  induction tokens as [|token tokens IH]; intros properties Hdef; [done|].
  simpl.
  pose proof (paramBody_required_nil d properties token) as Hstep.
  destruct (paramBody d (properties, []) token) as [properties' required'].
  simpl in Hstep. rewrite Hstep.
  - apply IH. intros t Ht. apply Hdef. by right.
  - apply Hdef. by left.
Qed.

(** C5.  In both normalizers, when every token of the parameter list
    that the normalizer retains holds a default value (a [=]), the list
    of required parameters is empty. *)
Theorem all_defaults_no_required (d : dialect) (params : string) :
  (∀ token, token ∈ Split params "," →
            retained d token = true → hasDefault token = true) →
  (normalize d params).2 = [].
Proof.
  intros Hdef. destruct (decide (params = "")) as [->|Hne].
  - by rewrite normalize_empty.
  - rewrite normalize_nonempty, normalizeTokens_eq by done.
    by apply paramLoop_required_nil.
Qed.

Lemma all_defaults_no_required_witness :
  (normalize Python "self, a=1, b: int = 2, *rest").2 = []
  ∧ (normalize JavaScript "a = 1, b: number = 2, ...rest").2 = [].
Proof.
  split.
  - apply (all_defaults_no_required Python "self, a=1, b: int = 2, *rest").
    intros token Htoken.
    assert (token ∈ ["self"; " a=1"; " b: int = 2"; " *rest"]) as Hin
      by exact Htoken.
    clear Htoken. repeat (apply elem_of_cons in Hin as [->|Hin]; [by vm_compute|]).
    by apply elem_of_nil in Hin.
  - apply (all_defaults_no_required JavaScript "a = 1, b: number = 2, ...rest").
    intros token Htoken.
    assert (token ∈ ["a = 1"; " b: number = 2"; " ...rest"]) as Hin
      by exact Htoken.
    clear Htoken. repeat (apply elem_of_cons in Hin as [->|Hin]; [by vm_compute|]).
    by apply elem_of_nil in Hin.
Defined.

(** ** Variadic parameters are left out *)

Lemma paramBody_variadic d st token :
  variadic d token = true → paramBody d st token = st.
Proof.
  unfold variadic. intros Hvar. destruct st as [properties required].
  destruct d; simpl in *; unfold pyParamBody, jsParamBody; rewrite Hvar.
  - by destruct (String.eqb _ "" || String.eqb _ "self").
  - by destruct (String.eqb _ "").
Qed.

Lemma paramLoop_variadic d before token after st :
  variadic d token = true →
  foldl (paramBody d) st (before ++ token :: after)
  = foldl (paramBody d) st (before ++ after).
Proof.
  intros Hvar. rewrite !foldl_app. simpl. by rewrite paramBody_variadic.
Qed.

(** The name cut out of a token is a prefix of the trimmed token. *)
Lemma paramName_prefix token :
  let param := TrimSpace token in
  let idx := Index param ":" in
  bytes (if 0 <=? idx then TrimSpace (slice param 0 (Z.to_nat idx)) else param)
    `prefix_of` bytes param.
Proof.
  simpl. destruct (0 <=? _); [|done].
  apply TrimSpace_of_prefix. rewrite bytes_slice0. apply prefix_take.
Qed.

Lemma markerFree_record d st name (optional : bool) :
  markerFree d st → HasPrefix name (variadicMarker d) = false →
  markerFree d
    (if negb (String.eqb name "")
     then <[name := paramProperty name]> st.1 else st.1,
     if optional then st.2 ++ [name] else st.2).
Proof.
  intros Hst Hname n [Hn|Hn]; simpl in Hn.
  - destruct (negb _); [|by apply Hst; left].
    destruct (decide (name = n)) as [<-|Hne]; [done|].
    rewrite lookup_insert_ne in Hn by done. by apply Hst; left.
  - destruct optional; [|by apply Hst; right].
    apply elem_of_app in Hn as [Hn|Hn]; [by apply Hst; right|].
    by apply list_elem_of_singleton in Hn as ->.
Qed.

Lemma paramBody_markerFree d st token :
  markerFree d st → markerFree d (paramBody d st token).
Proof.
  intros Hst. destruct st as [properties required].
  pose proof (paramName_prefix token) as Hpre. simpl in Hpre.
  destruct d; simpl; unfold pyParamBody, jsParamBody.
  - destruct (String.eqb _ "" || String.eqb _ "self"); [exact Hst|].
    destruct (HasPrefix (TrimSpace token) "*") eqn:Hvar; [exact Hst|].
    apply (markerFree_record Python (properties, required)); [exact Hst|].
    by eapply HasPrefix_false_mono.
  - destruct (String.eqb _ ""); [exact Hst|].
    destruct (HasPrefix (TrimSpace token) "...") eqn:Hvar; [exact Hst|].
    set (name := if 0 <=? _ then _ else _) in *.
    apply (markerFree_record JavaScript (properties, required)); [exact Hst|].
    apply (HasPrefix_false_mono (TrimSpace token)); [|done].
    destruct (HasSuffix name "?"); [|done].
    etrans; [apply TrimSuffix_prefix | done].
Qed.

Lemma paramLoop_markerFree d tokens : ∀ st,
  markerFree d st → markerFree d (foldl (paramBody d) st tokens).
Proof.
  induction tokens as [|token tokens IH]; intros st Hst; [done|].
  simpl. by apply IH, paramBody_markerFree.
Qed.

Lemma normalize_markerFree d params name :
  name ∈ dom (propertiesOf ((normalize d params).1)) ∨ name ∈ (normalize d params).2 →
  HasPrefix name (variadicMarker d) = false.
Proof.
  destruct (decide (params = "")) as [->|Hne].
  - rewrite normalize_empty. simpl. rewrite propertiesOf_objectSchema.
    intros [H|H]; [by apply elem_of_dom in H as [? ?]|by apply elem_of_nil in H].
  - rewrite normalize_nonempty, normalizeTokens_eq by done. simpl.
    rewrite propertiesOf_objectSchema. intros H.
    apply (paramLoop_markerFree d (Split params ",") (∅, [])).
    + intros n [[? Hn]|Hn]; simpl in Hn; [done|by apply elem_of_nil in Hn].
    + destruct H as [H|H]; [left; by apply elem_of_dom|by right].
Qed.

(** C6.  A token of the parameter list that begins with the variadic
    marker ([*] in Python, which covers [*args] and [**kwargs]; [...] in
    JavaScript/TypeScript) contributes nothing: the result is the one of
    the list without the token, and the token is neither a key of
    [properties] nor an entry of the required parameters. *)
Theorem variadic_contributes_nothing (d : dialect) (params : string)
    (before : list string) (token : string) (after : list string) :
  Split params "," = before ++ token :: after →
  variadic d token = true →
  normalize d params = normalizeTokens d (before ++ after)
  ∧ (TrimSpace token ∉ dom (propertiesOf ((normalize d params).1)))
  ∧ (TrimSpace token ∉ (normalize d params).2).
Proof.
  intros Hsplit Hvar. split; [|split].
  - assert (params ≠ "") as Hne.
    { intros ->. change (Split "" ",") with [""] in Hsplit.
      destruct before as [|? [|? ?]]; simplify_eq/=.
      by destruct d; vm_compute in Hvar. }
    rewrite normalize_nonempty, Hsplit, !normalizeTokens_eq by done.
    by rewrite paramLoop_variadic.
  - intros Hin. unfold variadic in Hvar.
    by rewrite (normalize_markerFree d params (TrimSpace token)) in Hvar; [|left].
  - intros Hin. unfold variadic in Hvar.
    by rewrite (normalize_markerFree d params (TrimSpace token)) in Hvar; [|right].
Qed.

Lemma variadic_contributes_nothing_witness :
  (normalize Python "name: str, *args, **kwargs"
     = normalizeTokens Python ["name: str"; " **kwargs"]
   ∧ ("*args" ∉ dom (propertiesOf ((normalize Python "name: str, *args, **kwargs").1)))
   ∧ ("*args" ∉ (normalize Python "name: str, *args, **kwargs").2))
  ∧ (normalize JavaScript "a, ...rest" = normalizeTokens JavaScript ["a"]
   ∧ ("...rest" ∉ dom (propertiesOf ((normalize JavaScript "a, ...rest").1)))
   ∧ ("...rest" ∉ (normalize JavaScript "a, ...rest").2)).
Proof.
  split.
  - apply (variadic_contributes_nothing Python "name: str, *args, **kwargs"
             ["name: str"] " *args" [" **kwargs"]); reflexivity.
  - apply (variadic_contributes_nothing JavaScript "a, ...rest"
             ["a"] " ...rest" []); reflexivity.
Defined.

(* ===================================================================== *)
(** * The documentation associator of JavaScript/TypeScript *)
(* ===================================================================== *)

Lemma extractJSDocComment_above above rest :
  extractJSDocComment (above ++ rest) (length above)
  = Join (jsdocLoop (rev above) []) " ".
Proof. unfold extractJSDocComment. by rewrite take_app_length. Qed.

Lemma HasPrefix_block_end line :
  HasPrefix line "*" = false → HasPrefix line "*/" = false.
Proof.
  intros Hstar. destruct (HasPrefix line "*/") eqn:Hend; [|done].
  apply HasPrefix_spec in Hend. destruct Hend as [k Hk].
  assert (HasPrefix line "*" = true) as H; [|congruence].
  apply HasPrefix_spec. exists ("/"%char :: k). by rewrite Hk.
Qed.

(** A blank line is passed over. *)
Lemma jsdocLoop_blank below line above : ∀ commentLines,
  blank line = true →
  jsdocLoop (below ++ line :: above) commentLines
  = jsdocLoop (below ++ above) commentLines.
Proof.
  unfold blank. intros commentLines Hblank. revert commentLines.
  induction below as [|raw below IH]; intros commentLines; simpl.
  - by rewrite Hblank.
  - by rewrite !IH.
Qed.

(** The loop stops on a line that is neither blank nor a comment. *)
Lemma jsdocLoop_terminator below line above : ∀ commentLines,
  terminator line = true →
  jsdocLoop (below ++ line :: above) commentLines
  = jsdocLoop below commentLines.
Proof.
  unfold terminator, commentLine, blank, opener. intros commentLines Hterm.
  apply andb_true_iff in Hterm as [Hblank Hcomment].
  apply negb_true_iff in Hblank. apply negb_true_iff, orb_false_iff in Hcomment.
  destruct Hcomment as [Hstar Hopen].
  revert commentLines.
  induction below as [|raw below IH]; intros commentLines; simpl.
  - by rewrite Hblank, (HasPrefix_block_end _ Hstar), Hstar, Hopen.
  - by rewrite !IH.
Qed.

(** Lines without content and without an opener leave nothing. *)
Lemma jsdocLoop_quiet lines :
  Forall (λ raw, contentLine raw = false ∧ opener raw = false) lines →
  jsdocLoop lines [] = [].
Proof.
  unfold contentLine, opener.
  induction 1 as [|raw lines [Hcontent Hopen] _ IH]; simpl; [done|].
  destruct (String.eqb (TrimSpace raw) ""); [done|].
  destruct (HasPrefix (TrimSpace raw) "*/"); [done|].
  destruct (HasPrefix (TrimSpace raw) "*"); simpl in Hcontent.
  - apply negb_false_iff in Hcontent. by rewrite Hcontent.
  - by rewrite Hopen.
Qed.

(** C7, as the code has it.  In the backward scan from the line above a
    header, a blank line is skipped without breaking the scan; a line
    that is neither blank nor a comment ends the scan at once, so that
    neither this line nor any line above it contributes; and when the
    lines above the header hold no [*] line with content and no line
    that starts with [/**], the description is the empty string. *)
Theorem jsdoc_backward_scan (above : list string) (line : string)
    (below rest : list string) :
  (blank line = true →
   extractJSDocComment (above ++ line :: below ++ rest)
                       (length (above ++ line :: below))
   = extractJSDocComment (above ++ below ++ rest) (length (above ++ below)))
  ∧ (terminator line = true →
     extractJSDocComment (above ++ line :: below ++ rest)
                         (length (above ++ line :: below))
     = extractJSDocComment (below ++ rest) (length below))
  ∧ (Forall (λ raw, contentLine raw = false ∧ opener raw = false)
            (above ++ line :: below) →
     extractJSDocComment (above ++ line :: below ++ rest)
                         (length (above ++ line :: below))
     = "").
Proof.
  replace (above ++ line :: below ++ rest)
    with ((above ++ line :: below) ++ rest) by by rewrite <- app_assoc.
  replace (above ++ below ++ rest)
    with ((above ++ below) ++ rest) by by rewrite <- app_assoc.
  rewrite !extractJSDocComment_above, !rev_app_distr. simpl.
  rewrite <- !app_assoc. simpl. split; [|split].
  - intros Hblank. by rewrite jsdocLoop_blank.
  - intros Hterm. by rewrite jsdocLoop_terminator.
  - intros Hquiet.
    rewrite (jsdocLoop_quiet (rev below ++ line :: rev above)); [done|].
    apply Forall_app in Hquiet as [Habove Hrest].
    apply Forall_cons in Hrest as [Hline Hbelow].
    apply Forall_app. split; [by apply Forall_rev|].
    constructor; [done | by apply Forall_rev].
Qed.

Lemma jsdoc_backward_scan_witness :
  (extractJSDocComment ["/**"; " * Adds."; " */"; "  "; "function add(a, b) {"] 4
   = extractJSDocComment ["/**"; " * Adds."; " */"; "function add(a, b) {"] 3)
  ∧ (extractJSDocComment ["/** Old. */"; "let x = 1;"; " * Adds."; "function add(a, b) {"] 3
     = extractJSDocComment [" * Adds."; "function add(a, b) {"] 1)
  ∧ (extractJSDocComment ["let x = 1;"; " */"; ""; "function add(a, b) {"] 3 = "").
Proof.
  split; [|split].
  - apply (jsdoc_backward_scan ["/**"; " * Adds."; " */"] "  " []
             ["function add(a, b) {"]). reflexivity.
  - apply (jsdoc_backward_scan ["/** Old. */"] "let x = 1;" [" * Adds."]
             ["function add(a, b) {"]). reflexivity.
  - apply (jsdoc_backward_scan ["let x = 1;"] " */" [""]
             ["function add(a, b) {"]).
    repeat constructor.
Defined.

(** C7, as it is stated, fails: above the header there is no line that
    starts with [/**], the scan ends on a line that is neither blank nor a
    comment, and yet the description is not empty. *)
Lemma stray_comment_lines_are_kept :
  Forall (λ raw, opener raw = false) (take 2 strayLines)
  ∧ terminator "let x = 1;" = true
  ∧ extractJSDocComment strayLines 2 = "stray".
Proof. repeat split; repeat constructor. Qed.

(** ** A block comment on one line *)

Lemma space2_ascii_second c1 c2 : (code c2 < 128)%nat → space2 c1 c2 = false.
Proof.
  unfold space2. intros H.
  never (code c2 =? 133)%nat. never (code c2 =? 160)%nat.
  by rewrite andb_false_r.
Qed.

Lemma space2_ascii_first c1 c2 : (code c1 < 128)%nat → space2 c1 c2 = false.
Proof. unfold space2. intros H. by never (code c1 =? 194)%nat. Qed.

Lemma space3_ascii_second c1 c2 c3 : (code c2 < 128)%nat → space3 c1 c2 c3 = false.
Proof.
  unfold space3. intros H. generalize (code c1) (code c3). intros a c.
  never (code c2 =? 154)%nat. never (code c2 =? 128)%nat.
  never (code c2 =? 129)%nat.
  by rewrite !andb_false_r.
Qed.

Lemma space3_ascii_third c1 c2 c3 : (code c3 < 128)%nat → space3 c1 c2 c3 = false.
Proof.
  unfold space3. intros H. generalize (code c1) (code c2). intros a b.
  never (code c3 =? 128)%nat. never (128 <=? code c3)%nat.
  never (code c3 =? 159)%nat. never (code c3 =? 168)%nat.
  never (code c3 =? 169)%nat. never (code c3 =? 175)%nat.
  simpl. by rewrite !andb_false_r.
Qed.

(** Trimming on the left stops before the closing [*/]. *)
Lemma trimLeftSpace_close t :
  ∃ t', trimLeftSpace (t ++ bytes "*/") = t' ++ bytes "*/".
Proof.
  induction t as [t IH] using list_length_ind.
  rewrite trimLeftSpace_eq.
  destruct t as [|c1 [|c2 [|c3 r3]]]; simpl.
  - by exists [].
  - destruct (asciiSpace c1); [by exists []|].
    rewrite space2_ascii_second by (vm_compute; lia).
    rewrite space3_ascii_second by (vm_compute; lia). by exists [c1].
  - destruct (asciiSpace c1); [apply (IH [c2]); simpl; lia|].
    destruct (space2 c1 c2); [by exists []|].
    rewrite space3_ascii_third by (vm_compute; lia). by exists [c1; c2].
  - destruct (asciiSpace c1); [apply (IH (c2 :: c3 :: r3)); simpl; lia|].
    destruct (space2 c1 c2); [apply (IH (c3 :: r3)); simpl; lia|].
    destruct (space3 c1 c2 c3); [apply (IH r3); simpl; lia|].
    by exists (c1 :: c2 :: c3 :: r3).
Qed.

(** Nothing is trimmed on the right of a closing [*/]. *)
Lemma trimRightSpace_close t :
  trimRightSpace (t ++ bytes "*/") = t ++ bytes "*/".
Proof.
  unfold trimRightSpace. rewrite rev_app_distr.
  change (rev (bytes "*/") ++ rev t) with ("/"%char :: "*"%char :: rev t).
  assert (trimLeftSpaceRev ("/"%char :: "*"%char :: rev t)
          = "/"%char :: "*"%char :: rev t) as ->.
  { rewrite trimLeftSpaceRev_eq.
    replace (asciiSpace "/") with false by done.
    rewrite space2_ascii_first by (vm_compute; lia).
    destruct (rev t) as [|c3 r3]; [done|].
    by rewrite space3_ascii_second by (vm_compute; lia). }
  change ("/"%char :: "*"%char :: rev t) with (rev (bytes "*/") ++ rev t).
  by rewrite <- rev_app_distr, rev_involutive.
Qed.

Lemma TrimSpace_close body : HasSuffix (TrimSpace (body +:+ "*/")) "*/" = true.
Proof.
  unfold TrimSpace. rewrite bytes_app.
  destruct (trimLeftSpace_close (bytes body)) as [t' ->].
  rewrite trimRightSpace_close.
  replace (str (t' ++ bytes "*/")) with (str t' +:+ "*/").
  - apply HasSuffix_app.
  - apply bytes_inj. by rewrite bytes_app, !bytes_str.
Qed.

(** C10.  When the first non-blank line above a header is a block
    comment opened and closed on the same line, [/** text */], the
    description is the empty string: the text of the line is dropped. *)
Theorem one_line_jsdoc_is_dropped (above : list string) (doc : string)
    (blanks rest : list string) :
  oneLineJSDoc doc →
  Forall (λ raw, blank raw = true) blanks →
  extractJSDocComment (above ++ doc :: blanks ++ rest)
                      (length (above ++ doc :: blanks)) = "".
Proof.
  intros [body Hdoc] Hblanks.
  replace (above ++ doc :: blanks ++ rest)
    with ((above ++ doc :: blanks) ++ rest) by by rewrite <- app_assoc.
  rewrite extractJSDocComment_above, rev_app_distr. simpl.
  rewrite <- app_assoc. simpl.
  assert (jsdocLoop (rev blanks ++ doc :: rev above) [] = []) as ->; [|done].
  apply Forall_rev in Hblanks.
  induction Hblanks as [|raw blanks' Hraw _ IH]; simpl.
  - rewrite Hdoc. simpl.
    replace (sliceFrom ("/**" +:+ body +:+ "*/") 3) with (body +:+ "*/").
    + rewrite TrimSpace_close, andb_false_r. by destruct (HasPrefix _ _).
    + apply bytes_inj. by rewrite bytes_sliceFrom, !bytes_app.
  - unfold blank in Hraw. by rewrite Hraw.
Qed.

Lemma one_line_jsdoc_is_dropped_witness :
  extractJSDocComment
    ["import x;"; "  /** Adds two numbers. */"; ""; "function add(a, b) {"; "}"] 3
  = "".
Proof.
  apply (one_line_jsdoc_is_dropped ["import x;"] "  /** Adds two numbers. */"
           [""] ["function add(a, b) {"; "}"]).
  - by exists " Adds two numbers. ".
  - repeat constructor.
Defined.

(* ===================================================================== *)
(** * The tool schema assembler *)
(* ===================================================================== *)

(** The loop fills the slots in order: the slice it leaves is the list of
    the tool definitions of the descriptors. *)
Lemma emitLoop_fills functions : ∀ filled,
  forRange emitBody (length filled) functions
    (filled ++ replicate (length functions) ToolDefinition.zero)
  = filled ++ (toolOf <$> functions).
Proof.
  induction functions as [|fn functions IH]; intros filled; [done|].
  simpl. unfold emitBody at 2. fold (toolOf fn).
  rewrite insert_app_r_alt by done. rewrite Nat.sub_diag. simpl.
  replace (filled ++ toolOf fn :: replicate (length functions) ToolDefinition.zero)
    with ((filled ++ [toolOf fn]) ++ replicate (length functions) ToolDefinition.zero)
    by by rewrite <- app_assoc.
  replace (S (length filled)) with (length (filled ++ [toolOf fn]))
    by (rewrite length_app; simpl; lia).
  rewrite IH. by rewrite <- app_assoc.
Qed.

Lemma emitTools_map functions : emitTools functions = toolOf <$> functions.
Proof. apply (emitLoop_fills functions []). Qed.

Lemma handleEmitToolJSON_decoded args functionsParam functions :
  args !! "functions" = Some functionsParam →
  Json.Unmarshal functionsParam = Ok functions →
  functions ≠ [] →
  handleEmitToolJSON args
  = ToolResultText (Indented (JArr (Json.ofToolDefinition <$> (toolOf <$> functions)))).
Proof.
  intros Harg Hdec Hne. unfold handleEmitToolJSON. rewrite Harg, Hdec.
  destruct functions as [|fn functions]; [done|].
  by rewrite emitTools_map.
Qed.

(** ** Decoding *)

Lemma intoDescriptors_lookup l : ∀ functions,
  Json.intoDescriptors l = Ok functions →
  length functions = length l
  ∧ ∀ i v, l !! i = Some v →
           ∃ fn, functions !! i = Some fn ∧ Json.intoDescriptor v = Ok fn.
Proof.
  induction l as [|v l IH]; intros functions Hdec; simpl in Hdec.
  - by simplify_eq.
  - destruct (Json.intoDescriptor v) as [fn|] eqn:Hv; [|done].
    destruct (Json.intoDescriptors l) as [functions'|]; [|done].
    simplify_eq. destruct (IH functions' eq_refl) as [Hlen Hlook].
    split; [by simpl; f_equal|].
    intros [|i] w Hw; simplify_eq/=; eauto.
Qed.

Lemma intoField_keeps_name fn key v fn' :
  Json.designates key "name" = false →
  Json.intoField fn (key, v) = Ok fn' →
  FunctionDescriptor.Name fn' = FunctionDescriptor.Name fn.
Proof.
  intros Hkey. destruct fn as [name description parameters required].
  unfold Json.intoField. rewrite Hkey.
  repeat case_match; intros; by simplify_eq.
Qed.

#[local] Arguments Json.intoField : simpl never.

Lemma intoFields_keeps_name ms : ∀ fn fn',
  (∀ key v, (key, v) ∈ ms → Json.designates key "name" = false) →
  Json.intoFields fn ms = Ok fn' →
  FunctionDescriptor.Name fn' = FunctionDescriptor.Name fn.
Proof.
  induction ms as [|[key v] ms IH]; intros fn fn' Hkeys Hdec; simpl in Hdec.
  - by simplify_eq.
  - destruct (Json.intoField fn (key, v)) as [fn1|] eqn:Hfield; [|done].
    rewrite (IH fn1 fn'); [| |done].
    + eapply intoField_keeps_name; [|done]. eapply Hkeys. by left.
    + intros k w Hin. eapply Hkeys. by right.
Qed.

Lemma elem_of_members m key v :
  (key, v) ∈ Json.members m → m !! key = Some v.
Proof.
  unfold Json.members. rewrite merge_sort_Permutation.
  apply elem_of_map_to_list.
Qed.

Lemma intoDescriptor_lacks_name m fn :
  lacks m "name" → Json.intoDescriptor (JObj m) = Ok fn →
  FunctionDescriptor.Name fn = "".
Proof.
  intros Hlacks Hdec. simpl in Hdec.
  apply intoFields_keeps_name in Hdec; [done|].
  intros key v Hin. apply Hlacks. apply elem_of_members in Hin. eauto.
Qed.

(** A descriptor written with its four members is read back as it is. *)
Lemma intoStrings_written field required : ∀ cur,
  Json.intoStrings field (JStr <$> required) cur = Ok required.
Proof.
  induction required as [|s required IH]; intros cur; simpl; [done|].
  by rewrite IH.
Qed.

Lemma members_written name description parameters required :
  Json.members {[ "name" := name; "description" := description;
                  "parameters" := parameters; "required" := required ]}
  = [("description", description); ("name", name);
     ("parameters", parameters); ("required", required)].
Proof. by vm_compute. Qed.

Lemma intoField_written fn key v :
  key ∈ ["name"; "description"; "parameters"; "required"] →
  Json.intoField fn (key, v)
  = let '(FunctionDescriptor.mk name description parameters required) := fn in
    if String.eqb key "name" then
      match Json.intoString key v name with
      | Ok name => Ok (FunctionDescriptor.mk name description parameters required)
      | Err e => Err e
      end
    else if String.eqb key "description" then
      match Json.intoString key v description with
      | Ok description =>
          Ok (FunctionDescriptor.mk name description parameters required)
      | Err e => Err e
      end
    else if String.eqb key "parameters" then
      match Json.intoMap key v parameters with
      | Ok parameters =>
          Ok (FunctionDescriptor.mk name description parameters required)
      | Err e => Err e
      end
    else
      match Json.intoSlice key v required with
      | Ok required =>
          Ok (FunctionDescriptor.mk name description parameters required)
      | Err e => Err e
      end.
Proof.
  intros Hkey. destruct fn as [name description parameters required].
  repeat (apply elem_of_cons in Hkey as [->|Hkey]; [by vm_compute|]).
  by apply elem_of_nil in Hkey.
Qed.

Lemma intoDescriptor_written fn :
  Json.intoDescriptor (ofFunctionDescriptor fn) = Ok fn.
Proof.
  destruct fn as [name description parameters required].
  unfold ofFunctionDescriptor, Json.intoDescriptor. rewrite members_written.
  unfold Json.intoFields, FunctionDescriptor.zero.
  rewrite intoField_written by (repeat constructor). simpl.
  rewrite intoField_written by (repeat constructor). simpl.
  destruct parameters as [m|]; simpl;
    rewrite intoField_written by (repeat constructor); simpl;
    rewrite intoStrings_written; [|done].
  by rewrite (right_id_L ∅ (∪)).
Qed.

Lemma Unmarshal_written functions :
  Json.Unmarshal (JArr (ofFunctionDescriptor <$> functions)) = Ok functions.
Proof.
  unfold Json.Unmarshal.
  induction functions as [|fn functions IH]; [done|].
  rewrite fmap_cons. cbn [Json.intoDescriptors].
  by rewrite intoDescriptor_written, IH.
Qed.

(** C3.  For a non-empty sequence of descriptors the assembler returns
    as many tool definitions, in the same order; the n-th one is
    [{type: "function", function: {name, description, parameters}}] with
    the name, the description and the parameters of the n-th descriptor;
    the [required] list of a descriptor is not carried over: descriptors
    that differ in it only give the same tools. *)
Theorem tools_follow_descriptors (args : gmap string json)
    (functionsParam : json) (functions : list FunctionDescriptor.t) :
  args !! "functions" = Some functionsParam →
  Json.Unmarshal functionsParam = Ok functions →
  functions ≠ [] →
  ∃ tools,
    handleEmitToolJSON args
    = ToolResultText (Indented (JArr (Json.ofToolDefinition <$> tools)))
    ∧ length tools = length functions
    ∧ (∀ n fn, functions !! n = Some fn →
         tools !! n = Some (toolOf fn)
         ∧ Json.ofToolDefinition (toolOf fn)
           = JObj {[ "type" := JStr "function";
                     "function" :=
                       JObj {[ "name" := JStr (FunctionDescriptor.Name fn);
                               "description" :=
                                 JStr (FunctionDescriptor.Description fn);
                               "parameters" :=
                                 Json.ofMap (FunctionDescriptor.Parameters fn) ]} ]})
    ∧ (∀ others,
         Forall2 (λ fn other,
                    FunctionDescriptor.Name other = FunctionDescriptor.Name fn
                    ∧ FunctionDescriptor.Description other
                      = FunctionDescriptor.Description fn
                    ∧ FunctionDescriptor.Parameters other
                      = FunctionDescriptor.Parameters fn)
                 functions others →
         emitTools others = tools).
Proof.
  intros Harg Hdec Hne. exists (toolOf <$> functions).
  split; [by eapply handleEmitToolJSON_decoded|].
  split; [by rewrite length_fmap|]. split.
  - intros n fn Hn. split; [|done]. by rewrite list_lookup_fmap, Hn.
  - intros others Hsame. rewrite emitTools_map. clear Harg Hdec Hne.
    induction Hsame as [|fn other fns others' (Hname & Hdesc & Hparams) _ IH];
      [done|].
    simpl. f_equal; [|done].
    unfold toolOf. by rewrite Hname, Hdesc, Hparams.
Qed.

(** Every non-empty sequence of descriptors is the reading of an
    argument, the one in which each descriptor is written in full. *)
Lemma tools_follow_written_descriptors (functions : list FunctionDescriptor.t) :
  functions ≠ [] →
  handleEmitToolJSON {[ "functions" := JArr (ofFunctionDescriptor <$> functions) ]}
  = ToolResultText
      (Indented (JArr (Json.ofToolDefinition <$> (toolOf <$> functions)))).
Proof.
  intros Hne. eapply handleEmitToolJSON_decoded; [|apply Unmarshal_written|done].
  apply lookup_singleton_eq.
Qed.

Lemma tools_follow_descriptors_witness :
  ∃ tools,
    handleEmitToolJSON {[ "functions" := sampleFunctions ]}
    = ToolResultText (Indented (JArr (Json.ofToolDefinition <$> tools)))
    ∧ length tools = 2%nat
    ∧ tools !! 0%nat = Some (toolOf addDescriptor)
    ∧ tools !! 1%nat = Some (toolOf subDescriptor).
Proof.
  destruct (tools_follow_descriptors {[ "functions" := sampleFunctions ]}
              sampleFunctions [addDescriptor; subDescriptor])
    as (tools & Hresult & Hlen & Hnth & _).
  - reflexivity.
  - by vm_compute.
  - discriminate.
  - exists tools. split; [exact Hresult|]. split; [exact Hlen|]. split.
    + apply (Hnth 0%nat addDescriptor eq_refl).
    + apply (Hnth 1%nat subDescriptor eq_refl).
Defined.

(** C8.  The assembler rejects the empty array of descriptors: the
    result is the error "functions parameter cannot be empty" and no tool
    definition is produced. *)
Theorem empty_input_is_rejected (args : gmap string json) :
  handleEmitToolJSON (<["functions" := JArr []]> args)
  = ToolResultError "functions parameter cannot be empty".
Proof. unfold handleEmitToolJSON. by rewrite lookup_insert_eq. Qed.

(** C2, as it is stated, fails: a descriptor without a [name] member is
    not rejected; the tool definition is produced, with an empty name. *)
Lemma missing_name_is_not_rejected :
  namelessDescriptor !! "name" = None
  ∧ handleEmitToolJSON {[ "functions" := JArr [JObj namelessDescriptor] ]}
    = ToolResultText (Indented (JArr [
        JObj {[ "type" := JStr "function";
                "function" := JObj {[ "name" := JStr "";
                                      "description" := JStr "Adds.";
                                      "parameters" := JObj ∅ ]} ]} ])).
Proof. split; by vm_compute. Qed.

(** C2, as the code has it.  A descriptor that has no [name] member is
    read with the empty name: when the array is read without a type
    error, the call succeeds with one tool definition for each element,
    and the one of such a descriptor has the empty string for name. *)
Theorem missing_name_is_read_as_empty (args : gmap string json)
    (descriptors : list json) (functions : list FunctionDescriptor.t)
    (i : nat) (m : gmap string json) :
  args !! "functions" = Some (JArr descriptors) →
  Json.Unmarshal (JArr descriptors) = Ok functions →
  descriptors !! i = Some (JObj m) →
  lacks m "name" →
  ∃ tools,
    handleEmitToolJSON args
    = ToolResultText (Indented (JArr (Json.ofToolDefinition <$> tools)))
    ∧ length tools = length descriptors
    ∧ ∃ tool, tools !! i = Some tool
              ∧ FunctionDef.Name (ToolDefinition.Function tool) = "".
Proof.
  intros Harg Hdec Hi Hlacks.
  destruct (intoDescriptors_lookup descriptors functions Hdec) as [Hlen Hlook].
  destruct (Hlook i (JObj m) Hi) as (fn & Hfn & Hread).
  assert (functions ≠ []) as Hne by (intros ->; done).
  exists (toolOf <$> functions).
  split; [by eapply handleEmitToolJSON_decoded|].
  split; [by rewrite length_fmap|].
  exists (toolOf fn). split; [by rewrite list_lookup_fmap, Hfn|].
  simpl. by eapply intoDescriptor_lacks_name.
Qed.

Lemma missing_name_is_read_as_empty_witness :
  ∃ tools,
    handleEmitToolJSON
      {[ "functions" := JArr [JObj {[ "name" := JStr "add" ]};
                              JObj {[ "description" := JStr "Adds." ]}] ]}
    = ToolResultText (Indented (JArr (Json.ofToolDefinition <$> tools)))
    ∧ length tools = 2%nat
    ∧ ∃ tool, tools !! 1%nat = Some tool
              ∧ FunctionDef.Name (ToolDefinition.Function tool) = "".
Proof.
  apply (missing_name_is_read_as_empty
           {[ "functions" := JArr [JObj {[ "name" := JStr "add" ]};
                                   JObj {[ "description" := JStr "Adds." ]}] ]}
           [JObj {[ "name" := JStr "add" ]};
            JObj {[ "description" := JStr "Adds." ]}]
           [FunctionDescriptor.mk "add" "" None [];
            FunctionDescriptor.mk "" "Adds." None []]
           1 {[ "description" := JStr "Adds." ]}).
  - reflexivity.
  - by vm_compute.
  - reflexivity.
  - intros key [v Hkey].
    apply lookup_singleton_Some in Hkey as [<- _]. by vm_compute.
Defined.

(* ===================================================================== *)
(** * The signature extraction facade *)
(* ===================================================================== *)

Lemma supported_false language :
  supported language = false →
  String.eqb language "python" = false
  ∧ String.eqb language "javascript" || String.eqb language "typescript" = false.
Proof.
  unfold supported. intros H.
  apply orb_false_iff in H as [H Hts]. apply orb_false_iff in H as [Hpy Hjs].
  by rewrite Hpy, Hjs, Hts.
Qed.

(** C4, as the code has it.  For a language outside of [python],
    [javascript] and [typescript] the call fails and produces no
    signatures, whatever the code; when the code and the language are
    non-empty strings, the error is "unsupported language: " followed by
    the language. *)
Theorem unsupported_language_is_rejected (args : gmap string json)
    (language : string) :
  args !! "language" = Some (JStr language) →
  supported language = false →
  (∃ msg, handleExtractSignatures args = ToolResultError msg)
  ∧ (∀ code, args !! "code" = Some (JStr code) →
             code ≠ "" → language ≠ "" →
             handleExtractSignatures args
             = ToolResultError ("unsupported language: " +:+ language)).
Proof.
  intros Hlang Hunsup. apply supported_false in Hunsup as [Hpy Hjs].
  assert (∀ code, RequiredParam args "code" = Ok code →
            handleExtractSignatures args
            = match RequiredParam args "language" with
              | Ok _ => ToolResultError ("unsupported language: " +:+ language)
              | Err e => ToolResultError e
              end) as Hrun.
  { intros code Hcode. unfold handleExtractSignatures. rewrite Hcode.
    unfold RequiredParam. rewrite Hlang.
    destruct (String.eqb language ""); [done|]. by rewrite Hpy, Hjs. }
  split.
  - destruct (RequiredParam args "code") as [code|e] eqn:Hcode.
    + rewrite (Hrun code eq_refl). destruct (RequiredParam args "language"); eauto.
    + unfold handleExtractSignatures. rewrite Hcode. eauto.
  - intros code Hcode Hcode_ne Hlang_ne.
    rewrite (Hrun code).
    + unfold RequiredParam. rewrite Hlang.
      by destruct (String.eqb_spec language "").
    + unfold RequiredParam. rewrite Hcode.
      by destruct (String.eqb_spec code "").
Qed.

Lemma unsupported_language_is_rejected_witness :
  (∃ msg, handleExtractSignatures
            {[ "code" := JStr "def f(): pass"; "language" := JStr "ruby" ]}
          = ToolResultError msg)
  ∧ handleExtractSignatures
      {[ "code" := JStr "def f(): pass"; "language" := JStr "ruby" ]}
    = ToolResultError "unsupported language: ruby".
Proof.
  destruct (unsupported_language_is_rejected
              {[ "code" := JStr "def f(): pass"; "language" := JStr "ruby" ]}
              "ruby") as [Herr Hmsg].
  - reflexivity.
  - reflexivity.
  - split; [exact Herr|].
    apply (Hmsg "def f(): pass"); [reflexivity|discriminate|discriminate].
Defined.

(** C4, as it is stated, fails: with the empty code, an unsupported
    language is not named by the error. *)
Lemma empty_code_hides_the_language :
  supported "ruby" = false
  ∧ handleExtractSignatures {[ "code" := JStr ""; "language" := JStr "ruby" ]}
    = ToolResultError "missing required parameter: code"
  ∧ Contains "missing required parameter: code" "ruby" = false.
Proof. repeat split. Qed.

(* ===================================================================== *)
(** * The file content collaborator *)
(* ===================================================================== *)

(** C9 does not hold of the code.  The requested path resolves to a
    file that lies outside of the repository root [/srv/repo]; the check
    compares the two paths as strings, [/srv/repo] is a prefix of
    [/srv/repo-private/...], and the content of the file is returned. *)
Theorem sibling_directory_escapes :
  Filepath.Join ["/srv/repo"; "../repo-private/secret.txt"]
  = "/srv/repo-private/secret.txt"
  ∧ inside "/srv/repo" "/srv/repo-private/secret.txt" = false
  ∧ handleGetFileContent sampleOS
      {[ "path" := JStr "../repo-private/secret.txt" ]}
    = ToolResultText (Plain "secret").
Proof. repeat split. Qed.

(* ===================================================================== *)
(** * The scenarios of the specification and of the tests *)
(* ===================================================================== *)

Example python_scenario :
  (extractPythonSignatures (unlines [
    "def hello_world(name: str, age: int = 25) -> str:";
    "    '''Greets.'''";
    "    return 1";
    "";
    "class Person:";
    "    '''A simple person class.'''";
    "    def __init__(self, name: str):";
    "        self.name = name";
    "def _private_function():";
    "    pass" ])).1
  = [ FunctionSignature.mk "hello_world" "function"
        "def hello_world(name: str, age: int = 25) -> str:" "Greets."
        (Some (objectSchema {[ "name" := paramProperty "name";
                               "age" := paramProperty "age" ]}))
        ["name"];
      FunctionSignature.mk "Person" "class" "class Person:"
        "A simple person class." None [] ].
Proof. vm_compute. reflexivity. Qed.

Example javascript_scenario :
  (λ s, (FunctionSignature.Name s, FunctionSignature.Description s,
         FunctionSignature.Required s))
    <$> (extractJavaScriptSignatures (unlines [
           "/**";
           " * Calculates the sum of two numbers";
           " */";
           "function add(a, b) {";
           "}";
           "function _privateFunction() {}";
           "export const divide = (a, b) => a / b;" ])).1
  = [ ("add", "Calculates the sum of two numbers", ["a"; "b"]);
      ("divide", "", ["a"; "b"]) ].
Proof. vm_compute. reflexivity. Qed.

Example python_parameters_test :
  parsePythonParameters "name: str, age: int = 25, *args, **kwargs"
  = (objectSchema {[ "name" := paramProperty "name";
                     "age" := paramProperty "age" ]}, ["name"]).
Proof. vm_compute. reflexivity. Qed.

Example javascript_parameters_test :
  parseJavaScriptParameters "a, b = 10, ...rest"
  = (objectSchema {[ "a" := paramProperty "a";
                     "b = 10" := paramProperty "b = 10" ]}, ["a"]).
Proof. vm_compute. reflexivity. Qed.

Example path_in_another_directory_is_rejected :
  handleGetFileContent sampleOS {[ "path" := JStr "../other/secret.txt" ]}
  = ToolResultError "path is outside repository bounds".
Proof. vm_compute. reflexivity. Qed.

(* ===================================================================== *)
(** * Listing the files of the repository *)
(* ===================================================================== *)

(** Induction on a tree, with the hypothesis for every entry of a
    directory. *)
Lemma node_forall_ind (P : node → Prop) :
  (∀ name, P (File name)) →
  (∀ name entries, Forall P entries → P (Dir name entries)) →
  (∀ name e, P (Unreadable name e)) →
  ∀ d, P d.
Proof.
  intros Hfile Hdir Hunreadable. fix IH 1. intros [name|name entries|name e].
  - apply Hfile.
  - apply Hdir. induction entries as [|d entries IHentries]; constructor.
    + apply IH.
    + apply IHentries.
  - apply Hunreadable.
Qed.

(** The loop of [walkDir] over the entries of a directory. *)
Lemma walkDir_dir extension rel name entries allFiles :
  walkDir extension rel (Dir name entries) allFiles
  = if skipped name then Ok allFiles
    else foldl (λ acc d1,
                  match acc with
                  | Ok allFiles =>
                      walkDir extension (rel ++ [nodeName d1]) d1 allFiles
                  | Err e => Err e
                  end) (Ok allFiles) entries.
Proof.
  simpl. destruct (skipped name); [done|].
  revert allFiles. induction entries as [|d1 entries IH]; intros allFiles; [done|].
  simpl. destruct (walkDir extension (rel ++ [nodeName d1]) d1 allFiles) as [out|e].
  - apply IH.
  - clear IH. induction entries as [|d2 entries IH]; [done|]. apply IH.
Qed.

Lemma walkDir_entries_err {extension rel} e entries :
  foldl (λ acc d1,
           match acc with
           | Ok allFiles =>
               walkDir extension (rel ++ [nodeName d1]) d1 allFiles
           | Err e => Err e
           end) (Err e) entries = Err e.
Proof. induction entries as [|d entries IH]; [done|]. apply IH. Qed.

Lemma visitFile_shown extension relPath allFiles :
  ∃ new, visitFile extension relPath allFiles = allFiles ++ new
         ∧ ∀ p, p ∈ new ↔ p = relPath ∧ shown extension p.
Proof.
  unfold visitFile, shown.
  destruct (HasPrefix (Base relPath) ".") eqn:Hhidden.
  { exists []. rewrite app_nil_r. split; [done|]. intros p. split.
    - by intros ?%elem_of_nil.
    - intros [-> [? _]]. congruence. }
  destruct (String.eqb_spec extension "") as [->|Hext]; simpl.
  { exists [relPath]. split; [done|]. intros p.
    rewrite list_elem_of_singleton. split; [intros ->; auto|by intros [-> _]]. }
  destruct (String.eqb_spec (TrimPrefix (Ext relPath) ".") extension)
    as [Heq|Hne]; simpl.
  - exists [relPath]. split; [done|]. intros p.
    rewrite list_elem_of_singleton. split; [intros ->; auto|by intros [-> _]].
  - exists []. rewrite app_nil_r. split; [done|]. intros p. split.
    + by intros ?%elem_of_nil.
    + intros [-> [_ [?|?]]]; congruence.
Qed.

(** What a walk without error appends: the paths of the files it
    reaches that pass the filters. *)
Lemma walkDir_appends extension d : ∀ rel allFiles out,
  walkDir extension rel d allFiles = Ok out →
  ∃ new, out = allFiles ++ new
         ∧ ∀ p, p ∈ new ↔ ∃ names, reaches d names
                                   ∧ p = relPathOf (rel ++ names)
                                   ∧ shown extension p.
Proof.
  induction d as [name|name entries IH|name e] using node_forall_ind;
    intros rel allFiles out Hwalk.
  - simpl in Hwalk. simplify_eq.
    destruct (visitFile_shown extension (relPathOf rel) allFiles)
      as (new & -> & Hnew).
    exists new. split; [done|]. intros p. rewrite Hnew. split.
    + intros [-> Hshown]. exists []. rewrite app_nil_r.
      split; [constructor|done].
    + intros (names & Hreach & -> & Hshown). inversion Hreach; subst.
      by rewrite app_nil_r in *.
  - rewrite walkDir_dir in Hwalk.
    destruct (skipped name) eqn:Hskip.
    { simplify_eq. exists []. rewrite app_nil_r. split; [done|].
      intros p. split; [by intros ?%elem_of_nil|].
      intros (names & Hreach & _). inversion Hreach; congruence. }
    assert (∃ new, out = allFiles ++ new
              ∧ ∀ p, p ∈ new ↔ ∃ d names, d ∈ entries ∧ reaches d names
                       ∧ p = relPathOf (rel ++ nodeName d :: names)
                       ∧ shown extension p) as (new & -> & Hnew).
    { clear Hskip. revert allFiles out Hwalk.
      induction IH as [|d entries IHd _ IHentries]; intros allFiles out Hwalk.
      - simpl in Hwalk. simplify_eq. exists []. rewrite app_nil_r.
        split; [done|]. intros p. split; [by intros ?%elem_of_nil|].
        by intros (d & names & ?%elem_of_nil & _).
      - simpl in Hwalk.
        destruct (walkDir extension (rel ++ [nodeName d]) d allFiles)
          as [mid|e] eqn:Hd; [|by rewrite walkDir_entries_err in Hwalk].
        destruct (IHd _ _ _ Hd) as (new1 & -> & Hnew1).
        destruct (IHentries _ _ Hwalk) as (new2 & -> & Hnew2).
        exists (new1 ++ new2). split; [by rewrite app_assoc|].
        intros p. rewrite elem_of_app, Hnew1, Hnew2. split.
        + intros [(names & Hreach & -> & Hshown)
                 |(d' & names & Hin & Hreach & -> & Hshown)].
          * exists d, names. rewrite <- app_assoc in *.
            split; [by left|done].
          * exists d', names. split; [by right|done].
        + intros (d' & names & Hin & Hreach & -> & Hshown).
          apply elem_of_cons in Hin as [->|Hin].
          * left. exists names. by rewrite <- app_assoc.
          * right. by exists d', names. }
    exists new. split; [done|]. intros p. rewrite Hnew. split.
    + intros (d & names & Hin & Hreach & -> & Hshown).
      exists (nodeName d :: names). split; [by constructor|done].
    + intros (names & Hreach & -> & Hshown). inversion Hreach; subst.
      by eexists _, _.
  - simpl in Hwalk. destruct (skipped name) eqn:Hskip; [|done].
    simplify_eq. exists []. rewrite app_nil_r. split; [done|].
    intros p. split; [by intros ?%elem_of_nil|].
    intros (names & Hreach & _). inversion Hreach.
Qed.

(** The walk fails exactly on a tree that is blocked. *)
Lemma walkDir_blocked extension d : ∀ rel allFiles,
  (∃ e, walkDir extension rel d allFiles = Err e) ↔ blocked d.
Proof.
  induction d as [name|name entries IH|name e] using node_forall_ind;
    intros rel allFiles.
  - split; [by intros [e ?]|]. inversion 1.
  - rewrite walkDir_dir. destruct (skipped name) eqn:Hskip.
    { split; [by intros [e ?]|]. inversion 1; congruence. }
    trans (∃ d, d ∈ entries ∧ blocked d).
    + clear Hskip. revert allFiles.
      induction IH as [|d entries IHd _ IHentries]; intros allFiles.
      * split; [by intros [e ?]|]. by intros (d & ?%elem_of_nil & _).
      * simpl.
        destruct (walkDir extension (rel ++ [nodeName d]) d allFiles)
          as [mid|e] eqn:Hd.
        -- rewrite IHentries. split.
           ++ intros (d' & Hin & Hb). exists d'. split; [by right|done].
           ++ intros (d' & Hin & Hb).
              apply elem_of_cons in Hin as [->|Hin]; [|eauto].
              apply (IHd (rel ++ [nodeName d]) allFiles) in Hb as [e He].
              congruence.
        -- rewrite walkDir_entries_err. split; [|eauto].
           intros _. exists d. split; [by left|].
           apply (IHd (rel ++ [nodeName d]) allFiles). eauto.
    + split.
      * intros (d & Hin & Hb). by econstructor.
      * inversion 1; subst. eauto.
  - simpl. destruct (skipped name) eqn:Hskip.
    + split; [by intros [? ?]|]. inversion 1; congruence.
    + split; [intros _; by constructor|eauto].
Qed.

(** X1.  The walk of [get_file_list] lists exactly the files that are
    reached from the root through directories it does not skip (hidden
    ones, [node_modules], [vendor], [__pycache__], [dist], [build]) and
    that pass the filters: the last element does not begin with a dot
    and, when an extension is asked for, the path has this extension. *)
Theorem walk_lists_the_shown_files (extension : string) (d : node)
    (allFiles : list string) :
  WalkDir extension (Ok d) = Ok allFiles →
  ∀ p, p ∈ allFiles ↔ ∃ names, reaches d names ∧ p = relPathOf names
                               ∧ shown extension p.
Proof.
  unfold WalkDir. intros Hwalk p.
  destruct (walkDir_appends extension d [] [] allFiles Hwalk)
    as (new & -> & Hnew).
  simpl. apply Hnew.
Qed.

Lemma walk_lists_the_shown_files_witness :
  "src/a.py" ∈ ["src/a.py"; "z.py"]
  ↔ ∃ names, reaches sampleTree names ∧ "src/a.py" = relPathOf names
             ∧ shown "py" "src/a.py".
Proof.
  apply (walk_lists_the_shown_files "py" sampleTree ["src/a.py"; "z.py"]).
  vm_compute. reflexivity.
Defined.

(** ** Pages *)










Section Pages.

Variable int : Z → Z.
Hypothesis int_exact : ∀ z, - 2 ^ 63 ≤ z < 2 ^ 63 → int z = z.






End Pages.




(** ** Pages, one after the other *)



Section Tiling.

Variable int : Z → Z.
Hypothesis int_exact : ∀ z, - 2 ^ 63 ≤ z < 2 ^ 63 → int z = z.



End Tiling.


(** X6.  With well-typed arguments, [get_file_list] fails with "failed
    to walk directory" exactly when a directory that cannot be read is
    reached through directories that are not skipped: nothing is listed
    then, whatever the page; such a directory below a skipped one does no
    harm. *)
Theorem unreadable_directory_fails_the_listing (int : Z → Z) (os : OS)
    (d : node) (args : gmap string json) (perPage page : Z)
    (extension repoRoot : string) :
  OptionalParamNumber args "per_page" = Ok perPage →
  OptionalParamNumber args "page" = Ok page →
  OptionalParamString args "extension" = Ok extension →
  Getwd os = Ok repoRoot →
  blocked d
  ↔ ∃ e, handleGetFileList int os (Ok d) args
         = Some (ToolResultError ("failed to walk directory: " +:+ e)).
Proof.
  intros HperPage Hpage Hext Hwd. unfold handleGetFileList.
  rewrite HperPage, Hpage, Hext, Hwd.
  rewrite <- (walkDir_blocked extension d [] []). unfold WalkDir.
  destruct (walkDir extension [] d []) as [allFiles|e].
  - split; [by intros [e ?]|]. intros [e He]. exfalso. revert He.
    unfold paginate. by repeat case_match.
  - split; eauto.
Qed.

Lemma unreadable_directory_fails_the_listing_witness :
  blocked blockedTree
  ↔ ∃ e, handleGetFileList (λ z, z) sampleOS (Ok blockedTree) ∅
         = Some (ToolResultError ("failed to walk directory: " +:+ e)).
Proof.
  apply (unreadable_directory_fails_the_listing (λ z, z) sampleOS blockedTree
           ∅ 0 0 "" "/srv/repo"); reflexivity.
Defined.

(* ===================================================================== *)
(** * Flag names of the command line *)
(* ===================================================================== *)

Lemma replaceGo_byte s :
  bytes (replaceGo "_" "-" s 0) = hyphenate <$> bytes s.
Proof.
  induction s as [|c s IH]; [done|].
  change (replaceGo "_" "-" (String c s) 0)
    with (if HasPrefix (String c s) "_"
          then "-" +:+ replaceGo "_" "-" s 0
          else String c (replaceGo "_" "-" s 0)).
  change (bytes (String c s)) with (c :: bytes s). rewrite fmap_cons, <- IH.
  destruct (HasPrefix (String c s) "_") eqn:Hp.
  - apply HasPrefix_spec in Hp as [k Hk]. by injection Hk as -> _.
  - change (bytes (String c ?t)) with (c :: bytes t). f_equal.
    unfold hyphenate, code.
    destruct (Nat.eqb_spec (nat_of_ascii c) 95) as [Heq|]; [|done].
    assert (c = "_"%char) as -> by (by rewrite <- (ascii_nat_embedding c), Heq).
    apply not_true_iff_false in Hp. destruct Hp. apply HasPrefix_spec.
    by exists (bytes s).
Qed.

(** X7.  The normalization of flag names turns every underscore into a
    hyphen and leaves every other byte as it is; so the result holds no
    underscore, and is not changed by a second normalization. *)
Theorem flag_names_are_hyphenated (name : string) :
  bytes (wordSepNormalizeFunc name) = hyphenate <$> bytes name
  ∧ ("_"%char ∉ bytes (wordSepNormalizeFunc name))
  ∧ wordSepNormalizeFunc (wordSepNormalizeFunc name)
    = wordSepNormalizeFunc name.
Proof.
  assert (∀ s, bytes (wordSepNormalizeFunc s) = hyphenate <$> bytes s) as Hmap
    by apply replaceGo_byte.
  split; [done|]. split.
  - rewrite Hmap. intros (c & Hc & _)%list_elem_of_fmap. revert Hc.
    unfold hyphenate, code.
    destruct (Nat.eqb_spec (nat_of_ascii c) 95) as [|Hne]; [done|].
    intros <-. by destruct Hne.
  - apply bytes_inj. rewrite !Hmap, <- list_fmap_compose.
    apply list_fmap_ext. intros _ c _. simpl. unfold hyphenate at 1.
    unfold hyphenate, code.
    destruct (Nat.eqb_spec (nat_of_ascii c) 95) as [|Hne]; [done|].
    by apply Nat.eqb_neq in Hne as ->.
Qed.

(* ===================================================================== *)
(** * The schema that the parameter normalizers build *)
(* ===================================================================== *)

Lemma coherent_record st name (required : bool) :
  coherent st →
  coherent
    (if negb (String.eqb name "")
     then <[name := paramProperty name]> st.1 else st.1,
     if required then st.2 ++ [name] else st.2).
Proof.
  intros [Hprop Hreq]. destruct (String.eqb_spec name "") as [->|Hne]; simpl.
  - split; [done|]. simpl. intros n Hn Hne. apply Hreq; [|done].
    destruct required; [|done].
    apply elem_of_app in Hn as [Hn|Hn%list_elem_of_singleton]; done.
  - split; simpl.
    + intros n v. destruct (decide (name = n)) as [<-|Hn].
      * rewrite lookup_insert_eq. by intros [= <-].
      * rewrite lookup_insert_ne by done. apply Hprop.
    + intros n Hn Hne'. destruct (decide (name = n)) as [<-|Hnn].
      * by rewrite lookup_insert_eq.
      * rewrite lookup_insert_ne by done. apply Hreq; [|done].
        destruct required; [|done].
        apply elem_of_app in Hn as [Hn|Hn%list_elem_of_singleton]; done.
Qed.

Lemma paramBody_coherent d st token :
  coherent st → coherent (paramBody d st token).
Proof.
  intros Hst. destruct st as [properties required].
  destruct d; simpl; unfold pyParamBody, jsParamBody.
  - destruct (String.eqb _ "" || String.eqb _ "self"); [exact Hst|].
    destruct (HasPrefix (TrimSpace token) "*"); [exact Hst|].
    apply (coherent_record (properties, required)). exact Hst.
  - destruct (String.eqb _ ""); [exact Hst|].
    destruct (HasPrefix (TrimSpace token) "..."); [exact Hst|].
    apply (coherent_record (properties, required)). exact Hst.
Qed.

Lemma paramLoop_coherent d tokens : ∀ st,
  coherent st → coherent (foldl (paramBody d) st tokens).
Proof.
  induction tokens as [|token tokens IH]; intros st Hst; [done|].
  simpl. by apply IH, paramBody_coherent.
Qed.

Lemma normalize_coherent d params :
  coherent (propertiesOf (normalize d params).1, (normalize d params).2).
Proof.
  assert (coherent (∅, [])) as Hempty.
  { split; simpl; [done|]. by intros n Hn%elem_of_nil. }
  destruct (decide (params = "")) as [->|Hne].
  - rewrite normalize_empty. simpl. by rewrite propertiesOf_objectSchema.
  - rewrite normalize_nonempty, normalizeTokens_eq by done. simpl.
    rewrite propertiesOf_objectSchema.
    pose proof (paramLoop_coherent d (Split params ",") _ Hempty) as H.
    by destruct (foldl _ _ _).
Qed.

(** X8.  In the schema that a normalizer returns, no property has the
    empty name, and the property of the name [n] is always
    [{"type": "string", "description": "Parameter n"}]. *)
Theorem properties_describe_their_names (d : dialect) (params name : string)
    (v : json) :
  propertiesOf (normalize d params).1 !! name = Some v →
  name ≠ "" ∧ v = paramProperty name.
Proof. apply (normalize_coherent d params). Qed.

Lemma properties_describe_their_names_witness :
  "age" ≠ "" ∧ paramProperty "age" = paramProperty "age".
Proof.
  apply (properties_describe_their_names Python "name: str, age: int = 25"
           "age" (paramProperty "age")).
  vm_compute. reflexivity.
Defined.

(** X9.  Every name that a normalizer reports as required is a property
    of the schema it returns, the empty name apart (which a token such
    as [: int] yields, and which is required without being a
    property). *)
Theorem required_names_are_properties (d : dialect) (params name : string) :
  name ∈ (normalize d params).2 →
  name = "" ∨ is_Some (propertiesOf (normalize d params).1 !! name).
Proof.
  intros Hin. destruct (decide (name = "")) as [|Hne]; [by left|right].
  by apply (normalize_coherent d params).
Qed.

Lemma required_names_are_properties_witness :
  "b" = "" ∨ is_Some (propertiesOf (normalize JavaScript "a?, b, c = 1").1 !! "b").
Proof.
  apply (required_names_are_properties JavaScript "a?, b, c = 1" "b").
  vm_compute. apply list_elem_of_here.
Defined.

(** The empty name can be required: the token [: int] has it. *)
Example empty_name_is_required :
  parsePythonParameters ": int" = (objectSchema ∅, [""]).
Proof. vm_compute. reflexivity. Qed.

(** ** Tokens without a type annotation *)

Lemma paramBody_keeps d st token name :
  is_Some (st.1 !! name) → is_Some ((paramBody d st token).1 !! name).
Proof.
  intros Hin. destruct st as [properties required].
  assert (∀ n (required' : list string),
            is_Some ((if negb (String.eqb n "")
                      then <[n := paramProperty n]> properties
                      else properties, required').1 !! name)) as Hrec.
  { intros n required'. simpl. destruct (negb _); [|done].
    destruct (decide (n = name)) as [->|Hne].
    - by rewrite lookup_insert_eq.
    - by rewrite lookup_insert_ne. }
  destruct d; simpl; unfold pyParamBody, jsParamBody.
  - destruct (String.eqb _ "" || String.eqb _ "self"); [done|].
    destruct (HasPrefix (TrimSpace token) "*"); [done|]. apply Hrec.
  - destruct (String.eqb _ ""); [done|].
    destruct (HasPrefix (TrimSpace token) "..."); [done|]. apply Hrec.
Qed.

Lemma paramLoop_keeps d tokens name : ∀ st,
  is_Some (st.1 !! name) → is_Some ((foldl (paramBody d) st tokens).1 !! name).
Proof.
  induction tokens as [|token tokens IH]; intros st Hin; [done|].
  simpl. by apply IH, paramBody_keeps.
Qed.

Lemma Contains_Index s substr :
  Contains s substr = false → (0 <=? Index s substr) = false.
Proof. done. Qed.

Lemma paramBody_plain d st token :
  retained d token = true →
  Contains (TrimSpace token) ":" = false →
  (d = JavaScript → HasSuffix (TrimSpace token) "?" = false) →
  is_Some ((paramBody d st token).1 !! TrimSpace token).
Proof.
  unfold retained. intros Hret Hcolon Hopt. destruct st as [properties required].
  apply Contains_Index in Hcolon.
  destruct d; simpl; unfold pyParamBody, jsParamBody.
  - apply andb_true_iff in Hret as [Hskip Hvar].
    apply negb_true_iff in Hskip, Hvar. rewrite Hskip, Hvar, Hcolon.
    apply orb_false_iff in Hskip as [-> _]. simpl.
    by rewrite lookup_insert_eq.
  - apply andb_true_iff in Hret as [Hskip Hvar].
    apply negb_true_iff in Hskip, Hvar.
    rewrite Hskip, Hvar, Hcolon, Hopt, Hskip by done.
    simpl. by rewrite lookup_insert_eq.
Qed.

(** X10.  A token that the normalizer retains and that holds no [:]
    (and, for JavaScript, does not end with [?]) becomes a property
    under its whole text, trimmed: a default value written without a
    type annotation, as in [b = 10], is part of the name of the
    property. *)
Theorem default_value_stays_in_the_name (d : dialect) (params token : string) :
  token ∈ Split params "," →
  retained d token = true →
  Contains (TrimSpace token) ":" = false →
  (d = JavaScript → HasSuffix (TrimSpace token) "?" = false) →
  propertiesOf (normalize d params).1 !! TrimSpace token
  = Some (paramProperty (TrimSpace token)).
Proof.
  intros Htoken Hret Hcolon Hopt.
  assert (is_Some (propertiesOf (normalize d params).1 !! TrimSpace token))
    as [v Hv].
  { assert (params ≠ "") as Hne.
    { intros ->. change (Split "" ",") with [""] in Htoken.
      apply list_elem_of_singleton in Htoken as ->.
      by destruct d; vm_compute in Hret. }
    rewrite normalize_nonempty, normalizeTokens_eq by done. simpl.
    rewrite propertiesOf_objectSchema.
    apply list_elem_of_split in Htoken as (before & after & ->).
    rewrite foldl_app. simpl. by apply paramLoop_keeps, paramBody_plain. }
  rewrite Hv. f_equal. by apply (normalize_coherent d params).
Qed.

Lemma default_value_stays_in_the_name_witness :
  propertiesOf (normalize JavaScript "a, b = 10").1 !! TrimSpace " b = 10"
  = Some (paramProperty (TrimSpace " b = 10")).
Proof.
  apply (default_value_stays_in_the_name JavaScript "a, b = 10" " b = 10");
    [|reflexivity..].
  vm_compute. apply list_elem_of_further, list_elem_of_here.
Defined.

(* ===================================================================== *)
(** * The documentation associator of Python *)
(* ===================================================================== *)

Lemma docQuote_length quote : docQuote quote → length (bytes quote) = 3%nat.
Proof. by intros [->| ->]. Qed.

Lemma docQuote_prefix quote first :
  docQuote quote →
  HasPrefix (quote +:+ first) tripleDouble
  || HasPrefix (quote +:+ first) tripleSingle = true.
Proof.
  intros [->| ->]; apply orb_true_iff; [left|right]; apply HasPrefix_spec;
    rewrite bytes_app; by apply prefix_app_r.
Qed.

Lemma docQuote_slice quote first :
  docQuote quote → slice (quote +:+ first) 0 3 = quote.
Proof.
  intros Hq%docQuote_length. apply bytes_inj.
  rewrite bytes_slice0, bytes_app. by rewrite take_app_length'.
Qed.

Lemma docQuote_sliceFrom quote first :
  docQuote quote → sliceFrom (quote +:+ first) 3 = first.
Proof.
  intros Hq%docQuote_length. apply bytes_inj.
  rewrite bytes_sliceFrom, bytes_app. by rewrite drop_app_length'.
Qed.

Lemma docQuote_len quote first :
  docQuote quote → len (quote +:+ first) = (3 + len first)%nat.
Proof.
  intros Hq%docQuote_length.
  by rewrite !len_bytes, bytes_app, length_app, Hq.
Qed.

Lemma docstringLoop_closed quote body closing after : ∀ docLines,
  Forall (λ line, Contains line quote = false) body →
  Contains closing quote = true →
  docstringLoop quote (body ++ closing :: after) docLines
  = docLines ++ body ++ closingText quote closing.
Proof.
  induction body as [|line body IH]; intros docLines Hbody Hclosing; simpl.
  - rewrite Hclosing. unfold closingText.
    destruct (0 <? _); [done|]. by rewrite app_nil_r.
  - apply Forall_cons in Hbody as [-> Hbody].
    rewrite IH by done. by rewrite <- app_assoc.
Qed.

Lemma docstringLoop_open quote body : ∀ docLines,
  Forall (λ line, Contains line quote = false) body →
  docstringLoop quote body docLines = docLines ++ body.
Proof.
  induction body as [|line body IH]; intros docLines Hbody; simpl.
  - by rewrite app_nil_r.
  - apply Forall_cons in Hbody as [-> Hbody].
    rewrite IH by done. by rewrite <- app_assoc.
Qed.

Lemma extractPythonDocstring_multi lines startLine raw rest quote first :
  drop startLine lines = raw :: rest →
  docQuote quote →
  TrimSpace raw = quote +:+ first →
  staysOpen quote first →
  extractPythonDocstring lines startLine
  = TrimSpace (Join (docstringLoop quote rest (openingText first)) newline).
Proof.
  intros Hdrop Hq Hraw Hopen. unfold extractPythonDocstring.
  assert (lines !! startLine = Some raw) as ->.
  { rewrite <- (Nat.add_0_r startLine), <- lookup_drop. by rewrite Hdrop. }
  assert (drop (S startLine) lines = rest) as ->.
  { replace (S startLine) with (startLine + 1)%nat by lia.
    by rewrite <- drop_drop, Hdrop. }
  simpl. rewrite Hraw, docQuote_prefix, docQuote_slice by done.
  unfold staysOpen in Hopen. rewrite Hopen.
  rewrite docQuote_sliceFrom, docQuote_len by done.
  unfold openingText. destruct first as [|c first]; [done|]. done.
Qed.

(** X11.  A docstring opened and closed on the line that follows the
    header, with some text between the delimiters, is that text without
    the spaces and tabs at its ends (other white space stays). *)
Theorem docstring_on_one_line (lines : list string) (startLine : nat)
    (raw quote body : string) :
  lines !! startLine = Some raw →
  docQuote quote →
  TrimSpace raw = quote +:+ body +:+ quote →
  body ≠ "" →
  extractPythonDocstring lines startLine
  = Trim body (str [" "%char; ascii_of_nat 9]).
Proof.
  intros Hraw Hq Hline Hbody. unfold extractPythonDocstring.
  rewrite Hraw. simpl. rewrite Hline, docQuote_prefix, docQuote_slice by done.
  pose proof (docQuote_length quote Hq) as Hlen.
  assert (bytes (quote +:+ body +:+ quote)
          = bytes quote ++ bytes body ++ bytes quote) as Hbytes
    by (by rewrite !bytes_app).
  assert (len (quote +:+ body +:+ quote) = (6 + len body)%nat) as Hlen'.
  { rewrite !len_bytes, Hbytes, !length_app. lia. }
  assert (0 < len body)%nat as Hpos by (destruct body; [done|simpl; lia]).
  replace (6 <? len (quote +:+ body +:+ quote))%nat with true
    by (symmetry; apply Nat.ltb_lt; lia).
  replace (HasSuffix (quote +:+ body +:+ quote) quote) with true; simpl.
  - f_equal. apply bytes_inj. unfold slice.
    rewrite bytes_substring, Hbytes, Hlen', drop_app_length' by done.
    rewrite len_bytes. replace (6 + length (bytes body) - 3 - 3)%nat
      with (length (bytes body)) by lia.
    by rewrite take_app_length.
  - symmetry. unfold HasSuffix. apply andb_true_iff. split.
    + apply Nat.leb_le. rewrite Hlen', !len_bytes. lia.
    + apply String.eqb_eq, bytes_inj.
      rewrite bytes_sliceFrom, Hlen', Hbytes, !len_bytes, Hlen, app_assoc.
      apply drop_app_length'. rewrite length_app. lia.
Qed.

Lemma docstring_on_one_line_witness :
  extractPythonDocstring ["class Person:"; "    '''  A person. '''"] 1
  = Trim "  A person. " (str [" "%char; ascii_of_nat 9]).
Proof.
  apply (docstring_on_one_line _ 1 "    '''  A person. '''" tripleSingle
           "  A person. "); [reflexivity|by right|reflexivity|done].
Defined.

(** X12.  A docstring that is not on one line runs from the text after
    the opening delimiter to the text before the first occurrence of the
    same delimiter on a later line; the lines between are taken as they
    are, joined by newlines, and white space is trimmed at the two ends
    of the whole.  What follows the delimiter on the closing line, and
    the other kind of delimiter, are of no account. *)
Theorem docstring_over_several_lines (lines : list string) (startLine : nat)
    (raw quote first : string) (body : list string) (closing : string)
    (after : list string) :
  drop startLine lines = raw :: body ++ closing :: after →
  docQuote quote →
  TrimSpace raw = quote +:+ first →
  staysOpen quote first →
  Forall (λ line, Contains line quote = false) body →
  Contains closing quote = true →
  extractPythonDocstring lines startLine
  = TrimSpace (Join (openingText first ++ body ++ closingText quote closing)
                    newline).
Proof.
  intros Hdrop Hq Hraw Hopen Hbody Hclosing.
  erewrite extractPythonDocstring_multi by done.
  by rewrite docstringLoop_closed.
Qed.

(** X13.  When no later line holds the delimiter, the docstring is not
    given up: every line to the end of the code is taken into it. *)
Theorem unterminated_docstring_runs_to_the_end (lines : list string)
    (startLine : nat) (raw quote first : string) (body : list string) :
  drop startLine lines = raw :: body →
  docQuote quote →
  TrimSpace raw = quote +:+ first →
  staysOpen quote first →
  Forall (λ line, Contains line quote = false) body →
  extractPythonDocstring lines startLine
  = TrimSpace (Join (openingText first ++ body) newline).
Proof.
  intros Hdrop Hq Hraw Hopen Hbody.
  erewrite extractPythonDocstring_multi by done.
  by rewrite docstringLoop_open.
Qed.

Lemma docstring_over_several_lines_witness :
  extractPythonDocstring
    ["def f(x):"; "    '''Adds."; "    More."; "    ''' # end"; "    return x"] 1
  = TrimSpace (Join (openingText "Adds." ++ ["    More."]
                     ++ closingText tripleSingle "    ''' # end") newline).
Proof.
  apply (docstring_over_several_lines _ 1 "    '''Adds." tripleSingle "Adds."
           ["    More."] "    ''' # end" ["    return x"]);
    [reflexivity|by right|reflexivity|reflexivity|repeat constructor|reflexivity].
Defined.

Lemma unterminated_docstring_runs_to_the_end_witness :
  extractPythonDocstring ["def f(x):"; "    '''Adds."; "    return x"] 1
  = TrimSpace (Join (openingText "Adds." ++ ["    return x"]) newline).
Proof.
  apply (unterminated_docstring_runs_to_the_end _ 1 "    '''Adds." tripleSingle
           "Adds." ["    return x"]);
    [reflexivity|by right|reflexivity|reflexivity|repeat constructor].
Defined.

(** ** An empty docstring on one line *)

Lemma docstringLoop_head quote rest : ∀ first docLines,
  ∃ more, docstringLoop quote rest (first :: docLines) = first :: more.
Proof.
  induction rest as [|line rest IH]; intros first docLines; simpl.
  - by eexists.
  - destruct (Contains line quote); [destruct (0 <? _); by eexists|].
    apply IH.
Qed.

Lemma space3_ascii_first c1 c2 c3 : (code c1 < 128)%nat → space3 c1 c2 c3 = false.
Proof.
  unfold space3. intros H. generalize (code c2) (code c3). intros b c.
  never (code c1 =? 225)%nat. never (code c1 =? 226)%nat.
  by never (code c1 =? 227)%nat.
Qed.

(** A byte that is no white space and no part of the encoding of a
    white-space rune is not trimmed. *)
Lemma trimLeftSpaceRev_plain c k :
  (32 < code c < 128)%nat → trimLeftSpaceRev (k ++ [c]) ≠ [].
Proof.
  intros Hc.
  assert (asciiSpace c = false) as Hspace.
  { unfold asciiSpace. never (code c <=? 13)%nat. never (code c =? 32)%nat.
    by rewrite andb_false_r. }
  induction k as [k IH] using list_length_ind.
  rewrite trimLeftSpaceRev_eq.
  destruct k as [|c1 [|c2 k]]; simpl.
  - by rewrite Hspace.
  - destruct (asciiSpace c1); [apply (IH []); simpl; lia|].
    by rewrite space2_ascii_first by lia.
  - destruct (asciiSpace c1); [apply (IH (c2 :: k)); simpl; lia|].
    destruct (space2 c2 c1); [apply (IH k); simpl; lia|].
    destruct k as [|c3 k]; simpl.
    + rewrite space3_ascii_first by lia. done.
    + destruct (space3 c3 c2 c1); [apply (IH k); simpl; lia|done].
Qed.

Lemma TrimSpace_plain c s :
  (32 < code c < 128)%nat → TrimSpace (String c s) ≠ "".
Proof.
  intros Hc Hempty. apply (f_equal bytes) in Hempty.
  rewrite bytes_TrimSpace in Hempty.
  change (bytes (String c s)) with (c :: bytes s) in Hempty.
  rewrite trimLeftSpace_eq in Hempty.
  assert (asciiSpace c = false) as Hspace.
  { unfold asciiSpace. never (code c <=? 13)%nat. never (code c =? 32)%nat.
    by rewrite andb_false_r. }
  rewrite Hspace in Hempty.
  assert (trimRightSpace (c :: bytes s) = []) as Hright.
  { destruct (bytes s) as [|c2 [|c3 r]]; [done|..].
    - by rewrite space2_ascii_first in Hempty by lia.
    - rewrite space2_ascii_first, space3_ascii_first in Hempty by lia. done. }
  unfold trimRightSpace in Hright. apply (f_equal (@rev ascii)) in Hright.
  rewrite rev_involutive in Hright. simpl in Hright.
  by apply trimLeftSpaceRev_plain in Hright.
Qed.

(** X14.  An empty docstring written on one line, the delimiter twice,
    is not read as empty: the six bytes are too short for a docstring on
    one line, the second delimiter is taken as the first text of a
    docstring of several lines, and the description is never empty,
    whatever follows. *)
Theorem empty_docstring_is_not_empty (lines : list string) (startLine : nat)
    (raw quote : string) :
  lines !! startLine = Some raw →
  docQuote quote →
  TrimSpace raw = quote +:+ quote →
  extractPythonDocstring lines startLine ≠ "".
Proof.
  intros Hraw Hq Hline.
  assert (drop startLine lines = raw :: drop (S startLine) lines) as Hdrop.
  { by apply drop_S. }
  erewrite extractPythonDocstring_multi; [|done..|].
  - assert (openingText quote = [quote]) as -> by (by destruct Hq as [->| ->]).
    destruct (docstringLoop_head quote (drop (S startLine) lines) quote [])
      as [more ->].
    assert (∃ c t, (32 < code c < 128)%nat
                   ∧ Join (quote :: more) newline = String c t)
      as (c & t & Hc & ->).
    { destruct Hq as [->| ->]; destruct more; eexists _, _;
        (split; [|reflexivity]); vm_compute; lia. }
    by apply TrimSpace_plain.
  - unfold staysOpen. by destruct Hq as [->| ->].
Qed.

Lemma empty_docstring_is_not_empty_witness :
  extractPythonDocstring ["def f(x):"; "    ''''''"; "    return x"] 1 ≠ "".
Proof.
  apply (empty_docstring_is_not_empty _ 1 "    ''''''" tripleSingle);
    [reflexivity|by right|reflexivity].
Defined.

(* ===================================================================== *)
(** * A block comment above a header *)
(* ===================================================================== *)

Lemma opener_line raw :
  opener raw = true →
  String.eqb (TrimSpace raw) "" = false
  ∧ HasPrefix (TrimSpace raw) "*/" = false
  ∧ HasPrefix (TrimSpace raw) "*" = false.
Proof.
  unfold opener. intros [k Hk]%HasPrefix_spec.
  assert (HasPrefix (TrimSpace raw) "*" = false) as Hstar.
  { apply not_true_iff_false. intros [k' Hk']%HasPrefix_spec.
    rewrite Hk in Hk'. discriminate. }
  split; [|by split; [apply HasPrefix_block_end|]].
  apply String.eqb_neq. intros Heq. by rewrite Heq in Hk.
Qed.

(** The scan back from the header to the opening line: [below] holds the
    lines between the two, the nearest to the header first. *)
Lemma jsdocLoop_block open above below : ∀ commentLines,
  opener open = true →
  Forall (λ raw, terminator raw = false ∧ opener raw = false) below →
  jsdocLoop (below ++ open :: above) commentLines
  = openerText open
    ++ (starText <$> filter (λ raw, contentLine raw = true) (rev below))
    ++ commentLines.
Proof.
  intros commentLines Hopen Hbelow. revert commentLines.
  induction Hbelow as [|raw below [Hterm Hop] _ IH]; intros commentLines.
  - simpl. destruct (opener_line open Hopen) as (-> & -> & ->).
    unfold opener in Hopen. rewrite Hopen. unfold openerText.
    by destruct (negb _ && negb _).
  - change (jsdocLoop ((raw :: below) ++ open :: above) commentLines)
      with (jsdocLoop (raw :: below ++ open :: above) commentLines).
    simpl rev. rewrite filter_app, fmap_app, <- !app_assoc.
    unfold terminator, commentLine, blank, opener in Hterm.
    unfold opener in Hop.
    rewrite Hop, orb_false_r in Hterm.
    rewrite filter_cons, filter_nil. simpl jsdocLoop. fold (starText raw).
    assert (contentLine raw
            = negb (String.eqb (TrimSpace raw) "")
              && negb (HasPrefix (TrimSpace raw) "*/")
              && negb (String.eqb (starText raw) "")) as Hcontent.
    { unfold contentLine. fold (starText raw).
      destruct (String.eqb_spec (TrimSpace raw) "") as [->|_]; [done|].
      simpl in Hterm. apply negb_false_iff in Hterm. by rewrite Hterm. }
    destruct (String.eqb (TrimSpace raw) "") eqn:Hblank.
    { rewrite IH, decide_False; [done|]. by rewrite Hcontent. }
    simpl in Hterm. apply negb_false_iff in Hterm. rewrite Hterm.
    destruct (HasPrefix (TrimSpace raw) "*/").
    { rewrite IH, decide_False; [done|]. by rewrite Hcontent. }
    rewrite IH. destruct (String.eqb (starText raw) ""); simpl.
    + rewrite decide_False; [done|]. by rewrite Hcontent.
    + rewrite decide_True; [done|]. by rewrite Hcontent.
Qed.

(** X15.  When the lines between a line that starts with [/**] and the
    header are all blank or start with [*], the description is made of
    the text after [/**] (if there is some, and the line does not end
    with [*/]) and of the texts of the [*] lines that have one, the
    closing [*/] line left out, in the order of the source and joined by
    single spaces; the lines above the opening line are of no account. *)
Theorem jsdoc_block_is_collected (above : list string) (open : string)
    (below rest : list string) :
  opener open = true →
  Forall (λ raw, terminator raw = false ∧ opener raw = false) below →
  extractJSDocComment (above ++ open :: below ++ rest)
                      (length (above ++ open :: below))
  = Join (openerText open
          ++ (starText <$> filter (λ raw, contentLine raw = true) below)) " ".
Proof.
  intros Hopen Hbelow.
  replace (above ++ open :: below ++ rest)
    with ((above ++ open :: below) ++ rest) by by rewrite <- app_assoc.
  rewrite extractJSDocComment_above, rev_app_distr. simpl.
  rewrite <- app_assoc. simpl.
  rewrite jsdocLoop_block, rev_involutive, app_nil_r;
    [done|done|by apply Forall_rev].
Qed.

Lemma jsdoc_block_is_collected_witness :
  extractJSDocComment
    ["let x = 1;"; "/** Adds two numbers."; " * @param a"; " *"; "";
     " * @param b"; " */"; "function add(a, b) {"] 7
  = Join (openerText "/** Adds two numbers."
          ++ (starText <$> filter (λ raw, contentLine raw = true)
                [" * @param a"; " *"; ""; " * @param b"; " */"])) " ".
Proof.
  apply (jsdoc_block_is_collected ["let x = 1;"] "/** Adds two numbers."
           [" * @param a"; " *"; ""; " * @param b"; " */"]
           ["function add(a, b) {"]); [reflexivity|].
  repeat constructor.
Defined.

(* ===================================================================== *)
(** * What the assembler accepts *)
(* ===================================================================== *)

Lemma intoDescriptors_like l : ∀ functions,
  Json.intoDescriptors l = Ok functions →
  length functions = length l ∧ Forall descriptorLike l.
Proof.
  induction l as [|v l IH]; intros functions Hdec; simpl in Hdec.
  - by injection Hdec as <-.
  - destruct (Json.intoDescriptor v) as [fn|] eqn:Hv; [|done].
    destruct (Json.intoDescriptors l) as [fns|]; [|done].
    injection Hdec as <-. destruct (IH fns eq_refl) as [Hlen Hlike].
    split; [simpl; by rewrite Hlen|]. constructor; [|done].
    destruct v; try done; [by left | right; by eexists].
Qed.

(** X16.  The assembler gives tool definitions only for a non-empty
    array whose elements are all objects or [null]: one element of
    another kind, or an argument that is no array, makes the whole call
    fail, and no tool definition is given for the other elements.  When
    the call succeeds there is one tool definition for each element. *)
Theorem tools_need_an_array_of_objects (args : gmap string json) (t : text) :
  handleEmitToolJSON args = ToolResultText t →
  ∃ descriptors tools,
    args !! "functions" = Some (JArr descriptors)
    ∧ descriptors ≠ []
    ∧ Forall descriptorLike descriptors
    ∧ t = Indented (JArr tools)
    ∧ length tools = length descriptors.
Proof.
  unfold handleEmitToolJSON. intros Hrun.
  destruct (args !! "functions") as [functionsParam|]; [|done].
  destruct (Json.Unmarshal functionsParam) as [functions|] eqn:Hdec; [|done].
  destruct (Nat.eqb_spec (length functions) 0) as [|Hne]; [done|].
  injection Hrun as <-. rewrite emitTools_map.
  destruct functionsParam as [| | | |descriptors|]; try done.
  - by injection Hdec as <-.
  - apply intoDescriptors_like in Hdec as [Hlen Hlike].
    exists descriptors, (Json.ofToolDefinition <$> (toolOf <$> functions)).
    split; [done|]. split; [by intros ->|]. split; [done|]. split; [done|].
    by rewrite !length_fmap.
Qed.

Lemma tools_need_an_array_of_objects_witness :
  ∃ descriptors tools,
    ({[ "functions" := JArr [JNull; JObj {[ "name" := JStr "add" ]}] ]}
       : gmap string json) !! "functions" = Some (JArr descriptors)
    ∧ descriptors ≠ []
    ∧ Forall descriptorLike descriptors
    ∧ Indented (JArr (Json.ofToolDefinition
                        <$> [toolOf FunctionDescriptor.zero;
                             toolOf (FunctionDescriptor.mk "add" "" None [])]))
      = Indented (JArr tools)
    ∧ length tools = length descriptors.
Proof.
  apply (tools_need_an_array_of_objects
           {[ "functions" := JArr [JNull; JObj {[ "name" := JStr "add" ]}] ]}).
  vm_compute. reflexivity.
Defined.

(** X17.  The error "functions parameter cannot be empty" is the answer
    to the empty array and to [null], and to nothing else. *)
Theorem empty_means_empty_array_or_null (args : gmap string json) :
  handleEmitToolJSON args
  = ToolResultError "functions parameter cannot be empty"
  ↔ args !! "functions" = Some (JArr []) ∨ args !! "functions" = Some JNull.
Proof.
  unfold handleEmitToolJSON. split.
  - destruct (args !! "functions") as [functionsParam|]; [|done].
    destruct (Json.Unmarshal functionsParam) as [functions|] eqn:Hdec;
      [|done].
    destruct functions as [|fn functions]; [|done]. intros _.
    destruct functionsParam as [| | | |descriptors|]; try done; [by right|].
    apply intoDescriptors_like in Hdec as [Hlen _].
    destruct descriptors; [by left|done].
  - by intros [->| ->].
Qed.

(* ===================================================================== *)
(** * The answers of the signature extraction facade *)
(* ===================================================================== *)

(** X18.  For a non-empty code and one of the three languages the facade
    never fails; [typescript] is read as [javascript]; the answer is
    [null], not the empty array, exactly when no record is found. *)
Theorem supported_language_always_answers (args : gmap string json)
    (code language : string) :
  args !! "code" = Some (JStr code) → code ≠ "" →
  args !! "language" = Some (JStr language) → supported language = true →
  handleExtractSignatures args
  = ToolResultText (Indented (signaturesJSON (extracted language code)))
  ∧ (signaturesJSON (extracted language code) = JNull
     ↔ extracted language code = [])
  ∧ extracted "typescript" code = extracted "javascript" code.
Proof.
  intros Hcode Hcode_ne Hlang Hsup. split; [|split; [|done]].
  - unfold handleExtractSignatures, RequiredParam. rewrite Hcode, Hlang.
    destruct (String.eqb_spec code "") as [|_]; [done|].
    destruct (String.eqb_spec language "") as [->|_]; [done|].
    unfold supported in Hsup. unfold extracted.
    destruct (String.eqb language "python"); [reflexivity|]. simpl in Hsup.
    rewrite Hsup. reflexivity.
  - by destruct (extracted language code).
Qed.

Lemma supported_language_always_answers_witness :
  handleExtractSignatures
    {[ "code" := JStr "x = 1"; "language" := JStr "typescript" ]}
  = ToolResultText (Indented (signaturesJSON (extracted "typescript" "x = 1")))
  ∧ (signaturesJSON (extracted "typescript" "x = 1") = JNull
     ↔ extracted "typescript" "x = 1" = [])
  ∧ extracted "typescript" "x = 1" = extracted "javascript" "x = 1".
Proof.
  apply (supported_language_always_answers
           {[ "code" := JStr "x = 1"; "language" := JStr "typescript" ]}
           "x = 1" "typescript"); [reflexivity|discriminate|reflexivity..].
Defined.

(* ===================================================================== *)
(** * The matcher finds matches only *)
(* ===================================================================== *)

Lemma rx_sound r : ∀ pos s caps (k : cont) c,
  rx r pos s caps k = Some c →
  ∃ pos' s' caps',
    run r (pos, s, caps) (pos', s', caps') ∧ k pos' s' caps' = Some c.
Proof.
  induction r as [| |p|l|r1 IH1 r2 IH2|greedy r IH|r IH|n r IH];
    intros pos s caps k c Hrx; [simpl in Hrx..| |simpl in Hrx|simpl in Hrx].
  - eexists _, _, _. split; [constructor|done].
  - destruct (Nat.eqb_spec pos 0) as [->|]; [|done].
    eexists _, _, _. split; [constructor|done].
  - destruct s as [|a s]; [done|]. destruct (p a) eqn:Hp; [|done].
    eexists _, _, _. split; [by constructor|done].
  - destruct (HasPrefix s l) eqn:Hl; [|done].
    eexists _, _, _. split; [by constructor|done].
  - apply IH1 in Hrx as (pos1 & s1 & caps1 & Hrun1 & Hrx).
    apply IH2 in Hrx as (pos2 & s2 & caps2 & Hrun2 & Hk).
    eexists _, _, _. split; [by econstructor|done].
  - set (loop :=
      fix loop (n pos : nat) (s : string) (caps : gmap nat (nat * nat))
          {struct n} : option (gmap nat (nat * nat)) :=
        let more :=
          match n with
          | O => None
          | S n' =>
              rx r pos s caps (λ pos' s' caps',
                if (len s' <? len s)%nat then loop n' pos' s' caps'
                else None)
          end in
        if greedy
        then match more with Some c => Some c | None => k pos s caps end
        else match k pos s caps with Some c => Some c | None => more end).
    change (loop (S (len s)) pos s caps = Some c) in Hrx.
    revert Hrx. generalize (S (len s)). intros fuel. revert pos s caps c.
    assert (∀ pos s caps c (more : option (gmap nat (nat * nat))),
              (∀ c', more = Some c' →
                 ∃ pos' s' caps',
                   run (Star greedy r) (pos, s, caps) (pos', s', caps')
                   ∧ k pos' s' caps' = Some c') →
              (if greedy
               then match more with Some c => Some c | None => k pos s caps end
               else match k pos s caps with Some c => Some c | None => more end)
              = Some c →
              ∃ pos' s' caps',
                run (Star greedy r) (pos, s, caps) (pos', s', caps')
                ∧ k pos' s' caps' = Some c) as Hchoice.
    { intros pos s caps c more Hmore Hrx.
      destruct greedy.
      - destruct more as [c'|]; [injection Hrx as ->; by apply Hmore|].
        eexists _, _, _. split; [apply run_Star_stop|done].
      - destruct (k pos s caps) as [c'|] eqn:Hk.
        + injection Hrx as ->.
          eexists _, _, _. split; [apply run_Star_stop|done].
        + by apply Hmore. }
    induction fuel as [|fuel IHfuel]; intros pos s caps c Hrx.
    + apply (Hchoice pos s caps c None); [done|exact Hrx].
    + eapply Hchoice; [|exact Hrx]. intros c' Hmore.
      apply IH in Hmore as (pos1 & s1 & caps1 & Hrun1 & Hmore).
      destruct (Nat.ltb_spec (len s1) (len s)) as [Hlt|]; [|done].
      apply IHfuel in Hmore as (pos2 & s2 & caps2 & Hrun2 & Hk).
      eexists _, _, _. split; [|done].
      by eapply run_Star_more.
  - destruct (rx r pos s caps k) as [c'|] eqn:Htake.
    + injection Hrx as <-.
      apply IH in Htake as (pos1 & s1 & caps1 & Hrun1 & Hk).
      eexists _, _, _. split; [by apply run_Quest_take|done].
    + eexists _, _, _. split; [apply run_Quest_skip|done].
  - apply IH in Hrx as (pos1 & s1 & caps1 & Hrun1 & Hk).
    eexists _, _, _. split; [by constructor|done].
Qed.

Lemma search_sound r : ∀ s pos caps,
  search r pos s = Some caps →
  ∃ j s0 pos' s' caps',
    bytes s0 = drop j (bytes s)
    ∧ run r ((pos + j)%nat, s0, ∅) (pos', s', caps')
    ∧ caps = <[0%nat := ((pos + j)%nat, pos')]> caps'.
Proof.
  assert (∀ s pos caps,
            rx (Cap 0 r) pos s ∅ (λ _ _ caps, Some caps) = Some caps →
            ∃ pos' s' caps',
              run r (pos, s, ∅) (pos', s', caps')
              ∧ caps = <[0%nat := (pos, pos')]> caps') as Hhere.
  { intros s pos caps Hrx. simpl in Hrx.
    apply rx_sound in Hrx as (pos' & s' & caps' & Hrun & [= <-]).
    by eexists _, _, _. }
  induction s as [|a s IH]; intros pos caps Hsearch.
  - change (search r pos "")
      with (match rx (Cap 0 r) pos "" ∅ (λ _ _ caps, Some caps) with
            | Some caps => Some caps
            | None => None
            end) in Hsearch.
    destruct (rx (Cap 0 r) pos "" ∅ _) as [c|] eqn:Hrx; [|done].
    injection Hsearch as ->.
    apply Hhere in Hrx as (pos' & s' & caps' & Hrun & ->).
    exists 0%nat, "", pos', s', caps'. by rewrite Nat.add_0_r.
  - change (search r pos (String a s))
      with (match rx (Cap 0 r) pos (String a s) ∅ (λ _ _ caps, Some caps) with
            | Some caps => Some caps
            | None => search r (S pos) s
            end) in Hsearch.
    destruct (rx (Cap 0 r) pos (String a s) ∅ _) as [c|] eqn:Hrx.
    + injection Hsearch as ->.
      apply Hhere in Hrx as (pos' & s' & caps' & Hrun & ->).
      exists 0%nat, (String a s), pos', s', caps'. by rewrite Nat.add_0_r.
    + apply IH in Hsearch as (j & s0 & pos' & s' & caps' & Hs0 & Hrun & ->).
      exists (S j), s0, pos', s', caps'.
      by replace (pos + S j)%nat with (S pos + j)%nat by lia.
Qed.

(** A match consumes a part of the input, and the offset follows. *)
Lemma run_consumes r a b :
  run r a b →
  ∃ w, bytes a.1.2 = w ++ bytes b.1.2 ∧ b.1.1 = (a.1.1 + length w)%nat.
Proof.
  induction 1 as [a|s caps|p pos c s caps Hp|l pos s caps Hl
                 |r1 r2 a b c _ (w1 & Hw1 & Hp1) _ (w2 & Hw2 & Hp2)
                 |greedy r a
                 |greedy r a b c _ (w1 & Hw1 & Hp1) _ _ (w2 & Hw2 & Hp2)
                 |r a|r a b _ IH|n r pos s caps pos' s' caps' _ IH]; simpl in *.
  - exists []. split; simpl; [done|lia].
  - by exists [].
  - exists [c]. split; simpl; [done|lia].
  - apply HasPrefix_spec in Hl as [k Hk]. exists (bytes l).
    rewrite bytes_sliceFrom, len_bytes, Hk. by rewrite drop_app_length.
  - exists (w1 ++ w2). rewrite Hw1, Hw2, Hp2, Hp1, length_app, <- app_assoc.
    split; simpl; [done|lia].
  - exists []. split; simpl; [done|lia].
  - exists (w1 ++ w2). rewrite Hw1, Hw2, Hp2, Hp1, length_app, <- app_assoc.
    split; simpl; [done|lia].
  - exists []. split; simpl; [done|lia].
  - done.
  - done.
Qed.

(** A match changes the captures of its own groups only. *)
Lemma run_frame r a b n :
  run r a b → n ∉ groups r → b.2 !! n = a.2 !! n.
Proof.
  induction 1 as [a|s caps|p pos c s caps Hp|l pos s caps Hl
                 |r1 r2 a b c _ IH1 _ IH2|greedy r a
                 |greedy r a b c _ IH1 _ _ IH2
                 |r a|r a b _ IH|m r pos s caps pos' s' caps' _ IH];
    simpl in *; intros Hn; try done.
  - apply not_elem_of_app in Hn as [Hn1 Hn2]. by rewrite IH2, IH1.
  - by rewrite IH2, IH1.
  - by apply IH.
  - apply not_elem_of_cons in Hn as [Hne Hn].
    rewrite lookup_insert_ne by done. by apply IH.
Qed.

(** A repetition of a class consumes bytes of the class. *)
Lemma run_Star_class greedy p a b :
  run (Star greedy (Class p)) a b →
  ∃ w, Forall (λ c, p c = true) w
       ∧ bytes a.1.2 = w ++ bytes b.1.2
       ∧ b.1.1 = (a.1.1 + length w)%nat ∧ b.2 = a.2.
Proof.
  remember (Star greedy (Class p)) as r eqn:Hr. intros Hrun.
  induction Hrun as [| | | | |greedy' r a
                    |greedy' r a b c Hstep _ _ _ IH| | |]; try done.
  - exists []. repeat split; simpl; [done|lia].
  - injection Hr as -> ->. destruct (IH eq_refl) as (w & Hw & Hbytes & Hpos & Hcaps).
    inversion Hstep as [| |p' pos c' s caps Hp| | | | | | |]; subst; simpl in *.
    exists (c' :: w). rewrite Hbytes, Hpos, Hcaps.
    repeat split; [by constructor|simpl; lia].
Qed.

Lemma run_Plus_class p a b :
  run (Plus (Class p)) a b →
  ∃ w, w ≠ [] ∧ Forall (λ c, p c = true) w
       ∧ bytes a.1.2 = w ++ bytes b.1.2
       ∧ b.1.1 = (a.1.1 + length w)%nat ∧ b.2 = a.2.
Proof.
  unfold Plus. intros Hrun.
  inversion Hrun as [| | | |r1 r2 a' m b' Hfirst Hrest| | | | |]; subst.
  apply run_Star_class in Hrest as (w & Hw & Hbytes & Hpos & Hcaps).
  inversion Hfirst as [| |p' pos c' s caps Hp| | | | | | |]; subst; simpl in *.
  exists (c' :: w). rewrite Hbytes, Hpos, Hcaps.
  repeat split; [done|by constructor|simpl; lia].
Qed.

(** The patterns of the scanners are concatenations: some parts, then
    the rest. *)
Lemma run_parts parts r a c :
  run (foldr Cat r parts) a c →
  ∃ b w, run r b c
         ∧ bytes a.1.2 = w ++ bytes b.1.2
         ∧ b.1.1 = (a.1.1 + length w)%nat.
Proof.
  revert a. induction parts as [|r1 parts IH]; intros a Hrun; simpl in Hrun.
  - exists a, []. repeat split; [done|simpl; lia].
  - inversion Hrun as [| | | |r1' r2 a' m c' Hfirst Hrest| | | | |]; subst.
    apply run_consumes in Hfirst as (w1 & Hw1 & Hp1).
    apply IH in Hrest as (b & w2 & Hrun' & Hw2 & Hp2).
    exists b, (w1 ++ w2). rewrite Hw1, Hw2, Hp2, Hp1, length_app, <- app_assoc.
    repeat split; simpl; [done|lia].
Qed.

Lemma numSubexp_parts parts r :
  (numSubexp r ≤ numSubexp (foldr Cat r parts))%nat.
Proof. induction parts as [|r1 parts IH]; simpl; lia. Qed.

(** The first group of a pattern [parts (\w+) rest] holds a word. *)
Lemma first_group_is_a_word parts rest s m :
  1%nat ∉ groups rest →
  FindStringSubmatch (foldr Cat (Cap 1 (Plus w_) ⋅ rest) parts) s = Some m →
  word (group m 1).
Proof.
  intros Hrest Hfind. unfold FindStringSubmatch in Hfind.
  destruct (search _ 0 s) as [caps|] eqn:Hsearch; [|done].
  simpl in Hfind. injection Hfind as <-.
  pose proof (numSubexp_parts parts (Cap 1 (Plus w_) ⋅ rest)) as Hnum.
  simpl in Hnum. unfold group.
  destruct (numSubexp (foldr Cat (Cap 1 (Plus w_) ⋅ rest) parts)); [lia|].
  clear Hnum. simpl.
  apply search_sound in Hsearch
    as (j & s0 & pos' & s' & caps' & Hs0 & Hrun & ->).
  apply run_parts in Hrun as (b & w0 & Hrun & Hw0 & Hb). simpl in Hw0, Hb.
  inversion Hrun as [| | | |r1 r2 b' b1 c' Hname Hrun'| | | | |]; subst.
  inversion Hname as [| | | | | | | | |n' r p1 s1 c1 p2 s2 c2 Hword]; subst.
  apply run_Plus_class in Hword as (w & Hne & Hw & Hbytes & Hp2 & Hcaps).
  simpl in *. subst c2.
  apply run_frame with (n := 1%nat) in Hrun'; [|done]. simpl in Hrun'.
  rewrite lookup_insert_ne, Hrun', lookup_insert_eq by done.
  assert (bytes (slice s p1 p2) = w) as Hslice.
  { unfold slice. rewrite bytes_substring, Hp2, Hb.
    replace (j + length w0 + length w - (j + length w0))%nat
      with (length w) by lia.
    rewrite <- drop_drop, <- Hs0, Hw0, drop_app_length, Hbytes.
    by rewrite take_app_length. }
  split; [|by rewrite Hslice].
  intros Hempty. by rewrite Hempty in Hslice.
Qed.

(* ===================================================================== *)
(** * The names that the scanners record *)
(* ===================================================================== *)

Lemma Forall_word_snoc sigs name type line doc params required :
  Forall (λ sig, word (FunctionSignature.Name sig)) sigs → word name →
  Forall (λ sig, word (FunctionSignature.Name sig))
    (sigs ++ [FunctionSignature.mk name type line doc params required]).
Proof.
  intros Hsigs Hname. apply Forall_app. split; [exact Hsigs|].
  constructor; [exact Hname | constructor].
Qed.

Ltac by_first_group parts Hm :=
  refine (first_group_is_a_word parts _ _ _ _ Hm);
  simpl; intros Hin;
  repeat (apply elem_of_cons in Hin as [Hin|Hin]; [discriminate|]);
  by apply elem_of_nil in Hin.

Lemma pyFuncRe_word line m :
  FindStringSubmatch pyFuncRe line = Some m → word (group m 1).
Proof. intros Hm. by_first_group [Bol; Lit "def"; Plus s_] Hm. Qed.

Lemma pyClassRe_word line m :
  FindStringSubmatch pyClassRe line = Some m → word (group m 1).
Proof. intros Hm. by_first_group [Bol; Lit "class"; Plus s_] Hm. Qed.

Lemma jsFuncRe_word line m :
  FindStringSubmatch jsFuncRe line = Some m → word (group m 1).
Proof.
  intros Hm.
  by_first_group [Bol; Quest (Lit "export" ⋅ Plus s_);
                  Quest (Lit "async" ⋅ Plus s_); Lit "function"; Plus s_] Hm.
Qed.

Lemma jsArrowRe_word line m :
  FindStringSubmatch jsArrowRe line = Some m → word (group m 1).
Proof.
  intros Hm.
  by_first_group [Bol; Quest (Lit "export" ⋅ Plus s_); Lit "const"; Plus s_]
                 Hm.
Qed.

Lemma jsClassRe_word line m :
  FindStringSubmatch jsClassRe line = Some m → word (group m 1).
Proof.
  intros Hm.
  by_first_group [Bol; Quest (Lit "export" ⋅ Plus s_);
                  Quest (Lit "abstract" ⋅ Plus s_); Lit "class"; Plus s_] Hm.
Qed.

Lemma pyClassPart_word lines i line sigs :
  Forall (λ sig, word (FunctionSignature.Name sig)) sigs →
  Forall (λ sig, word (FunctionSignature.Name sig)) (pyClassPart lines i line sigs).
Proof.
  intros Hsigs. unfold pyClassPart.
  destruct (FindStringSubmatch pyClassRe line) as [m|] eqn:Hm; [|exact Hsigs].
  destruct (HasPrefix (group m 1) "_"); [exact Hsigs|].
  by eapply Forall_word_snoc, pyClassRe_word.
Qed.

Lemma pyBody_word lines i raw sigs :
  Forall (λ sig, word (FunctionSignature.Name sig)) sigs →
  Forall (λ sig, word (FunctionSignature.Name sig)) (pyBody lines i raw sigs).
Proof.
  intros Hsigs. unfold pyBody.
  destruct (FindStringSubmatch pyFuncRe (TrimSpace raw)) as [m|] eqn:Hm.
  - destruct (HasPrefix (group m 1) "_"); [exact Hsigs|].
    destruct (parsePythonParameters (group m 2)) as [parameters required].
    by eapply pyClassPart_word, Forall_word_snoc, pyFuncRe_word.
  - by apply pyClassPart_word.
Qed.

Lemma jsClassPart_word lines i line sigs :
  Forall (λ sig, word (FunctionSignature.Name sig)) sigs →
  Forall (λ sig, word (FunctionSignature.Name sig)) (jsClassPart lines i line sigs).
Proof.
  intros Hsigs. unfold jsClassPart.
  destruct (FindStringSubmatch jsClassRe line) as [m|] eqn:Hm; [|exact Hsigs].
  destruct (HasPrefix (group m 1) "_"); [exact Hsigs|].
  by eapply Forall_word_snoc, jsClassRe_word.
Qed.

Lemma jsArrowPart_word lines i line sigs :
  Forall (λ sig, word (FunctionSignature.Name sig)) sigs →
  Forall (λ sig, word (FunctionSignature.Name sig)) (jsArrowPart lines i line sigs).
Proof.
  intros Hsigs. unfold jsArrowPart.
  destruct (FindStringSubmatch jsArrowRe line) as [m|] eqn:Hm.
  - destruct (HasPrefix (group m 1) "_"); [exact Hsigs|].
    destruct (parseJavaScriptParameters (group m 2)) as [parameters required].
    by eapply jsClassPart_word, Forall_word_snoc, jsArrowRe_word.
  - by apply jsClassPart_word.
Qed.

Lemma jsBody_word lines i raw sigs :
  Forall (λ sig, word (FunctionSignature.Name sig)) sigs →
  Forall (λ sig, word (FunctionSignature.Name sig)) (jsBody lines i raw sigs).
Proof.
  intros Hsigs. unfold jsBody.
  destruct (FindStringSubmatch jsFuncRe (TrimSpace raw)) as [m|] eqn:Hm.
  - destruct (HasPrefix (group m 1) "_"); [exact Hsigs|].
    destruct (parseJavaScriptParameters (group m 2)) as [parameters required].
    by eapply jsArrowPart_word, Forall_word_snoc, jsFuncRe_word.
  - by apply jsArrowPart_word.
Qed.

(** X19.  Whatever the source text, the name of every record, Python or
    JavaScript/TypeScript, function or class, is a word: it is not
    empty and is made of ASCII letters, digits and underscores only. *)
Theorem names_are_words (code : string) :
  Forall (λ sig, word (FunctionSignature.Name sig))
         (extractPythonSignatures code).1
  ∧ Forall (λ sig, word (FunctionSignature.Name sig))
           (extractJavaScriptSignatures code).1.
Proof.
  split; unfold extractPythonSignatures, extractJavaScriptSignatures;
    cbn [fst]; apply forRange_invariant; try constructor; intros i x st.
  - apply pyBody_word.
  - apply jsBody_word.
Qed.

(* ===================================================================== *)
(** * One record for a line, in the order of the lines *)
(* ===================================================================== *)

(** An invariant that follows the elements passed. *)
Lemma forRange_prefix {A St : Type} (body : nat → A → St → St)
    (P : list A → St → Prop) :
  (∀ seen x st, P seen st → P (seen ++ [x]) (body (length seen) x st)) →
  ∀ l seen st, P seen st → P (seen ++ l) (forRange body (length seen) l st).
Proof.
  intros Hbody l. induction l as [|x l IH]; intros seen st Hst; simpl.
  - by rewrite app_nil_r.
  - replace (seen ++ x :: l) with ((seen ++ [x]) ++ l)
      by (by rewrite <- app_assoc).
    replace (S (length seen)) with (length (seen ++ [x]))
      by (rewrite length_app; simpl; lia).
    apply IH, Hbody, Hst.
Qed.

(** ** What a header begins with *)

Lemma anchored_run r s m :
  FindStringSubmatch (Bol ⋅ r) s = Some m → ∃ c, run r (0%nat, s, ∅) c.
Proof.
  unfold FindStringSubmatch. intros Hfind.
  destruct (search _ 0 s) as [caps|] eqn:Hsearch; [|done]. clear Hfind.
  apply search_sound in Hsearch
    as (j & s0 & pos' & s' & caps' & Hs0 & Hrun & _).
  inversion Hrun as [| | | |r1 r2 a b c Hbol Hrest| | | | |]; subst.
  inversion Hbol as [|s1 caps1 Hj| | | | | | | |]; subst.
  rewrite drop_0 in Hs0. apply bytes_inj in Hs0 as ->.
  by eexists.
Qed.

Lemma run_starts l r a c : run (Lit l ⋅ r) a c → HasPrefix a.1.2 l = true.
Proof.
  intros Hrun.
  inversion Hrun as [| | | |r1 r2 a' b c' Hlit Hrest| | | | |]; subst.
  by inversion Hlit; subst.
Qed.

Lemma run_opt_starts l1 r1 l2 r2 a c :
  run (Quest (Lit l1 ⋅ r1) ⋅ Lit l2 ⋅ r2) a c →
  HasPrefix a.1.2 l1 = true ∨ HasPrefix a.1.2 l2 = true.
Proof.
  intros Hrun.
  inversion Hrun as [| | | |r1' r2' a' b c' Hopt Hrest| | | | |]; subst.
  inversion Hopt as [| | | | | | |r' a'|r' a' b' Htake|]; subst.
  - right. by eapply run_starts.
  - left. by eapply run_starts.
Qed.

(** A leading [export] is passed with the white space after it. *)
Lemma run_export r s c :
  run (Quest (Lit "export" ⋅ Plus s_) ⋅ r) (0%nat, s, ∅) c →
  ∃ b, run r b c
       ∧ (b.1.2 = s
          ∨ HasPrefix s "export" = true
            ∧ ∃ w, Forall (λ c, perlSpace c = true) w
                   ∧ drop 6 (bytes s) = w ++ bytes b.1.2).
Proof.
  intros Hrun.
  inversion Hrun as [| | | |r1' r2' a' b c' Hopt Hrest| | | | |]; subst.
  exists b. split; [done|].
  inversion Hopt as [| | | | | | |r' a'|r' a' b' Htake|]; subst; [by left|].
  right.
  inversion Htake as [| | | |r1' r2' a' m b' Hlit Hspace| | | | |]; subst.
  inversion Hlit as [| | |l pos s' caps Hl| | | | | |]; subst.
  split; [done|].
  apply run_Plus_class in Hspace as (w & _ & Hw & Hbytes & _). simpl in Hbytes.
  exists w. split; [done|]. by rewrite <- Hbytes, bytes_sliceFrom.
Qed.

Lemma dropWhile_app p w l :
  Forall (λ c, p c = true) w → dropWhile p (w ++ l) = dropWhile p l.
Proof. induction 1 as [|c w Hc _ IH]; simpl; [done|]. by rewrite Hc. Qed.

Lemma lead_keyword s t c1 c2 kw :
  t = s
  ∨ HasPrefix s "export" = true
    ∧ (∃ w, Forall (λ c, perlSpace c = true) w
            ∧ drop 6 (bytes s) = w ++ bytes t) →
  HasPrefix t (String c1 (String c2 kw)) = true →
  perlSpace c1 = false → c1 ≠ "e"%char →
  lead s = [c1; c2].
Proof.
  intros Hwhere [k Hk]%HasPrefix_spec Hc1 He. unfold lead. simpl in Hk.
  destruct Hwhere as [->|(Hexport & w & Hw & Hdrop)].
  - destruct (HasPrefix s "export") eqn:Hexport; [|by rewrite Hk].
    apply HasPrefix_spec in Hexport as [k' Hk']. rewrite Hk in Hk'.
    by injection Hk' as -> _.
  - rewrite Hexport, Hdrop, dropWhile_app, Hk by done. simpl.
    by rewrite Hc1.
Qed.

Ltac lead_by Hb Hstart :=
  eapply lead_keyword; [exact Hb|exact Hstart|done|done].

Lemma jsFuncRe_lead line m :
  FindStringSubmatch jsFuncRe line = Some m →
  lead line = bytes "as" ∨ lead line = bytes "fu".
Proof.
  intros [c Hrun]%anchored_run.
  apply run_export in Hrun as (b & Hrun & Hb).
  apply run_opt_starts in Hrun as [Hstart|Hstart]; [left|right];
    lead_by Hb Hstart.
Qed.

Lemma jsArrowRe_lead line m :
  FindStringSubmatch jsArrowRe line = Some m → lead line = bytes "co".
Proof.
  intros [c Hrun]%anchored_run.
  apply run_export in Hrun as (b & Hrun & Hb).
  apply run_starts in Hrun. lead_by Hb Hrun.
Qed.

Lemma jsClassRe_lead line m :
  FindStringSubmatch jsClassRe line = Some m →
  lead line = bytes "ab" ∨ lead line = bytes "cl".
Proof.
  intros [c Hrun]%anchored_run.
  apply run_export in Hrun as (b & Hrun & Hb).
  apply run_opt_starts in Hrun as [Hstart|Hstart]; [left|right];
    lead_by Hb Hstart.
Qed.

Lemma pyFuncRe_def line m :
  FindStringSubmatch pyFuncRe line = Some m → HasPrefix line "def" = true.
Proof. intros [c Hrun]%anchored_run. by apply run_starts in Hrun. Qed.

Lemma pyClassRe_class line m :
  FindStringSubmatch pyClassRe line = Some m → HasPrefix line "class" = true.
Proof. intros [c Hrun]%anchored_run. by apply run_starts in Hrun. Qed.

(** ** The loop bodies add one record at most *)

Lemma pyBody_one lines i raw sigs :
  pyBody lines i raw sigs = sigs
  ∨ ∃ sig, pyBody lines i raw sigs = sigs ++ [sig]
           ∧ FunctionSignature.Signature sig = TrimSpace raw.
Proof.
  unfold pyBody, pyClassPart.
  destruct (FindStringSubmatch pyFuncRe (TrimSpace raw)) as [m|] eqn:Hfunc.
  - destruct (HasPrefix (group m 1) "_"); [by left|].
    destruct (parsePythonParameters (group m 2)) as [parameters required].
    destruct (FindStringSubmatch pyClassRe (TrimSpace raw)) as [m'|] eqn:Hclass;
      [|right; by eexists].
    apply pyFuncRe_def, HasPrefix_spec in Hfunc as [k Hk].
    apply pyClassRe_class, HasPrefix_spec in Hclass as [k' Hk'].
    rewrite Hk in Hk'. discriminate.
  - destruct (FindStringSubmatch pyClassRe (TrimSpace raw)) as [m'|];
      [|by left].
    destruct (HasPrefix (group m' 1) "_"); [by left|]. right. by eexists.
Qed.

Lemma jsBody_one lines i raw sigs :
  jsBody lines i raw sigs = sigs
  ∨ ∃ sig, jsBody lines i raw sigs = sigs ++ [sig]
           ∧ FunctionSignature.Signature sig = TrimSpace raw.
Proof.
  unfold jsBody, jsArrowPart, jsClassPart.
  destruct (FindStringSubmatch jsFuncRe (TrimSpace raw)) as [m|] eqn:Hfunc.
  - destruct (HasPrefix (group m 1) "_"); [by left|].
    destruct (parseJavaScriptParameters (group m 2)) as [parameters required].
    apply jsFuncRe_lead in Hfunc.
    destruct (FindStringSubmatch jsArrowRe (TrimSpace raw)) as [m'|] eqn:Harrow.
    { apply jsArrowRe_lead in Harrow. rewrite Harrow in Hfunc.
      by destruct Hfunc. }
    destruct (FindStringSubmatch jsClassRe (TrimSpace raw)) as [m'|] eqn:Hclass;
      [|right; by eexists].
    apply jsClassRe_lead in Hclass.
    destruct Hfunc as [Hfunc|Hfunc], Hclass as [Hclass|Hclass];
      rewrite Hfunc in Hclass; discriminate.
  - destruct (FindStringSubmatch jsArrowRe (TrimSpace raw)) as [m|] eqn:Harrow.
    + destruct (HasPrefix (group m 1) "_"); [by left|].
      destruct (parseJavaScriptParameters (group m 2)) as [parameters required].
      destruct (FindStringSubmatch jsClassRe (TrimSpace raw)) as [m'|] eqn:Hclass;
        [|right; by eexists].
      apply jsArrowRe_lead in Harrow. apply jsClassRe_lead in Hclass.
      rewrite Harrow in Hclass. by destruct Hclass.
    + destruct (FindStringSubmatch jsClassRe (TrimSpace raw)) as [m'|];
        [|by left].
      destruct (HasPrefix (group m' 1) "_"); [by left|]. right. by eexists.
Qed.

Lemma body_follows (trimmed : list string) (x : string)
    (sigs sigs' : list FunctionSignature.t) :
  sigs' = sigs
  ∨ (∃ sig, sigs' = sigs ++ [sig] ∧ FunctionSignature.Signature sig = x) →
  (FunctionSignature.Signature <$> sigs) `sublist_of` trimmed →
  (FunctionSignature.Signature <$> sigs') `sublist_of` (trimmed ++ [x]).
Proof.
  intros [->|(sig & -> & <-)] Hsub.
  - by apply sublist_inserts_r.
  - rewrite fmap_app. by apply sublist_app.
Qed.

(** X20.  A line of the source text gives one record at most, and the
    records come in the order of the lines: the signatures of the
    records, one after the other, are trimmed lines of the text taken in
    their order, no line twice. *)
Theorem records_follow_the_lines (code : string) :
  (FunctionSignature.Signature <$> (extractPythonSignatures code).1)
    `sublist_of` (TrimSpace <$> Split code newline)
  ∧ (FunctionSignature.Signature <$> (extractJavaScriptSignatures code).1)
      `sublist_of` (TrimSpace <$> Split code newline).
Proof.
  unfold extractPythonSignatures, extractJavaScriptSignatures. cbn [fst].
  generalize (Split code newline). intros lines. split.
  - refine (forRange_prefix (pyBody lines)
              (λ seen sigs, (FunctionSignature.Signature <$> sigs)
                              `sublist_of` (TrimSpace <$> seen)) _ lines [] [] _);
      [|done].
    intros seen x st Hst. rewrite fmap_app.
    apply (body_follows _ _ st); [apply pyBody_one|exact Hst].
  - refine (forRange_prefix (jsBody lines)
              (λ seen sigs, (FunctionSignature.Signature <$> sigs)
                              `sublist_of` (TrimSpace <$> seen)) _ lines [] [] _);
      [|done].
    intros seen x st Hst. rewrite fmap_app.
    apply (body_follows _ _ st); [apply jsBody_one|exact Hst].
Qed.

(* ===================================================================== *)
(** * The matcher on a header *)
(* ===================================================================== *)

Lemma HasPrefix_app l t : HasPrefix (l +:+ t) l = true.
Proof. apply HasPrefix_spec. rewrite bytes_app. by apply prefix_app_r. Qed.

Lemma sliceFrom_app l t : sliceFrom (l +:+ t) (len l) = t.
Proof.
  apply bytes_inj. by rewrite bytes_sliceFrom, bytes_app, len_bytes, drop_app_length.
Qed.

Lemma len_app s t : len (s +:+ t) = (len s + len t)%nat.
Proof. by rewrite !len_bytes, bytes_app, length_app. Qed.

Lemma HasPrefix_head c s d l :
  c ≠ d → HasPrefix (String c s) (String d l) = false.
Proof.
  intros Hne. apply not_true_iff_false. intros [k Hk]%HasPrefix_spec.
  simpl in Hk. by injection Hk as -> _.
Qed.

(** ** One step of the matcher *)

Lemma rx_Bol_Cat r s caps (k : cont) :
  rx (Bol ⋅ r) 0 s caps k = rx r 0 s caps k.
Proof. done. Qed.

Lemma rx_Lit_Cat l r t pos caps (k : cont) :
  rx (Lit l ⋅ r) pos (l +:+ t) caps k = rx r (pos + len l)%nat t caps k.
Proof. simpl. by rewrite HasPrefix_app, sliceFrom_app. Qed.

Lemma rx_Lit_end l t pos caps (k : cont) :
  rx (Lit l) pos (l +:+ t) caps k = k (pos + len l)%nat t caps.
Proof. simpl. by rewrite HasPrefix_app, sliceFrom_app. Qed.

Lemma rx_Lit_reject l r s pos caps (k : cont) :
  HasPrefix s l = false → rx (Lit l ⋅ r) pos s caps k = None.
Proof. intros Hl. simpl. by rewrite Hl. Qed.

Lemma rx_Lit_end_reject l s pos caps (k : cont) :
  HasPrefix s l = false → rx (Lit l) pos s caps k = None.
Proof. intros Hl. simpl. by rewrite Hl. Qed.

Lemma rx_Quest_skip l r1 r s pos caps (k : cont) :
  HasPrefix s l = false →
  rx (Quest (Lit l ⋅ r1) ⋅ r) pos s caps k = rx r pos s caps k.
Proof. intros Hl. simpl. by rewrite Hl. Qed.

(** A greedy repetition of a class takes the whole run of the class,
    when what follows the repetition in the pattern cannot begin with a
    byte of the class. *)
Lemma rx_Star_run p w t caps (k : cont) : ∀ pos,
  Forall (λ c, p c = true) (bytes w) →
  stops p t →
  (∀ pos c s, p c = true → k pos (String c s) caps = None) →
  rx (Star true (Class p)) pos (w +:+ t) caps k = k (pos + len w)%nat t caps.
Proof.
  intros pos Hw Ht Hk.
  set (loop :=
    fix loop (n pos : nat) (s : string) (caps : gmap nat (nat * nat))
        {struct n} : option (gmap nat (nat * nat)) :=
      let more :=
        match n with
        | O => None
        | S n' =>
            rx (Class p) pos s caps (λ pos' s' caps',
              if (len s' <? len s)%nat then loop n' pos' s' caps'
              else None)
        end in
      match more with Some c => Some c | None => k pos s caps end).
  change (loop (S (len (w +:+ t))) pos (w +:+ t) caps
          = k (pos + len w)%nat t caps).
  assert (len (w +:+ t) < S (len (w +:+ t)))%nat as Hfuel by lia.
  revert Hfuel. generalize (S (len (w +:+ t))). intros fuel. revert pos fuel.
  induction w as [|c w IH]; intros pos fuel Hfuel.
  - destruct fuel as [|fuel]; [lia|]. rewrite Nat.add_0_r.
    destruct t as [|c t]; simpl; [done|]. simpl in Ht. by rewrite Ht.
  - apply Forall_cons in Hw as [Hc Hw].
    destruct fuel as [|fuel]; [simpl in Hfuel; lia|].
    change (loop (S fuel) pos (String c w +:+ t) caps)
      with (match
              (if p c
               then if (len (w +:+ t) <? len (String c (w +:+ t)))%nat
                    then loop fuel (S pos) (w +:+ t) caps else None
               else None)
            with
            | Some c' => Some c'
            | None => k pos (String c (w +:+ t)) caps
            end).
    rewrite Hc.
    replace (len (w +:+ t) <? len (String c (w +:+ t)))%nat with true
      by (symmetry; apply Nat.ltb_lt; simpl; lia).
    rewrite (IH Hw) by (simpl in Hfuel; lia). rewrite Hk by done.
    replace (pos + len (String c w))%nat with (S pos + len w)%nat
      by (simpl; lia).
    by destruct (k _ t caps).
Qed.

Lemma rx_Star_skip p r t pos caps (k : cont) :
  stops p t →
  rx (Star true (Class p) ⋅ r) pos t caps k = rx r pos t caps k.
Proof.
  intros Ht.
  change (rx (Star true (Class p) ⋅ r) pos t caps k)
    with (rx (Star true (Class p)) pos ("" +:+ t) caps
            (λ pos' s' caps', rx r pos' s' caps' k)).
  destruct t as [|c t]; [done|]. simpl in Ht. simpl. by rewrite Ht.
Qed.

Lemma rx_Plus_run p w t pos caps (k : cont) :
  w ≠ "" →
  Forall (λ c, p c = true) (bytes w) →
  stops p t →
  (∀ pos c s, p c = true → k pos (String c s) caps = None) →
  rx (Plus (Class p)) pos (w +:+ t) caps k = k (pos + len w)%nat t caps.
Proof.
  intros Hne Hw Ht Hk. destruct w as [|c w]; [done|].
  apply Forall_cons in Hw as [Hc Hw].
  change (rx (Plus (Class p)) pos (String c w +:+ t) caps k)
    with (if p c then rx (Star true (Class p)) (S pos) (w +:+ t) caps k
          else None).
  rewrite Hc, rx_Star_run by done. f_equal. simpl. lia.
Qed.

Lemma rx_Plus_Cat p r w t pos caps (k : cont) :
  w ≠ "" →
  Forall (λ c, p c = true) (bytes w) →
  stops p t →
  (∀ pos c s, p c = true → rx r pos (String c s) caps k = None) →
  rx (Plus (Class p) ⋅ r) pos (w +:+ t) caps k
  = rx r (pos + len w)%nat t caps k.
Proof.
  intros Hne Hw Ht Hk.
  change (rx (Plus (Class p) ⋅ r) pos (w +:+ t) caps k)
    with (rx (Plus (Class p)) pos (w +:+ t) caps
            (λ pos' s' caps', rx r pos' s' caps' k)).
  by rewrite rx_Plus_run.
Qed.

Lemma rx_Cap_Plus_Cat n p r w t pos caps (k : cont) :
  w ≠ "" →
  Forall (λ c, p c = true) (bytes w) →
  stops p t →
  (∀ pos c s caps, p c = true → rx r pos (String c s) caps k = None) →
  rx (Cap n (Plus (Class p)) ⋅ r) pos (w +:+ t) caps k
  = rx r (pos + len w)%nat t (<[n := (pos, (pos + len w)%nat)]> caps) k.
Proof.
  intros Hne Hw Ht Hk.
  change (rx (Cap n (Plus (Class p)) ⋅ r) pos (w +:+ t) caps k)
    with (rx (Plus (Class p)) pos (w +:+ t) caps
            (λ pos' s' caps',
               rx r pos' s' (<[n := (pos, pos')]> caps') k)).
  rewrite rx_Plus_run; [done..|]. intros pos' c s Hc. by apply Hk.
Qed.

(** A lazy repetition stops at the first place where the rest of the
    pattern matches: it takes the whole run [w] when the rest cannot
    begin with a byte of [w]. *)
Lemma rx_lazy_run p (q : ascii → bool) w t caps (k : cont) res : ∀ pos,
  Forall (λ c, p c = true ∧ q c = true) (bytes w) →
  (∀ pos c s, q c = true → k pos (String c s) caps = None) →
  k (pos + len w)%nat t caps = Some res →
  rx (Star false (Class p)) pos (w +:+ t) caps k = Some res.
Proof.
  intros pos Hw Hk.
  set (loop :=
    fix loop (n pos : nat) (s : string) (caps : gmap nat (nat * nat))
        {struct n} : option (gmap nat (nat * nat)) :=
      let more :=
        match n with
        | O => None
        | S n' =>
            rx (Class p) pos s caps (λ pos' s' caps',
              if (len s' <? len s)%nat then loop n' pos' s' caps'
              else None)
        end in
      match k pos s caps with Some c => Some c | None => more end).
  change (k (pos + len w)%nat t caps = Some res →
          loop (S (len (w +:+ t))) pos (w +:+ t) caps = Some res).
  assert (len (w +:+ t) < S (len (w +:+ t)))%nat as Hfuel by lia.
  revert Hfuel. generalize (S (len (w +:+ t))). intros fuel. revert pos fuel.
  induction w as [|c w IH]; intros pos fuel Hfuel Hres.
  - destruct fuel as [|fuel]; [lia|]. rewrite Nat.add_0_r in Hres.
    subst loop. change ("" +:+ t) with t. simpl. by rewrite Hres.
  - apply Forall_cons in Hw as [[Hp Hq] Hw].
    destruct fuel as [|fuel]; [simpl in Hfuel; lia|].
    change (loop (S fuel) pos (String c w +:+ t) caps)
      with (match k pos (String c (w +:+ t)) caps with
            | Some c' => Some c'
            | None =>
                if p c
                then if (len (w +:+ t) <? len (String c (w +:+ t)))%nat
                     then loop fuel (S pos) (w +:+ t) caps else None
                else None
            end).
    rewrite Hk, Hp by done.
    replace (len (w +:+ t) <? len (String c (w +:+ t)))%nat with true
      by (symmetry; apply Nat.ltb_lt; simpl; lia).
    apply (IH Hw); [simpl in Hfuel; lia|].
    by replace (S pos + len w)%nat with (pos + len (String c w))%nat
      by (simpl; lia).
Qed.

Lemma rx_Cap_lazy_Cat n p (q : ascii → bool) r w t pos caps (k : cont) res :
  Forall (λ c, p c = true ∧ q c = true) (bytes w) →
  (∀ pos c s caps, q c = true → rx r pos (String c s) caps k = None) →
  rx r (pos + len w)%nat t (<[n := (pos, (pos + len w)%nat)]> caps) k
  = Some res →
  rx (Cap n (Star false (Class p)) ⋅ r) pos (w +:+ t) caps k = Some res.
Proof.
  intros Hw Hk Hres.
  change (rx (Cap n (Star false (Class p)) ⋅ r) pos (w +:+ t) caps k)
    with (rx (Star false (Class p)) pos (w +:+ t) caps
            (λ pos' s' caps',
               rx r pos' s' (<[n := (pos, pos')]> caps') k)).
  apply (rx_lazy_run p q); [done| |done]. intros pos' c s Hc. by apply Hk.
Qed.

(** ** The classes of bytes *)

Lemma perlWord_not_space c : perlWord c = true → perlSpace c = false.
Proof. destruct c as [[] [] [] [] [] [] [] []]; vm_compute; congruence. Qed.

Lemma perlSpace_not_word c : perlSpace c = true → perlWord c = false.
Proof.
  intros Hs. destruct (perlWord c) eqn:Hw; [|done].
  apply perlWord_not_space in Hw. congruence.
Qed.

Lemma notClose_spec c : notClose c = true → c ≠ ")"%char.
Proof. by intros Hc ->. Qed.

Lemma rx_Cap_Plus_reject n p r c s pos caps (k : cont) :
  p c = false → rx (Cap n (Plus (Class p)) ⋅ r) pos (String c s) caps k = None.
Proof. intros Hc. simpl. by rewrite Hc. Qed.

(** ** Reading the groups *)

Lemma search_here r s caps :
  rx r 0 s ∅ (λ pos' _ caps', Some (<[0%nat := (0%nat, pos')]> caps'))
  = Some caps →
  search r 0 s = Some caps.
Proof. intros Hrx. destruct s; simpl; by rewrite Hrx. Qed.

Lemma slice_at (pre b post : list ascii) s lo hi :
  bytes s = pre ++ b ++ post → lo = length pre → hi = (lo + length b)%nat →
  slice s lo hi = str b.
Proof.
  intros Hs -> ->. apply bytes_inj. unfold slice.
  rewrite bytes_substring, bytes_str, Hs, drop_app_length.
  replace (length pre + length b - length pre)%nat with (length b) by lia.
  by rewrite take_app_length.
Qed.

(** ** A Python function header *)

Lemma pyFuncRe_header sp name params tail :
  spaces sp → word name → plainParameters params →
  ∃ m, FindStringSubmatch pyFuncRe
         ("def" +:+ sp +:+ name +:+ "(" +:+ params +:+ ")" +:+ ":" +:+ tail)
       = Some m
       ∧ group m 1 = name ∧ group m 2 = params.
Proof.
  intros [Hsp_ne Hsp] [Hname_ne Hname] Hparams.
  set (line := "def" +:+ sp +:+ name +:+ "(" +:+ params +:+ ")" +:+ ":" +:+ tail).
  set (p1 := (0 + len "def" + len sp)%nat).
  set (p2 := (p1 + len name)%nat).
  set (p3 := (p2 + len "(")%nat).
  set (p4 := (p3 + len params)%nat).
  set (caps := (<[0%nat := (0%nat, (p4 + len ")" + len ":")%nat)]>
                  (<[2%nat := (p3, p4)]> (<[1%nat := (p1, p2)]> ∅)))
                : gmap nat (nat * nat)).
  assert (search pyFuncRe 0 line = Some caps) as Hsearch.
  { apply search_here. unfold pyFuncRe, s_, w_, dot, line.
    rewrite rx_Bol_Cat, rx_Lit_Cat.
    assert (stops perlSpace
              (name +:+ "(" +:+ params +:+ ")" +:+ ":" +:+ tail)) as Hstop.
    { destruct name as [|c name']; [done|].
      apply Forall_cons in Hname as [Hc _]. by apply perlWord_not_space. }
    rewrite rx_Plus_Cat; [|done|done|done|]; last first.
    { intros pos c s Hc. by apply rx_Cap_Plus_reject, perlSpace_not_word. }
    rewrite rx_Cap_Plus_Cat; [|done|done|done|]; last first.
    { intros pos c s caps' Hc.
      rewrite rx_Star_skip by (by apply perlWord_not_space).
      apply rx_Lit_reject, HasPrefix_head. by intros ->. }
    rewrite rx_Star_skip by done. rewrite rx_Lit_Cat.
    apply (rx_Cap_lazy_Cat _ _ notClose); [done| |].
    { intros pos c s caps' Hc.
      apply rx_Lit_reject, HasPrefix_head. by apply notClose_spec. }
    rewrite rx_Lit_Cat. rewrite rx_Star_skip by done.
    rewrite rx_Quest_skip by done. by rewrite rx_Lit_end. }
  unfold FindStringSubmatch. rewrite Hsearch.
  eexists. split; [reflexivity|].
  assert (bytes line
          = bytes "def" ++ bytes sp ++ bytes name ++ bytes "(" ++ bytes params
            ++ bytes ")" ++ bytes ":" ++ bytes tail) as Hline
    by (unfold line; by rewrite !bytes_app).
  unfold group. simpl. unfold caps at 1 2. split.
  - rewrite lookup_insert_ne, lookup_insert_ne, lookup_insert_eq by done.
    rewrite <- (str_bytes name).
    apply (slice_at (bytes "def" ++ bytes sp) _
             (bytes "(" ++ bytes params ++ bytes ")" ++ bytes ":" ++ bytes tail)).
    + by rewrite Hline, <- !app_assoc.
    + unfold p1. rewrite length_app, !len_bytes. lia.
    + unfold p2. by rewrite len_bytes.
  - rewrite lookup_insert_ne, lookup_insert_eq by done.
    rewrite <- (str_bytes params).
    apply (slice_at (bytes "def" ++ bytes sp ++ bytes name ++ bytes "(") _
             (bytes ")" ++ bytes ":" ++ bytes tail)).
    + by rewrite Hline, <- !app_assoc.
    + unfold p3, p2, p1. rewrite !length_app, !len_bytes. lia.
    + unfold p4. by rewrite len_bytes.
Qed.

(** ** Optional parts *)

Lemma rx_Quest_take r1 r s pos caps (k : cont) res :
  rx r1 pos s caps (λ pos' s' caps', rx r pos' s' caps' k) = Some res →
  rx (Quest r1 ⋅ r) pos s caps k = Some res.
Proof. intros Htake. simpl. by rewrite Htake. Qed.

Lemma rx_Quest_keyword l p r w t pos caps (k : cont) res :
  w ≠ "" →
  Forall (λ c, p c = true) (bytes w) →
  stops p t →
  (∀ pos c s, p c = true → rx r pos (String c s) caps k = None) →
  rx r (pos + len l + len w)%nat t caps k = Some res →
  rx (Quest (Lit l ⋅ Plus (Class p)) ⋅ r) pos (l +:+ w +:+ t) caps k
  = Some res.
Proof.
  intros Hne Hw Ht Hk Hres. apply rx_Quest_take.
  rewrite rx_Lit_Cat, rx_Plus_run; done.
Qed.

(** A string that begins with one of the other keywords does not begin
    with this one. *)
Lemma HasPrefix_other c l d s t :
  c ≠ d → HasPrefix (String d s +:+ t) (String c l) = false.
Proof. intros Hne. by apply HasPrefix_head. Qed.

(** ** A Python class header *)

Lemma pyClassRe_header sp name bases tail :
  spaces sp → word name → inherits bases →
  ∃ m, FindStringSubmatch pyClassRe
         ("class" +:+ sp +:+ name +:+ bases +:+ ":" +:+ tail)
       = Some m
       ∧ group m 1 = name.
Proof.
  intros [Hsp_ne Hsp] [Hname_ne Hname] Hbases.
  set (line := "class" +:+ sp +:+ name +:+ bases +:+ ":" +:+ tail).
  set (p1 := (0 + len "class" + len sp)%nat).
  set (p2 := (p1 + len name)%nat).
  assert (∃ e, search pyClassRe 0 line
               = Some (<[0%nat := (0%nat, e)]> (<[1%nat := (p1, p2)]> ∅)))
    as [e Hsearch].
  { assert (stops perlSpace (name +:+ bases +:+ ":" +:+ tail)) as Hstop.
    { destruct name as [|c name']; [done|].
      apply Forall_cons in Hname as [Hc _]. by apply perlWord_not_space. }
    assert (stops perlWord (bases +:+ ":" +:+ tail)) as Hstop'.
    { by destruct Hbases as [->|(b & _ & ->)]. }
    unfold line.
    destruct Hbases as [->|(b & Hb & ->)]; eexists; apply search_here;
      unfold pyClassRe, s_, w_, dot; rewrite rx_Bol_Cat, rx_Lit_Cat;
      (rewrite rx_Plus_Cat; [|done|done|done|]; last first;
       [intros pos c s Hc; by apply rx_Cap_Plus_reject, perlSpace_not_word|]);
      (rewrite rx_Cap_Plus_Cat; [|done|done|done|]; last first;
       [intros pos c s caps' Hc;
        rewrite rx_Quest_skip by (apply HasPrefix_head; by intros ->);
        apply rx_Lit_end_reject, HasPrefix_head; by intros ->|]).
    - change ("" +:+ ":" +:+ tail) with (":" +:+ tail).
      rewrite rx_Quest_skip by done. by rewrite rx_Lit_end.
    - change (("(" +:+ b +:+ ")") +:+ ":" +:+ tail)
        with ("(" +:+ (b +:+ ")") +:+ ":" +:+ tail).
      replace ((b +:+ ")") +:+ ":" +:+ tail) with (b +:+ ")" +:+ ":" +:+ tail)
        by (apply bytes_inj; by rewrite !bytes_app, <- !app_assoc).
      apply rx_Quest_take. rewrite rx_Lit_Cat.
      change (rx (Star false (Class anyChar) ⋅ Lit ")") ?pos ?s ?caps ?k)
        with (rx (Star false (Class anyChar)) pos s caps
                (λ pos' s' caps', rx (Lit ")") pos' s' caps' k)).
      apply (rx_lazy_run _ notClose); [done| |].
      + intros pos c s Hc.
        apply rx_Lit_end_reject, HasPrefix_head. by apply notClose_spec.
      + rewrite rx_Lit_end. cbv beta. by rewrite rx_Lit_end. }
  unfold FindStringSubmatch. rewrite Hsearch.
  eexists. split; [reflexivity|].
  unfold group. simpl.
  rewrite lookup_insert_ne, lookup_insert_eq by done.
  rewrite <- (str_bytes name).
  apply (slice_at (bytes "class" ++ bytes sp) _
           (bytes bases ++ bytes ":" ++ bytes tail)).
  - unfold line. by rewrite !bytes_app, <- !app_assoc.
  - unfold p1. rewrite length_app, !len_bytes. lia.
  - unfold p2. by rewrite len_bytes.
Qed.

(** ** The end of a pattern without an anchor *)

Lemma run_no_groups r a b : groups r = [] → run r a b → b.2 = a.2.
Proof.
  intros Hgroups Hrun. apply map_eq. intros n.
  apply (run_frame r); [done|]. rewrite Hgroups. apply not_elem_of_nil.
Qed.

Lemma rx_end r pos s caps :
  groups r = [] →
  is_Some (rx r pos s caps
             (λ pos' _ caps', Some (<[0%nat := (0%nat, pos')]> caps'))) →
  ∃ e, rx r pos s caps
         (λ pos' _ caps', Some (<[0%nat := (0%nat, pos')]> caps'))
       = Some (<[0%nat := (0%nat, e)]> caps).
Proof.
  intros Hgroups [c Hrx]. rewrite Hrx.
  apply rx_sound in Hrx as (pos' & s' & caps' & Hrun & [= <-]).
  apply run_no_groups in Hrun; [|done]. simpl in Hrun. subst caps'.
  by exists pos'.
Qed.

Lemma rx_Quest_Some r s pos caps (k : cont) :
  is_Some (k pos s caps) → is_Some (rx (Quest r) pos s caps k).
Proof. intros Hk. simpl. by destruct (rx r pos s caps k). Qed.

Lemma rx_Quest_Cat_Some r1 r s pos caps (k : cont) :
  is_Some (rx r pos s caps k) → is_Some (rx (Quest r1 ⋅ r) pos s caps k).
Proof. intros Hk. simpl. by destruct (rx r1 pos s caps _). Qed.

(** A greedy repetition before a part that matches at the end of the
    run. *)
Lemma rx_Star_accept p w t caps (k : cont) res : ∀ pos,
  Forall (λ c, p c = true) (bytes w) →
  stops p t →
  k (pos + len w)%nat t caps = Some res →
  rx (Star true (Class p)) pos (w +:+ t) caps k = Some res.
Proof.
  intros pos Hw Ht.
  set (loop :=
    fix loop (n pos : nat) (s : string) (caps : gmap nat (nat * nat))
        {struct n} : option (gmap nat (nat * nat)) :=
      let more :=
        match n with
        | O => None
        | S n' =>
            rx (Class p) pos s caps (λ pos' s' caps',
              if (len s' <? len s)%nat then loop n' pos' s' caps'
              else None)
        end in
      match more with Some c => Some c | None => k pos s caps end).
  change (k (pos + len w)%nat t caps = Some res →
          loop (S (len (w +:+ t))) pos (w +:+ t) caps = Some res).
  assert (len (w +:+ t) < S (len (w +:+ t)))%nat as Hfuel by lia.
  revert Hfuel. generalize (S (len (w +:+ t))). intros fuel. revert pos fuel.
  induction w as [|c w IH]; intros pos fuel Hfuel Hres.
  - destruct fuel as [|fuel]; [lia|]. rewrite Nat.add_0_r in Hres.
    subst loop. change ("" +:+ t) with t.
    destruct t as [|c t]; simpl; [done|]. simpl in Ht. by rewrite Ht.
  - apply Forall_cons in Hw as [Hc Hw].
    destruct fuel as [|fuel]; [simpl in Hfuel; lia|].
    change (loop (S fuel) pos (String c w +:+ t) caps)
      with (match
              (if p c
               then if (len (w +:+ t) <? len (String c (w +:+ t)))%nat
                    then loop fuel (S pos) (w +:+ t) caps else None
               else None)
            with
            | Some c' => Some c'
            | None => k pos (String c (w +:+ t)) caps
            end).
    rewrite Hc.
    replace (len (w +:+ t) <? len (String c (w +:+ t)))%nat with true
      by (symmetry; apply Nat.ltb_lt; simpl; lia).
    rewrite (IH Hw (S pos) fuel); [done|simpl in Hfuel; lia|].
    by replace (S pos + len w)%nat with (pos + len (String c w))%nat
      by (simpl; lia).
Qed.

Lemma rx_Cap_Plus_accept n p r w t pos caps (k : cont) res :
  w ≠ "" →
  Forall (λ c, p c = true) (bytes w) →
  stops p t →
  rx r (pos + len w)%nat t (<[n := (pos, (pos + len w)%nat)]> caps) k
  = Some res →
  rx (Cap n (Plus (Class p)) ⋅ r) pos (w +:+ t) caps k = Some res.
Proof.
  intros Hne Hw Ht Hres. destruct w as [|c w]; [done|].
  apply Forall_cons in Hw as [Hc Hw].
  change (rx (Cap n (Plus (Class p)) ⋅ r) pos (String c w +:+ t) caps k)
    with (if p c
          then rx (Star true (Class p)) (S pos) (w +:+ t) caps
                 (λ pos' s' caps',
                    rx r pos' s' (<[n := (pos, pos')]> caps') k)
          else None).
  rewrite Hc. apply rx_Star_accept; [done..|].
  by replace (S pos + len w)%nat with (pos + len (String c w))%nat
    by (simpl; lia).
Qed.

(** ** The optional keywords of a JavaScript header *)

Lemma optional_stops c2 l2 pre c t :
  optional (String c2 l2) pre → perlSpace c2 = false → perlSpace c = false →
  stops perlSpace (pre +:+ String c t).
Proof. by intros [->|(sp & _ & ->)] Hkeyword Hc. Qed.

Lemma rx_optional c2 l2 c3 l3 r e a t (k : cont) res :
  optional "export" e → optional (String c2 l2) a →
  c2 ≠ "e"%char → c3 ≠ "e"%char → c3 ≠ c2 →
  perlSpace c2 = false → perlSpace c3 = false →
  rx (Lit (String c3 l3) ⋅ r) (len e + len a)%nat (String c3 l3 +:+ t) ∅ k
  = Some res →
  rx (Bol ⋅ Quest (Lit "export" ⋅ Plus (Class perlSpace))
      ⋅ Quest (Lit (String c2 l2) ⋅ Plus (Class perlSpace))
      ⋅ Lit (String c3 l3) ⋅ r) 0
     (e +:+ a +:+ String c3 l3 +:+ t) ∅ k
  = Some res.
Proof.
  intros He Ha Hc2 Hc3 Hc32 Hs2 Hs3 Hres. rewrite rx_Bol_Cat.
  assert (∀ pos,
            rx (Lit (String c3 l3) ⋅ r) (pos + len a)%nat
               (String c3 l3 +:+ t) ∅ k = Some res →
            rx (Quest (Lit (String c2 l2) ⋅ Plus (Class perlSpace))
                ⋅ Lit (String c3 l3) ⋅ r) pos
               (a +:+ String c3 l3 +:+ t) ∅ k = Some res) as Hsecond.
  { intros pos Hrest. destruct Ha as [->|(sp & [Hne Hsp] & ->)].
    - rewrite rx_Quest_skip by (by apply HasPrefix_head).
      by rewrite Nat.add_0_r in Hrest.
    - replace ((String c2 l2 +:+ sp) +:+ String c3 l3 +:+ t)
        with (String c2 l2 +:+ sp +:+ String c3 l3 +:+ t)
        by (apply bytes_inj; by rewrite !bytes_app, <- !app_assoc).
      apply rx_Quest_keyword; [done|done|done| |].
      + intros pos' c s Hc. apply rx_Lit_reject, HasPrefix_head.
        intros ->. congruence.
      + rewrite len_app in Hrest.
        by replace (pos + len (String c2 l2) + len sp)%nat
          with (pos + (len (String c2 l2) + len sp))%nat by lia. }
  destruct He as [->|(sp & [Hne Hsp] & ->)].
  - rewrite rx_Quest_skip; [by apply Hsecond|].
    destruct Ha as [->|(sp & _ & ->)]; by apply HasPrefix_head.
  - replace (("export" +:+ sp) +:+ a +:+ String c3 l3 +:+ t)
      with ("export" +:+ sp +:+ a +:+ String c3 l3 +:+ t)
      by (apply bytes_inj; by rewrite !bytes_app, <- !app_assoc).
    apply rx_Quest_keyword; [done|done| | |].
    + by apply (optional_stops c2 l2).
    + intros pos' c s Hc.
      rewrite rx_Quest_skip by (apply HasPrefix_head; intros ->; congruence).
      apply rx_Lit_reject, HasPrefix_head. intros ->. congruence.
    + apply Hsecond. rewrite len_app in Hres.
      by replace (0 + len "export" + len sp + len a)%nat
        with (len "export" + len sp + len a)%nat by lia.
Qed.

(** ** A JavaScript function header *)

Lemma jsFuncRe_header e a sp name params tail :
  optional "export" e → optional "async" a →
  spaces sp → word name → plainParameters params →
  ∃ m, FindStringSubmatch jsFuncRe
         (e +:+ a +:+ "function" +:+ sp +:+ name +:+ "(" +:+ params
          +:+ ")" +:+ tail)
       = Some m
       ∧ group m 1 = name ∧ group m 2 = params.
Proof.
  intros He Ha [Hsp_ne Hsp] [Hname_ne Hname] Hparams.
  set (line := e +:+ a +:+ "function" +:+ sp +:+ name +:+ "(" +:+ params
               +:+ ")" +:+ tail).
  set (p1 := (len e + len a + len "function" + len sp)%nat).
  set (p2 := (p1 + len name)%nat).
  set (p3 := (p2 + len "(")%nat).
  set (p4 := (p3 + len params)%nat).
  set (Q := Star true (Class perlSpace) ⋅ Lit ":" ⋅ Star true (Class perlSpace)
            ⋅ Star false (Class anyChar)).
  destruct (rx_end (Quest Q) (p4 + len ")")%nat tail
              (<[2%nat := (p3, p4)]> (<[1%nat := (p1, p2)]> ∅)))
    as [end_ Hend]; [done|by apply rx_Quest_Some|].
  assert (search jsFuncRe 0 line
          = Some (<[0%nat := (0%nat, end_)]>
                    (<[2%nat := (p3, p4)]> (<[1%nat := (p1, p2)]> ∅))))
    as Hsearch.
  { apply search_here. unfold jsFuncRe, s_, w_, dot, line.
    apply rx_optional; [done..|]. rewrite rx_Lit_Cat.
    assert (stops perlSpace (name +:+ "(" +:+ params +:+ ")" +:+ tail))
      as Hstop.
    { destruct name as [|c name']; [done|].
      apply Forall_cons in Hname as [Hc _]. by apply perlWord_not_space. }
    rewrite rx_Plus_Cat; [|done|done|done|]; last first.
    { intros pos c s Hc. by apply rx_Cap_Plus_reject, perlSpace_not_word. }
    rewrite rx_Cap_Plus_Cat; [|done|done|done|]; last first.
    { intros pos c s caps' Hc.
      rewrite rx_Star_skip by (by apply perlWord_not_space).
      apply rx_Lit_reject, HasPrefix_head. by intros ->. }
    rewrite rx_Star_skip by done. rewrite rx_Lit_Cat.
    apply (rx_Cap_lazy_Cat _ _ notClose); [done| |].
    { intros pos c s caps' Hc.
      apply rx_Lit_reject, HasPrefix_head. by apply notClose_spec. }
    rewrite rx_Lit_Cat. exact Hend. }
  unfold FindStringSubmatch. rewrite Hsearch.
  eexists. split; [reflexivity|].
  assert (bytes line
          = bytes e ++ bytes a ++ bytes "function" ++ bytes sp ++ bytes name
            ++ bytes "(" ++ bytes params ++ bytes ")" ++ bytes tail) as Hline
    by (unfold line; by rewrite !bytes_app).
  unfold group. simpl. split.
  - rewrite lookup_insert_ne, lookup_insert_ne, lookup_insert_eq by done.
    rewrite <- (str_bytes name).
    apply (slice_at (bytes e ++ bytes a ++ bytes "function" ++ bytes sp) _
             (bytes "(" ++ bytes params ++ bytes ")" ++ bytes tail)).
    + by rewrite Hline, <- !app_assoc.
    + unfold p1. rewrite !length_app, !len_bytes. lia.
    + unfold p2. by rewrite len_bytes.
  - rewrite lookup_insert_ne, lookup_insert_eq by done.
    rewrite <- (str_bytes params).
    apply (slice_at (bytes e ++ bytes a ++ bytes "function" ++ bytes sp
                     ++ bytes name ++ bytes "(") _
             (bytes ")" ++ bytes tail)).
    + by rewrite Hline, <- !app_assoc.
    + unfold p3, p2, p1. rewrite !length_app, !len_bytes. lia.
    + unfold p4. by rewrite len_bytes.
Qed.

(** ** A JavaScript class header *)

Lemma jsClassRe_header e a sp name tail :
  optional "export" e → optional "abstract" a →
  spaces sp → word name → stops perlWord tail →
  ∃ m, FindStringSubmatch jsClassRe
         (e +:+ a +:+ "class" +:+ sp +:+ name +:+ tail)
       = Some m
       ∧ group m 1 = name.
Proof.
  intros He Ha [Hsp_ne Hsp] [Hname_ne Hname] Htail.
  set (line := e +:+ a +:+ "class" +:+ sp +:+ name +:+ tail).
  set (p1 := (len e + len a + len "class" + len sp)%nat).
  set (p2 := (p1 + len name)%nat).
  set (Q1 := Plus (Class perlSpace) ⋅ Lit "extends" ⋅ Plus (Class perlSpace)
             ⋅ Plus (Class perlWord)).
  set (Q2 := Plus (Class perlSpace) ⋅ Lit "implements"
             ⋅ Plus (Class perlSpace) ⋅ Star false (Class anyChar)).
  destruct (rx_end (Quest Q1 ⋅ Quest Q2) p2 tail (<[1%nat := (p1, p2)]> ∅))
    as [end_ Hend]; [done|by apply rx_Quest_Cat_Some, rx_Quest_Some|].
  assert (search jsClassRe 0 line
          = Some (<[0%nat := (0%nat, end_)]> (<[1%nat := (p1, p2)]> ∅)))
    as Hsearch.
  { apply search_here. unfold jsClassRe, s_, w_, dot, line.
    apply rx_optional; [done..|]. rewrite rx_Lit_Cat.
    assert (stops perlSpace (name +:+ tail)) as Hstop.
    { destruct name as [|c name']; [done|].
      apply Forall_cons in Hname as [Hc _]. by apply perlWord_not_space. }
    rewrite rx_Plus_Cat; [|done|done|done|]; last first.
    { intros pos c s Hc. by apply rx_Cap_Plus_reject, perlSpace_not_word. }
    apply rx_Cap_Plus_accept; [done..|]. exact Hend. }
  unfold FindStringSubmatch. rewrite Hsearch.
  eexists. split; [reflexivity|].
  unfold group. simpl.
  rewrite lookup_insert_ne, lookup_insert_eq by done.
  rewrite <- (str_bytes name).
  apply (slice_at (bytes e ++ bytes a ++ bytes "class" ++ bytes sp) _
           (bytes tail)).
  - unfold line. by rewrite !bytes_app, <- !app_assoc.
  - unfold p1. rewrite !length_app, !len_bytes. lia.
  - unfold p2. by rewrite len_bytes.
Qed.

(* ===================================================================== *)
(** * Headers that the scanners record *)
(* ===================================================================== *)

Lemma forRange_app {A St : Type} (body : nat → A → St → St) l1 l2 : ∀ i st,
  forRange body i (l1 ++ l2) st
  = forRange body (i + length l1) l2 (forRange body i l1 st).
Proof.
  induction l1 as [|x l1 IH]; intros i st; simpl.
  - by rewrite Nat.add_0_r.
  - rewrite IH. f_equal. lia.
Qed.

(** What the loop body adds at a line stays to the end of the loop, when
    no body takes a record away. *)
Lemma forRange_records (body : nat → string → list FunctionSignature.t
                               → list FunctionSignature.t)
    lines i raw sig :
  (∀ i raw sigs, sigs `prefix_of` body i raw sigs) →
  lines !! i = Some raw →
  (∀ sigs, sig ∈ body i raw sigs) →
  sig ∈ forRange body 0 lines [].
Proof.
  intros Hgrows Hraw Hadds.
  rewrite <- (take_drop_middle lines i raw Hraw), forRange_app. simpl.
  apply forRange_invariant.
  - intros j x st Hin. destruct (Hgrows j x st) as [k ->].
    apply elem_of_app. by left.
  - rewrite length_take_le by (apply lookup_lt_Some in Hraw; lia).
    apply Hadds.
Qed.

Lemma pyBody_grows lines i raw sigs : sigs `prefix_of` pyBody lines i raw sigs.
Proof.
  destruct (pyBody_one lines i raw sigs) as [->|(sig & -> & _)];
    [done|by apply prefix_app_r].
Qed.

Lemma jsBody_grows lines i raw sigs : sigs `prefix_of` jsBody lines i raw sigs.
Proof.
  destruct (jsBody_one lines i raw sigs) as [->|(sig & -> & _)];
    [done|by apply prefix_app_r].
Qed.

Lemma pyBody_function lines i raw sigs m :
  FindStringSubmatch pyFuncRe (TrimSpace raw) = Some m →
  HasPrefix (group m 1) "_" = false →
  pyBody lines i raw sigs
  = sigs ++ [FunctionSignature.mk (group m 1) "function" (TrimSpace raw)
               (extractPythonDocstring lines (i + 1))
               (Some (parsePythonParameters (group m 2)).1)
               (parsePythonParameters (group m 2)).2].
Proof.
  intros Hm Hpublic. unfold pyBody, pyClassPart. rewrite Hm, Hpublic.
  destruct (parsePythonParameters (group m 2)) as [parameters required].
  destruct (FindStringSubmatch pyClassRe (TrimSpace raw)) as [m'|] eqn:Hclass;
    [|done].
  apply pyFuncRe_def, HasPrefix_spec in Hm as [k Hk].
  apply pyClassRe_class, HasPrefix_spec in Hclass as [k' Hk'].
  rewrite Hk in Hk'. discriminate.
Qed.

Lemma pyBody_class lines i raw sigs m :
  FindStringSubmatch pyClassRe (TrimSpace raw) = Some m →
  HasPrefix (group m 1) "_" = false →
  pyBody lines i raw sigs
  = sigs ++ [FunctionSignature.mk (group m 1) "class" (TrimSpace raw)
               (extractPythonDocstring lines (i + 1)) None []].
Proof.
  intros Hm Hpublic. unfold pyBody, pyClassPart.
  destruct (FindStringSubmatch pyFuncRe (TrimSpace raw)) as [m'|] eqn:Hfunc.
  - apply pyFuncRe_def, HasPrefix_spec in Hfunc as [k Hk].
    apply pyClassRe_class, HasPrefix_spec in Hm as [k' Hk'].
    rewrite Hk in Hk'. discriminate.
  - by rewrite Hm, Hpublic.
Qed.

Lemma jsBody_function lines i raw sigs m :
  FindStringSubmatch jsFuncRe (TrimSpace raw) = Some m →
  HasPrefix (group m 1) "_" = false →
  jsBody lines i raw sigs
  = sigs ++ [FunctionSignature.mk (group m 1) "function" (TrimSpace raw)
               (extractJSDocComment lines i)
               (Some (parseJavaScriptParameters (group m 2)).1)
               (parseJavaScriptParameters (group m 2)).2].
Proof.
  intros Hm Hpublic. unfold jsBody, jsArrowPart, jsClassPart.
  rewrite Hm, Hpublic.
  destruct (parseJavaScriptParameters (group m 2)) as [parameters required].
  apply jsFuncRe_lead in Hm.
  destruct (FindStringSubmatch jsArrowRe (TrimSpace raw)) as [m'|] eqn:Harrow.
  { apply jsArrowRe_lead in Harrow. rewrite Harrow in Hm. by destruct Hm. }
  destruct (FindStringSubmatch jsClassRe (TrimSpace raw)) as [m'|] eqn:Hclass;
    [|done].
  apply jsClassRe_lead in Hclass.
  destruct Hm as [Hm|Hm], Hclass as [Hclass|Hclass];
    rewrite Hm in Hclass; discriminate.
Qed.

Lemma jsBody_class lines i raw sigs m :
  FindStringSubmatch jsClassRe (TrimSpace raw) = Some m →
  HasPrefix (group m 1) "_" = false →
  jsBody lines i raw sigs
  = sigs ++ [FunctionSignature.mk (group m 1) "class" (TrimSpace raw)
               (extractJSDocComment lines i) None []].
Proof.
  intros Hm Hpublic. unfold jsBody, jsArrowPart, jsClassPart.
  pose proof (jsClassRe_lead _ _ Hm) as Hlead.
  destruct (FindStringSubmatch jsFuncRe (TrimSpace raw)) as [m'|] eqn:Hfunc.
  { apply jsFuncRe_lead in Hfunc.
    destruct Hfunc as [Hfunc|Hfunc], Hlead as [Hlead|Hlead];
      rewrite Hfunc in Hlead; discriminate. }
  destruct (FindStringSubmatch jsArrowRe (TrimSpace raw)) as [m'|] eqn:Harrow.
  { apply jsArrowRe_lead in Harrow. rewrite Harrow in Hlead.
    by destruct Hlead. }
  by rewrite Hm, Hpublic.
Qed.

(** X21.  A line of Python that reads [def], white space, a public
    name, [(], a parameter list without [)], and [):], whatever comes
    after, gives a function record: its name is the name, its signature
    the trimmed line, its description the docstring that begins on the
    next line, its parameters and required names those the normalizer
    makes of the parameter list. *)
Theorem python_function_is_recorded (code : string) (i : nat)
    (raw sp name params tail : string) :
  Split code newline !! i = Some raw →
  TrimSpace raw = "def" +:+ sp +:+ name +:+ "(" +:+ params +:+ "):" +:+ tail →
  spaces sp → word name → HasPrefix name "_" = false →
  plainParameters params →
  FunctionSignature.mk name "function" (TrimSpace raw)
    (extractPythonDocstring (Split code newline) (i + 1))
    (Some (parsePythonParameters params).1) (parsePythonParameters params).2
  ∈ (extractPythonSignatures code).1.
Proof.
  intros Hraw Hline Hsp Hname Hpublic Hparams.
  destruct (pyFuncRe_header sp name params tail Hsp Hname Hparams)
    as (m & Hm & Hg1 & Hg2).
  change ("def" +:+ sp +:+ name +:+ "(" +:+ params +:+ ")" +:+ ":" +:+ tail)
    with ("def" +:+ sp +:+ name +:+ "(" +:+ params +:+ "):" +:+ tail) in Hm.
  rewrite <- Hline in Hm.
  apply (forRange_records _ _ i raw); [apply pyBody_grows|done|].
  intros sigs. rewrite (pyBody_function _ _ _ _ m), Hg1, Hg2 by congruence.
  apply elem_of_app. right. apply list_elem_of_here.
Qed.

(** X22.  A line of Python that reads [class], white space, a public
    name, base classes in parentheses or none, and [:], gives a class
    record with that name, the trimmed line for signature and the
    docstring that begins on the next line for description; it has no
    parameters. *)
Theorem python_class_is_recorded (code : string) (i : nat)
    (raw sp name bases tail : string) :
  Split code newline !! i = Some raw →
  TrimSpace raw = "class" +:+ sp +:+ name +:+ bases +:+ ":" +:+ tail →
  spaces sp → word name → HasPrefix name "_" = false → inherits bases →
  FunctionSignature.mk name "class" (TrimSpace raw)
    (extractPythonDocstring (Split code newline) (i + 1)) None []
  ∈ (extractPythonSignatures code).1.
Proof.
  intros Hraw Hline Hsp Hname Hpublic Hbases.
  destruct (pyClassRe_header sp name bases tail Hsp Hname Hbases)
    as (m & Hm & Hg1).
  rewrite <- Hline in Hm.
  apply (forRange_records _ _ i raw); [apply pyBody_grows|done|].
  intros sigs. rewrite (pyBody_class _ _ _ _ m), Hg1 by congruence.
  apply elem_of_app. right. apply list_elem_of_here.
Qed.

(** X23.  A line of JavaScript or TypeScript that reads [function]
    (after [export] and [async], if they are there), white space, a
    public name, [(], a parameter list without [)], and [)], gives a
    function record: its name is the name, its signature the trimmed
    line, its description the comment collected above the line, its
    parameters and required names those the normalizer makes of the
    parameter list. *)
Theorem javascript_function_is_recorded (code : string) (i : nat)
    (raw e a sp name params tail : string) :
  Split code newline !! i = Some raw →
  TrimSpace raw
  = e +:+ a +:+ "function" +:+ sp +:+ name +:+ "(" +:+ params +:+ ")" +:+ tail →
  optional "export" e → optional "async" a →
  spaces sp → word name → HasPrefix name "_" = false →
  plainParameters params →
  FunctionSignature.mk name "function" (TrimSpace raw)
    (extractJSDocComment (Split code newline) i)
    (Some (parseJavaScriptParameters params).1)
    (parseJavaScriptParameters params).2
  ∈ (extractJavaScriptSignatures code).1.
Proof.
  intros Hraw Hline He Ha Hsp Hname Hpublic Hparams.
  destruct (jsFuncRe_header e a sp name params tail He Ha Hsp Hname Hparams)
    as (m & Hm & Hg1 & Hg2).
  rewrite <- Hline in Hm.
  apply (forRange_records _ _ i raw); [apply jsBody_grows|done|].
  intros sigs. rewrite (jsBody_function _ _ _ _ m), Hg1, Hg2 by congruence.
  apply elem_of_app. right. apply list_elem_of_here.
Qed.

(** X24.  A line of JavaScript or TypeScript that reads [class] (after
    [export] and [abstract], if they are there), white space and a
    public name that ends where the line ends or goes on with a byte
    that is no letter, digit or underscore, gives a class record with
    that name, the trimmed line for signature and the comment collected
    above the line for description; it has no parameters. *)
Theorem javascript_class_is_recorded (code : string) (i : nat)
    (raw e a sp name tail : string) :
  Split code newline !! i = Some raw →
  TrimSpace raw = e +:+ a +:+ "class" +:+ sp +:+ name +:+ tail →
  optional "export" e → optional "abstract" a →
  spaces sp → word name → HasPrefix name "_" = false →
  stops perlWord tail →
  FunctionSignature.mk name "class" (TrimSpace raw)
    (extractJSDocComment (Split code newline) i) None []
  ∈ (extractJavaScriptSignatures code).1.
Proof.
  intros Hraw Hline He Ha Hsp Hname Hpublic Htail.
  destruct (jsClassRe_header e a sp name tail He Ha Hsp Hname Htail)
    as (m & Hm & Hg1).
  rewrite <- Hline in Hm.
  apply (forRange_records _ _ i raw); [apply jsBody_grows|done|].
  intros sigs. rewrite (jsBody_class _ _ _ _ m), Hg1 by congruence.
  apply elem_of_app. right. apply list_elem_of_here.
Qed.

Lemma python_function_is_recorded_witness :
  FunctionSignature.mk "add" "function" (TrimSpace "  def add(a, b=1): pass")
    (extractPythonDocstring
       (Split (unlines ["  def add(a, b=1): pass"; "x = 1"]) newline) (0 + 1))
    (Some (parsePythonParameters "a, b=1").1)
    (parsePythonParameters "a, b=1").2
  ∈ (extractPythonSignatures (unlines ["  def add(a, b=1): pass"; "x = 1"])).1.
Proof.
  apply (python_function_is_recorded
           (unlines ["  def add(a, b=1): pass"; "x = 1"]) 0
           "  def add(a, b=1): pass" " " "add" "a, b=1" " pass");
    [reflexivity|reflexivity| | |reflexivity|];
    repeat first [split | discriminate | constructor].
Defined.

Lemma python_class_is_recorded_witness :
  FunctionSignature.mk "Person" "class" (TrimSpace "class Person(Base):")
    (extractPythonDocstring
       (Split (unlines ["class Person(Base):"; "    '''A person.'''"]) newline)
       (0 + 1)) None []
  ∈ (extractPythonSignatures
       (unlines ["class Person(Base):"; "    '''A person.'''"])).1.
Proof.
  apply (python_class_is_recorded
           (unlines ["class Person(Base):"; "    '''A person.'''"]) 0
           "class Person(Base):" " " "Person" "(Base)" "");
    [reflexivity|reflexivity| | |reflexivity|].
  - repeat first [split | discriminate | constructor].
  - repeat first [split | discriminate | constructor].
  - right. exists "Base". split; [|reflexivity].
    repeat first [split | constructor].
Defined.

Lemma javascript_function_is_recorded_witness :
  FunctionSignature.mk "add" "function"
    (TrimSpace "export async function add(a, b) {")
    (extractJSDocComment
       (Split (unlines ["// sum"; "export async function add(a, b) {"]) newline)
       1)
    (Some (parseJavaScriptParameters "a, b").1)
    (parseJavaScriptParameters "a, b").2
  ∈ (extractJavaScriptSignatures
       (unlines ["// sum"; "export async function add(a, b) {"])).1.
Proof.
  apply (javascript_function_is_recorded
           (unlines ["// sum"; "export async function add(a, b) {"]) 1
           "export async function add(a, b) {" "export " "async " " " "add"
           "a, b" " {");
    [reflexivity|reflexivity| | | | |reflexivity|].
  - right. exists " ". split; [|reflexivity].
    repeat first [split | discriminate | constructor].
  - right. exists " ". split; [|reflexivity].
    repeat first [split | discriminate | constructor].
  - repeat first [split | discriminate | constructor].
  - repeat first [split | discriminate | constructor].
  - repeat first [split | constructor].
Defined.

Lemma javascript_class_is_recorded_witness :
  FunctionSignature.mk "Calculator" "class"
    (TrimSpace "class Calculator extends Base {")
    (extractJSDocComment
       (Split (unlines ["class Calculator extends Base {"; "}"]) newline) 0)
    None []
  ∈ (extractJavaScriptSignatures
       (unlines ["class Calculator extends Base {"; "}"])).1.
Proof.
  apply (javascript_class_is_recorded
           (unlines ["class Calculator extends Base {"; "}"]) 0
           "class Calculator extends Base {" "" "" " " "Calculator"
           " extends Base {");
    [reflexivity|reflexivity|by left|by left| | |reflexivity|reflexivity];
    repeat first [split | discriminate | constructor].
Defined.

(* ===================================================================== *)
(** * Paths without a parent element *)
(* ===================================================================== *)

Lemma HasPrefix_slash c s : HasPrefix (String c s) "/" = true ↔ c = "/"%char.
Proof.
  rewrite HasPrefix_spec. simpl. split.
  - intros [k Hk]. by injection Hk as ->.
  - intros ->. by exists (bytes s).
Qed.

Lemma splitGo_app a b : ∀ cur,
  splitGo "/" (a +:+ "/" +:+ b) 0 cur
  = splitGo "/" a 0 cur ++ splitGo "/" b 0 [].
Proof.
  induction a as [|c a IH]; intros cur.
  - change ("" +:+ "/" +:+ b) with (String "/" b). by destruct b.
  - change (String c a +:+ "/" +:+ b) with (String c (a +:+ "/" +:+ b)).
    change (splitGo "/" (String c ?s) 0 cur)
      with (if HasPrefix (String c s) "/"
            then str (rev cur) :: splitGo "/" s 0 []
            else splitGo "/" s 0 (c :: cur)).
    destruct (HasPrefix (String c (a +:+ "/" +:+ b)) "/") eqn:Hc.
    + apply HasPrefix_slash in Hc as ->.
      replace (HasPrefix (String "/" a) "/") with true
        by (symmetry; by apply HasPrefix_slash).
      by rewrite IH.
    + replace (HasPrefix (String c a) "/") with false; [apply IH|].
      symmetry. apply not_true_iff_false. intros ->%HasPrefix_slash.
      apply not_true_iff_false in Hc. destruct Hc. by apply HasPrefix_slash.
Qed.

Lemma splitGo_slashFree e : ∀ cur,
  slashFree e → splitGo "/" e 0 cur = [str (rev cur ++ bytes e)].
Proof.
  unfold slashFree. induction e as [|c e IH]; intros cur Hfree.
  - simpl. by rewrite app_nil_r.
  - change (splitGo "/" (String c e) 0 cur)
      with (if HasPrefix (String c e) "/"
            then str (rev cur) :: splitGo "/" e 0 []
            else splitGo "/" e 0 (c :: cur)).
    destruct (HasPrefix (String c e) "/") eqn:Hc.
    + apply HasPrefix_slash in Hc as ->. destruct Hfree. apply list_elem_of_here.
    + rewrite IH.
      * simpl. by rewrite <- app_assoc.
      * intros Hin. apply Hfree. by apply list_elem_of_further.
Qed.

Lemma splitGo_pieces s : ∀ cur,
  "/"%char ∉ cur → Forall slashFree (splitGo "/" s 0 cur).
Proof.
  induction s as [|c s IH]; intros cur Hcur.
  - constructor; [|done]. unfold slashFree. rewrite bytes_str.
    intros Hin. apply Hcur. by apply list_elem_of_In, in_rev, list_elem_of_In.
  - change (splitGo "/" (String c s) 0 cur)
      with (if HasPrefix (String c s) "/"
            then str (rev cur) :: splitGo "/" s 0 []
            else splitGo "/" s 0 (c :: cur)).
    destruct (HasPrefix (String c s) "/") eqn:Hc.
    + constructor; [|apply IH, not_elem_of_nil].
      unfold slashFree. rewrite bytes_str.
      intros Hin. apply Hcur. by apply list_elem_of_In, in_rev, list_elem_of_In.
    + apply IH. intros [<-|Hin]%elem_of_cons; [|done].
      apply not_true_iff_false in Hc. destruct Hc. by apply HasPrefix_slash.
Qed.

Lemma Join_cons e es sep :
  es ≠ [] → Join (e :: es) sep = e +:+ sep +:+ Join es sep.
Proof. by destruct es. Qed.

Lemma append_assoc (a b c : string) : (a +:+ b) +:+ c = a +:+ b +:+ c.
Proof. apply bytes_inj. by rewrite !bytes_app, <- app_assoc. Qed.

Lemma Join_app es1 es2 sep :
  es1 ≠ [] → es2 ≠ [] →
  Join (es1 ++ es2) sep = Join es1 sep +:+ sep +:+ Join es2 sep.
Proof.
  intros Hes1 Hes2. induction es1 as [|e es1 IH]; [done|].
  destruct es1 as [|e' es1].
  - simpl app. by rewrite Join_cons.
  - change ((e :: e' :: es1) ++ es2) with (e :: (e' :: es1) ++ es2).
    rewrite !Join_cons, IH, !append_assoc by done. done.
Qed.

Lemma Split_Join elems :
  Forall slashFree elems → elems ≠ [] → Split (Join elems "/") "/" = elems.
Proof.
  intros Hfree Hne. unfold Split.
  induction Hfree as [|e es He Hes IH]; [done|].
  destruct es as [|e' es].
  - simpl. rewrite splitGo_slashFree by done. simpl. by rewrite str_bytes.
  - rewrite Join_cons, splitGo_app, splitGo_slashFree, IH by done.
    change (rev [] ++ bytes e) with (bytes e). by rewrite str_bytes.
Qed.

(** ** [Clean] on such paths *)

Lemma cleanStep_plain stack elem :
  Forall plain stack → slashFree elem →
  Forall plain (Filepath.cleanStep true stack elem).
Proof.
  intros Hstack Helem. unfold Filepath.cleanStep.
  destruct (String.eqb_spec elem "") as [|Hempty]; [done|].
  destruct (String.eqb_spec elem ".") as [|Hdot]; [done|]. simpl.
  destruct (String.eqb_spec elem "..") as [|Hparent].
  - destruct Hstack as [|top below (_ & _ & Htop & _) Hbelow]; [done|].
    by destruct (String.eqb_spec top "..").
  - by constructor.
Qed.

Lemma foldl_cleanStep_plain elems : ∀ stack,
  Forall plain stack → Forall slashFree elems →
  Forall plain (foldl (Filepath.cleanStep true) stack elems).
Proof.
  induction elems as [|e elems IH]; intros stack Hstack Helems; [done|].
  apply Forall_cons in Helems as [He Helems]. simpl.
  apply IH; [by apply cleanStep_plain|done].
Qed.

(** Without a parent element the stack only grows. *)
Lemma foldl_cleanStep_grows elems : ∀ stack,
  ".." ∉ elems →
  ∃ more, foldl (Filepath.cleanStep true) stack elems = more ++ stack.
Proof.
  induction elems as [|e elems IH]; intros stack Hparent.
  - by exists [].
  - apply not_elem_of_cons in Hparent as [He Hparent]. simpl.
    unfold Filepath.cleanStep at 2.
    destruct (String.eqb e "" || String.eqb e "."); [by apply IH|].
    destruct (String.eqb_spec e "..") as [|_]; [done|].
    destruct (IH (e :: stack) Hparent) as [more ->].
    exists (more ++ [e]). by rewrite <- app_assoc.
Qed.

Lemma foldl_cleanStep_pushes elems :
  Forall plain elems →
  foldl (Filepath.cleanStep true) [] ("" :: elems) = rev elems.
Proof.
  simpl. change (Filepath.cleanStep true [] "") with (@nil string).
  assert (∀ stack, Forall plain elems →
            foldl (Filepath.cleanStep true) stack elems = rev elems ++ stack)
    as Hpush.
  { induction elems as [|e elems IH]; intros stack Helems; [done|].
    apply Forall_cons in Helems as [(Hempty & Hdot & Hparent & _) Helems].
    simpl. unfold Filepath.cleanStep at 2.
    apply String.eqb_neq in Hempty, Hdot, Hparent.
    rewrite Hempty, Hdot, Hparent. simpl.
    rewrite IH by done. by rewrite <- app_assoc. }
  intros Helems. rewrite Hpush by done. by rewrite app_nil_r.
Qed.

Lemma Split_rooted s : Split ("/" +:+ s) "/" = "" :: Split s "/".
Proof. unfold Split. apply (splitGo_app "" s []). Qed.

(** A rooted path of plain elements is clean. *)
Lemma Clean_plain elems :
  Forall plain elems →
  Filepath.Clean ("/" +:+ Join elems "/") = "/" +:+ Join elems "/".
Proof.
  intros Helems. unfold Filepath.Clean.
  change (String.eqb ("/" +:+ Join elems "/") "") with false.
  rewrite HasPrefix_app. rewrite Split_rooted. destruct elems as [|e elems]; [done|].
  rewrite Split_Join; [|by eapply Forall_impl; [done|intros ? (_&_&_&?)]|done].
  by rewrite foldl_cleanStep_pushes, rev_involutive.
Qed.

Lemma Clean_rooted root :
  HasPrefix root "/" = true →
  ∃ elems, Forall plain elems
           ∧ Filepath.Clean root = "/" +:+ Join elems "/"
           ∧ foldl (Filepath.cleanStep true) [] (Split root "/") = rev elems.
Proof.
  intros Hroot. exists (rev (foldl (Filepath.cleanStep true) [] (Split root "/"))).
  split; [|split; [|by rewrite rev_involutive]].
  - apply Forall_rev, foldl_cleanStep_plain; [done|].
    apply splitGo_pieces, not_elem_of_nil.
  - unfold Filepath.Clean. rewrite Hroot. by destruct root.
Qed.

(** X25.  A requested path that holds no [..] element never leaves the
    repository: whatever else it holds (a leading slash, doubled
    slashes, [.] elements), it is resolved to the root itself or to a
    path below the root, the check lets it through, and the file read
    is the one at that path. *)
Theorem path_without_parent_stays_inside (os : OS) (args : gmap string json)
    (path root : string) :
  args !! "path" = Some (JStr path) → path ≠ "" →
  Getwd os = Ok root → HasPrefix root "/" = true →
  ".." ∉ Split path "/" →
  inside (Filepath.Clean root) (Filepath.Join [root; path]) = true
  ∧ handleGetFileContent os args
    = match ReadFile os (Filepath.Join [root; path]) with
      | Ok content => ToolResultText (Plain content)
      | Err e => ToolResultError ("failed to read file: " +:+ e)
      end.
Proof.
  intros Harg Hpath Hwd Hroot Hparent.
  destruct (Clean_rooted root Hroot) as (R & HR & Hclean & Hstack).
  assert (∃ P, Forall plain (R ++ P)
               ∧ Filepath.Join [root; path] = "/" +:+ Join (R ++ P) "/")
    as (P & HRP & Hjoin).
  { destruct (foldl_cleanStep_grows (Split path "/") (rev R) Hparent)
      as [more Hmore].
    exists (rev more).
    assert (foldl (Filepath.cleanStep true) [] (Split (root +:+ "/" +:+ path) "/")
            = more ++ rev R) as Hfull.
    { unfold Split. rewrite splitGo_app, foldl_app.
      fold (Split root "/"). by rewrite Hstack. }
    split.
    - rewrite <- (rev_involutive R), <- rev_app_distr, <- Hfull.
      apply Forall_rev, foldl_cleanStep_plain; [done|].
      apply splitGo_pieces, not_elem_of_nil.
    - unfold Filepath.Join. destruct (String.eqb_spec root "") as [->|_]; [done|].
      change (Strings.Join [root; path] "/") with (root +:+ "/" +:+ path).
      unfold Filepath.Clean.
      destruct (String.eqb_spec (root +:+ "/" +:+ path) "") as [Hempty|_].
      { destruct root; done. }
      replace (HasPrefix (root +:+ "/" +:+ path) "/") with true
        by (destruct root; [done|];
            apply HasPrefix_slash in Hroot as ->;
            symmetry; by apply HasPrefix_slash).
      by rewrite Hfull, rev_app_distr, rev_involutive. }
  assert (inside (Filepath.Clean root) (Filepath.Join [root; path]) = true
          ∧ HasPrefix (Filepath.Join [root; path]) (Filepath.Clean root) = true)
    as [Hinside Hprefix].
  { rewrite Hclean, Hjoin. unfold inside.
    destruct P as [|p P]; [rewrite app_nil_r|].
    - rewrite String.eqb_refl. split; [done|].
      apply HasPrefix_spec. done.
    - destruct R as [|r R];
        [split; [by rewrite orb_true_r|apply (HasPrefix_app "/")]|].
      rewrite Join_app by done.
      assert (HasPrefix ("/" +:+ Join (r :: R) "/" +:+ "/" +:+ Join (p :: P) "/")
                (("/" +:+ Join (r :: R) "/") +:+ "/") = true) as Hbelow.
      { apply HasPrefix_spec. rewrite !bytes_app, <- !app_assoc.
        repeat apply prefix_app; by apply prefix_app_r. }
      rewrite Hbelow, orb_true_r. split; [done|].
      apply HasPrefix_spec. rewrite !bytes_app. by apply prefix_app, prefix_app_r. }
  split; [done|].
  unfold handleGetFileContent, RequiredParam, Abs. rewrite Harg, Hwd.
  destruct (String.eqb_spec path "") as [|_]; [done|].
  unfold Filepath.IsAbs. rewrite Hroot.
  replace (HasPrefix (Filepath.Join [root; path]) "/") with true
    by (by rewrite Hjoin, HasPrefix_app).
  rewrite (Hjoin), (Clean_plain _ HRP), <- Hjoin, Hprefix. done.
Qed.

Lemma path_without_parent_stays_inside_witness :
  inside (Filepath.Clean "/srv/repo")
         (Filepath.Join ["/srv/repo"; "/docs//./a.txt"]) = true
  ∧ handleGetFileContent sampleOS {[ "path" := JStr "/docs//./a.txt" ]}
    = match ReadFile sampleOS (Filepath.Join ["/srv/repo"; "/docs//./a.txt"]) with
      | Ok content => ToolResultText (Plain content)
      | Err e => ToolResultError ("failed to read file: " +:+ e)
      end.
Proof.
  apply (path_without_parent_stays_inside sampleOS
           {[ "path" := JStr "/docs//./a.txt" ]} "/docs//./a.txt" "/srv/repo");
    [reflexivity|discriminate|reflexivity|reflexivity|].
  vm_compute. intros Hin.
  repeat (apply elem_of_cons in Hin as [Hin|Hin]; [discriminate|]).
  by apply elem_of_nil in Hin.
Defined.

(** ** A JavaScript arrow function *)

Lemma rx_Star_Cat p r w t pos caps (k : cont) :
  Forall (λ c, p c = true) (bytes w) →
  stops p t →
  (∀ pos c s, p c = true → rx r pos (String c s) caps k = None) →
  rx (Star true (Class p) ⋅ r) pos (w +:+ t) caps k
  = rx r (pos + len w)%nat t caps k.
Proof.
  intros Hw Ht Hk.
  change (rx (Star true (Class p) ⋅ r) pos (w +:+ t) caps k)
    with (rx (Star true (Class p)) pos (w +:+ t) caps
            (λ pos' s' caps', rx r pos' s' caps' k)).
  by rewrite rx_Star_run.
Qed.

Lemma rx_Quest_fails r1 r s pos caps (k : cont) :
  rx r1 pos s caps (λ pos' s' caps', rx r pos' s' caps' k) = None →
  rx (Quest r1 ⋅ r) pos s caps k = rx r pos s caps k.
Proof. intros Hfails. simpl. by rewrite Hfails. Qed.

Lemma rx_export c l r e t (k : cont) res :
  optional "export" e →
  c ≠ "e"%char → perlSpace c = false →
  rx (Lit (String c l) ⋅ r) (len e) (String c l +:+ t) ∅ k = Some res →
  rx (Bol ⋅ Quest (Lit "export" ⋅ Plus (Class perlSpace))
      ⋅ Lit (String c l) ⋅ r) 0
     (e +:+ String c l +:+ t) ∅ k
  = Some res.
Proof.
  intros He Hc Hspace Hres. rewrite rx_Bol_Cat.
  destruct He as [->|(sp & [Hsp_ne Hsp] & ->)].
  - by rewrite rx_Quest_skip by (by apply HasPrefix_head).
  - rewrite append_assoc. apply rx_Quest_keyword; [done|done|done| |].
    + intros pos c' s Hc'. apply rx_Lit_reject, HasPrefix_head.
      intros ->. congruence.
    + by rewrite len_app in Hres.
Qed.

(** What follows a run of white space that may be missing. *)
Lemma blanks_stops (p : ascii → bool) sp c t :
  blanks sp → (∀ c', perlSpace c' = true → p c' = false) → p c = false →
  stops p (sp +:+ String c t).
Proof.
  intros Hsp Hp Hc. destruct sp as [|c' sp]; [done|].
  apply Forall_cons in Hsp as [Hc' _]. by apply Hp.
Qed.

Lemma jsArrowRe_header e sp name sp1 sp2 params sp3 tail :
  optional "export" e →
  spaces sp → word name → blanks sp1 → blanks sp2 →
  plainParameters params → blanks sp3 →
  ∃ m, FindStringSubmatch jsArrowRe
         (e +:+ "const" +:+ sp +:+ name +:+ sp1 +:+ "=" +:+ sp2 +:+ "("
          +:+ params +:+ ")" +:+ sp3 +:+ "=>" +:+ tail)
       = Some m
       ∧ group m 1 = name ∧ group m 2 = params.
Proof.
  intros He [Hsp_ne Hsp] [Hname_ne Hname] Hsp1 Hsp2 Hparams Hsp3.
  set (line := e +:+ "const" +:+ sp +:+ name +:+ sp1 +:+ "=" +:+ sp2 +:+ "("
               +:+ params +:+ ")" +:+ sp3 +:+ "=>" +:+ tail).
  set (p1 := (len e + len "const" + len sp)%nat).
  set (p2 := (p1 + len name)%nat).
  set (p3 := (p2 + len sp1 + len "=" + len sp2 + len "(")%nat).
  set (p4 := (p3 + len params)%nat).
  set (caps := (<[0%nat := (0%nat, (p4 + len ")" + len sp3 + len "=>")%nat)]>
                  (<[2%nat := (p3, p4)]> (<[1%nat := (p1, p2)]> ∅)))
                : gmap nat (nat * nat)).
  assert (search jsArrowRe 0 line = Some caps) as Hsearch.
  { apply search_here. unfold jsArrowRe, s_, w_, dot, line.
    apply rx_export; [done..|]. rewrite rx_Lit_Cat.
    rewrite rx_Plus_Cat; [|done|done| |]; first last.
    { intros pos c s Hc. by apply rx_Cap_Plus_reject, perlSpace_not_word. }
    { destruct name as [|c name']; [done|].
      apply Forall_cons in Hname as [Hc _]. by apply perlWord_not_space. }
    rewrite rx_Cap_Plus_Cat; [|done|done| |]; first last.
    { intros pos c s caps' Hc.
      rewrite rx_Star_skip by (by apply perlWord_not_space).
      apply rx_Lit_reject, HasPrefix_head. by intros ->. }
    { apply blanks_stops; [done|apply perlSpace_not_word|done]. }
    rewrite rx_Star_Cat; [|done|done|]; last first.
    { intros pos c s Hc. apply rx_Lit_reject, HasPrefix_head. by intros ->. }
    rewrite rx_Lit_Cat.
    rewrite rx_Star_Cat; [|done|done|]; last first.
    { intros pos c s Hc.
      rewrite rx_Quest_skip by (apply HasPrefix_head; by intros ->).
      apply rx_Lit_reject, HasPrefix_head. by intros ->. }
    rewrite rx_Quest_skip by done. rewrite rx_Lit_Cat.
    apply (rx_Cap_lazy_Cat _ _ notClose); [done| |].
    { intros pos c s caps' Hc.
      apply rx_Lit_reject, HasPrefix_head. by apply notClose_spec. }
    rewrite rx_Lit_Cat.
    rewrite rx_Quest_fails; last first.
    { rewrite rx_Star_Cat; [by apply rx_Lit_reject|done|done|].
      intros pos c s Hc. apply rx_Lit_reject, HasPrefix_head. by intros ->. }
    rewrite rx_Star_Cat; [|done|done|]; last first.
    { intros pos c s Hc. apply rx_Lit_end_reject, HasPrefix_head.
      by intros ->. }
    by rewrite rx_Lit_end. }
  unfold FindStringSubmatch. rewrite Hsearch.
  eexists. split; [reflexivity|].
  assert (bytes line
          = bytes e ++ bytes "const" ++ bytes sp ++ bytes name ++ bytes sp1
            ++ bytes "=" ++ bytes sp2 ++ bytes "(" ++ bytes params
            ++ bytes ")" ++ bytes sp3 ++ bytes "=>" ++ bytes tail) as Hline
    by (unfold line; by rewrite !bytes_app).
  unfold group. simpl. unfold caps at 1 2. split.
  - rewrite lookup_insert_ne, lookup_insert_ne, lookup_insert_eq by done.
    rewrite <- (str_bytes name).
    apply (slice_at (bytes e ++ bytes "const" ++ bytes sp) _
             (bytes sp1 ++ bytes "=" ++ bytes sp2 ++ bytes "(" ++ bytes params
              ++ bytes ")" ++ bytes sp3 ++ bytes "=>" ++ bytes tail)).
    + by rewrite Hline, <- !app_assoc.
    + unfold p1. rewrite !length_app, !len_bytes. lia.
    + unfold p2. by rewrite len_bytes.
  - rewrite lookup_insert_ne, lookup_insert_eq by done.
    rewrite <- (str_bytes params).
    apply (slice_at (bytes e ++ bytes "const" ++ bytes sp ++ bytes name
                     ++ bytes sp1 ++ bytes "=" ++ bytes sp2 ++ bytes "(") _
             (bytes ")" ++ bytes sp3 ++ bytes "=>" ++ bytes tail)).
    + by rewrite Hline, <- !app_assoc.
    + unfold p3, p2, p1. rewrite !length_app, !len_bytes. lia.
    + unfold p4. by rewrite len_bytes.
Qed.

Lemma jsBody_arrow lines i raw sigs m :
  FindStringSubmatch jsArrowRe (TrimSpace raw) = Some m →
  HasPrefix (group m 1) "_" = false →
  jsBody lines i raw sigs
  = sigs ++ [FunctionSignature.mk (group m 1) "function" (TrimSpace raw)
               (extractJSDocComment lines i)
               (Some (parseJavaScriptParameters (group m 2)).1)
               (parseJavaScriptParameters (group m 2)).2].
Proof.
  intros Hm Hpublic. unfold jsBody, jsArrowPart, jsClassPart.
  pose proof (jsArrowRe_lead _ _ Hm) as Hlead.
  destruct (FindStringSubmatch jsFuncRe (TrimSpace raw)) as [m'|] eqn:Hfunc.
  { apply jsFuncRe_lead in Hfunc. rewrite Hlead in Hfunc. by destruct Hfunc. }
  rewrite Hm, Hpublic.
  destruct (parseJavaScriptParameters (group m 2)) as [parameters required].
  destruct (FindStringSubmatch jsClassRe (TrimSpace raw)) as [m'|] eqn:Hclass;
    [|done].
  apply jsClassRe_lead in Hclass. rewrite Hlead in Hclass. by destruct Hclass.
Qed.

(** X26.  A line of JavaScript or TypeScript that binds an arrow
    function to a constant, [const name = (parameters) =>] after an
    optional [export], with white space where it may stand and a
    parameter list without [)], gives a function record: its name is the
    name of the constant, its signature the trimmed line, its
    description the comment collected above the line, its parameters
    and required names those the normalizer makes of the parameter
    list. *)
Theorem arrow_function_is_recorded (code : string) (i : nat)
    (raw e sp name sp1 sp2 params sp3 tail : string) :
  Split code newline !! i = Some raw →
  TrimSpace raw
  = e +:+ "const" +:+ sp +:+ name +:+ sp1 +:+ "=" +:+ sp2 +:+ "(" +:+ params
    +:+ ")" +:+ sp3 +:+ "=>" +:+ tail →
  optional "export" e →
  spaces sp → word name → HasPrefix name "_" = false →
  blanks sp1 → blanks sp2 → plainParameters params → blanks sp3 →
  FunctionSignature.mk name "function" (TrimSpace raw)
    (extractJSDocComment (Split code newline) i)
    (Some (parseJavaScriptParameters params).1)
    (parseJavaScriptParameters params).2
  ∈ (extractJavaScriptSignatures code).1.
Proof.
  intros Hraw Hline He Hsp Hname Hpublic Hsp1 Hsp2 Hparams Hsp3.
  destruct (jsArrowRe_header e sp name sp1 sp2 params sp3 tail)
    as (m & Hm & Hg1 & Hg2); [done..|].
  rewrite <- Hline in Hm.
  apply (forRange_records _ _ i raw); [apply jsBody_grows|done|].
  intros sigs. rewrite (jsBody_arrow _ _ _ _ m), Hg1, Hg2 by congruence.
  apply elem_of_app. right. apply list_elem_of_here.
Qed.

Lemma arrow_function_is_recorded_witness :
  FunctionSignature.mk "divide" "function"
    (TrimSpace "export const divide = (a, b) => a / b;")
    (extractJSDocComment
       (Split (unlines ["export const divide = (a, b) => a / b;"]) newline) 0)
    (Some (parseJavaScriptParameters "a, b").1)
    (parseJavaScriptParameters "a, b").2
  ∈ (extractJavaScriptSignatures
       (unlines ["export const divide = (a, b) => a / b;"])).1.
Proof.
  apply (arrow_function_is_recorded
           (unlines ["export const divide = (a, b) => a / b;"]) 0
           "export const divide = (a, b) => a / b;" "export " " " "divide"
           " " " " "a, b" " " " a / b;");
    [reflexivity|reflexivity| | | |reflexivity| | | |].
  - right. exists " ". split; [|reflexivity].
    repeat first [split | discriminate | constructor].
  - repeat first [split | discriminate | constructor].
  - repeat first [split | discriminate | constructor].
  - repeat constructor.
  - repeat constructor.
  - repeat first [split | constructor].
  - repeat constructor.
Defined.
